(** * Contact manager (task_py_7.py): validation and birthday scheduling

    A shallow embedding of [src/task_py_7.py] together with the parts of
    the Python runtime it calls ([str], [datetime.date],
    [datetime.strptime]), and the properties of the specification that
    follow from it.

    Conventions.
    - A Python [str] is a sequence of Unicode code points: [pystr].
    - A Python [int] is a [Z]; [//] and [%] are [Z.div] and [Z.modulo]
      (both round towards minus infinity, as Python's do).
    - A call that may raise returns a [result]; a method that mutates
      [self] is a function from the state to the new state paired with
      the outcome, so that the state left behind by a raise is visible.
    - [date.today()] is an explicit argument [today]. *)

From Stdlib Require Import String Ascii DecimalString ZArith NArith Bool Lia List.
Import ListNotations.
Local Open Scope Z_scope.

(* ===================================================================== *)
(** ** Python strings *)
(* ===================================================================== *)

(** A code point, [0 .. 0x10FFFF]. *)
Definition codepoint := N.

Definition pystr := list codepoint.

(** An ASCII literal of the source as a [pystr]. *)
Definition lit (s : string) : pystr := map N_of_ascii (list_ascii_of_string s).

Definition str_eqb (a b : pystr) : bool :=
  if list_eq_dec N.eq_dec a b then true else false.

(** [len(s)] *)
Definition len {A} (l : list A) : Z := Z.of_nat (List.length l).

(** [str(n)] for an integer. *)
Definition str_of_int (n : Z) : pystr := lit (NilZero.string_of_int (Z.to_int n)).

(** [sep.join(parts)] *)
Fixpoint join (sep : pystr) (parts : list pystr) : pystr :=
  match parts with
  | [] => []
  | [p] => p
  | p :: ps => p ++ sep ++ join sep ps
  end.

(** Membership of a code point in a table of inclusive ranges. *)
Fixpoint in_ranges (c : codepoint) (t : list (N * N)) : bool :=
  match t with
  | [] => false
  | (lo, hi) :: t' => ((lo <=? c) && (c <=? hi))%N || in_ranges c t'
  end.

(** The code points [c] with [chr(c).isdigit()], Unicode 14.0.0 (the data
    of CPython 3.11): the decimal digits of every script and the other
    characters of numeric type Digit (superscripts, circled digits, ...). *)
Definition isdigit_table : list (N * N) :=
  [(48, 57); (178, 179); (185, 185); (1632, 1641); (1776, 1785);
   (1984, 1993); (2406, 2415); (2534, 2543); (2662, 2671); (2790, 2799);
   (2918, 2927); (3046, 3055); (3174, 3183); (3302, 3311); (3430, 3439);
   (3558, 3567); (3664, 3673); (3792, 3801); (3872, 3881); (4160, 4169);
   (4240, 4249); (4969, 4977); (6112, 6121); (6160, 6169); (6470, 6479);
   (6608, 6618); (6784, 6793); (6800, 6809); (6992, 7001); (7088, 7097);
   (7232, 7241); (7248, 7257); (8304, 8304); (8308, 8313); (8320, 8329);
   (9312, 9320); (9332, 9340); (9352, 9360); (9450, 9450); (9461, 9469);
   (9471, 9471); (10102, 10110); (10112, 10120); (10122, 10130);
   (42528, 42537); (43216, 43225); (43264, 43273); (43472, 43481);
   (43504, 43513); (43600, 43609); (44016, 44025); (65296, 65305);
   (66720, 66729); (68160, 68163); (68912, 68921); (69216, 69224);
   (69714, 69722); (69734, 69743); (69872, 69881); (69942, 69951);
   (70096, 70105); (70384, 70393); (70736, 70745); (70864, 70873);
   (71248, 71257); (71360, 71369); (71472, 71481); (71904, 71913);
   (72016, 72025); (72784, 72793); (73040, 73049); (73120, 73129);
   (92768, 92777); (92864, 92873); (93008, 93017); (120782, 120831);
   (123200, 123209); (123632, 123641); (125264, 125273);
   (127232, 127242); (130032, 130041)]%N.

(** The runs of decimal digits (general category Nd), Unicode 14.0.0: what
    [\d] matches in a [str] pattern and what [int()] reads.  Each run holds
    the digits 0 to 9 in order; the mathematical digits at 120782 are five
    such runs in a row. *)
Definition decimal_runs : list (N * N) :=
  [(48, 57); (1632, 1641); (1776, 1785); (1984, 1993); (2406, 2415);
   (2534, 2543); (2662, 2671); (2790, 2799); (2918, 2927); (3046, 3055);
   (3174, 3183); (3302, 3311); (3430, 3439); (3558, 3567); (3664, 3673);
   (3792, 3801); (3872, 3881); (4160, 4169); (4240, 4249); (6112, 6121);
   (6160, 6169); (6470, 6479); (6608, 6617); (6784, 6793); (6800, 6809);
   (6992, 7001); (7088, 7097); (7232, 7241); (7248, 7257); (42528, 42537);
   (43216, 43225); (43264, 43273); (43472, 43481); (43504, 43513);
   (43600, 43609); (44016, 44025); (65296, 65305); (66720, 66729);
   (68912, 68921); (69734, 69743); (69872, 69881); (69942, 69951);
   (70096, 70105); (70384, 70393); (70736, 70745); (70864, 70873);
   (71248, 71257); (71360, 71369); (71472, 71481); (71904, 71913);
   (72016, 72025); (72784, 72793); (73040, 73049); (73120, 73129);
   (92768, 92777); (92864, 92873); (93008, 93017); (120782, 120831);
   (123200, 123209); (123632, 123641); (125264, 125273);
   (130032, 130041)]%N.

(** The code points [c] with [chr(c).isspace()]: what [str.strip()] and
    [str.split()] treat as white space. *)
Definition isspace_table : list (N * N) :=
  [(9, 13); (28, 32); (133, 133); (160, 160); (5760, 5760); (8192, 8202);
   (8232, 8233); (8239, 8239); (8287, 8287); (12288, 12288)]%N.

Definition char_isdigit (c : codepoint) : bool := in_ranges c isdigit_table.
Definition char_isdecimal (c : codepoint) : bool := in_ranges c decimal_runs.
Definition char_isspace (c : codepoint) : bool := in_ranges c isspace_table.

(** [s.isdigit()]: every character is a digit and there is at least one. *)
Definition isdigit (s : pystr) : bool :=
  match s with
  | [] => false
  | _ => forallb char_isdigit s
  end.

(** The value of a decimal digit, as [int()] reads it. *)
Fixpoint digit_value_in (c : codepoint) (t : list (N * N)) : Z :=
  match t with
  | [] => 0
  | (lo, hi) :: t' =>
      if ((lo <=? c) && (c <=? hi))%N then Z.of_N ((c - lo) mod 10)
      else digit_value_in c t'
  end.

Definition digit_value (c : codepoint) : Z := digit_value_in c decimal_runs.

(** [s.lstrip()], [s.rstrip()], [s.strip()] *)
Fixpoint lstrip (s : pystr) : pystr :=
  match s with
  | c :: s' => if char_isspace c then lstrip s' else s
  | [] => []
  end.

Definition rstrip (s : pystr) : pystr := rev (lstrip (rev s)).

Definition strip (s : pystr) : pystr := rstrip (lstrip s).

(* ===================================================================== *)
(** ** Exceptions *)
(* ===================================================================== *)

Inductive exn : Type :=
| ValueError (msg : pystr)
| IndexError (msg : pystr)
| OverflowError (msg : pystr).

Inductive result (A : Type) : Type :=
| Ok (a : A)
| Raise (e : exn).
Arguments Ok {A} a.
Arguments Raise {A} e.

Definition bind {A B} (r : result A) (k : A -> result B) : result B :=
  match r with
  | Ok a => k a
  | Raise e => Raise e
  end.

Notation "x <- r ;; k" := (bind r (fun x => k))
  (at level 61, r at next level, right associativity).

Definition is_ok {A} (r : result A) : bool :=
  match r with Ok _ => true | Raise _ => false end.

(* ===================================================================== *)
(** ** [datetime.date] *)
(* ===================================================================== *)

(** The definitions below follow CPython's [Lib/datetime.py]; the messages
    of the exceptions are those of its C implementation. *)

Definition MINYEAR : Z := 1.
Definition MAXYEAR : Z := 9999.

(** [l[i]] for a list of integers and an index in range. *)
Definition index (l : list Z) (i : Z) : Z := nth (Z.to_nat i) l 0.

Definition _DAYS_IN_MONTH : list Z :=
  [-1; 31; 28; 31; 30; 31; 30; 31; 31; 30; 31; 30; 31].

Definition _DAYS_BEFORE_MONTH : list Z :=
  [-1; 0; 31; 59; 90; 120; 151; 181; 212; 243; 273; 304; 334].

Definition _is_leap (year : Z) : bool :=
  (year mod 4 =? 0) && (negb (year mod 100 =? 0) || (year mod 400 =? 0)).

Definition _days_before_year (year : Z) : Z :=
  let y := year - 1 in
  y * 365 + y / 4 - y / 100 + y / 400.

Definition _days_in_month (year month : Z) : Z :=
  if (month =? 2) && _is_leap year then 29 else index _DAYS_IN_MONTH month.

(** A Python [bool] used as a number. *)
Definition b2z (b : bool) : Z := if b then 1 else 0.

Definition _days_before_month (year month : Z) : Z :=
  index _DAYS_BEFORE_MONTH month + b2z ((2 <? month) && _is_leap year).

Definition _ymd2ord (year month day : Z) : Z :=
  _days_before_year year + _days_before_month year month + day.

Definition _DI400Y : Z := _days_before_year 401.
Definition _DI100Y : Z := _days_before_year 101.
Definition _DI4Y : Z := _days_before_year 5.

Definition _ord2ymd (n0 : Z) : Z * Z * Z :=
  let n := n0 - 1 in
  let n400 := n / _DI400Y in
  let n := n mod _DI400Y in
  let year := n400 * 400 + 1 in
  let n100 := n / _DI100Y in
  let n := n mod _DI100Y in
  let n4 := n / _DI4Y in
  let n := n mod _DI4Y in
  let n1 := n / 365 in
  let n := n mod 365 in
  let year := year + (n100 * 100 + n4 * 4 + n1) in
  if (n1 =? 4) || (n100 =? 4) then (year - 1, 12, 31)
  else
    let leapyear := (n1 =? 3) && (negb (n4 =? 24) || (n100 =? 3)) in
    let month := Z.shiftr (n + 50) 5 in
    let preceding := index _DAYS_BEFORE_MONTH month + b2z ((2 <? month) && leapyear) in
    let '(month, preceding) :=
      if n <? preceding
      then (month - 1,
            preceding - (index _DAYS_IN_MONTH (month - 1)
                         + b2z ((month - 1 =? 2) && leapyear)))
      else (month, preceding) in
    (year, month, n - preceding + 1).

Record date : Type := mkdate { year : Z; month : Z; day : Z }.

(** The dates a [date] object can hold. *)
Definition valid_date (d : date) : bool :=
  (MINYEAR <=? year d) && (year d <=? MAXYEAR)
  && (1 <=? month d) && (month d <=? 12)
  && (1 <=? day d) && (day d <=? _days_in_month (year d) (month d)).

(** [date(year, month, day)]: the constructor checks its fields. *)
Definition date_new (y m d : Z) : result date :=
  if negb ((MINYEAR <=? y) && (y <=? MAXYEAR))
  then Raise (ValueError (lit "year " ++ str_of_int y ++ lit " is out of range"))
  else if negb ((1 <=? m) && (m <=? 12))
  then Raise (ValueError (lit "month must be in 1..12"))
  else if negb ((1 <=? d) && (d <=? _days_in_month y m))
  then Raise (ValueError (lit "day is out of range for month"))
  else Ok (mkdate y m d).

(** [d.replace(year=y)] *)
Definition replace_year (d : date) (y : Z) : result date :=
  date_new y (month d) (day d).

Definition toordinal (d : date) : Z := _ymd2ord (year d) (month d) (day d).

Definition _MAXORDINAL : Z := 3652059.

Definition fromordinal (n : Z) : date :=
  let '(y, m, d) := _ord2ymd n in mkdate y m d.

(** [d.weekday()]: Monday is 0, Sunday is 6. *)
Definition weekday (d : date) : Z := (toordinal d + 6) mod 7.

(** [d + timedelta(days=n)] *)
Definition date_add_days (d : date) (n : Z) : result date :=
  let o := toordinal d + n in
  if (0 <? o) && (o <=? _MAXORDINAL) then Ok (fromordinal o)
  else Raise (OverflowError (lit "date value out of range")).

(** [(a - b).days] *)
Definition days_between (a b : date) : Z := toordinal a - toordinal b.

(** [a < b]: the comparison of the triples (year, month, day). *)
Definition date_ltb (a b : date) : bool :=
  (year a <? year b)
  || ((year a =? year b)
      && ((month a <? month b)
          || ((month a =? month b) && (day a <? day b)))).

Definition pad2 (n : Z) : pystr :=
  if n <? 10 then lit "0" ++ str_of_int n else str_of_int n.

(** [d.strftime("%d.%m.%Y")]: day and month as two digits; the year as the
    C library prints it, which on Linux is the plain decimal number (four
    digits from the year 1000 on). *)
Definition strftime_dmY (d : date) : pystr :=
  pad2 (day d) ++ lit "." ++ pad2 (month d) ++ lit "." ++ str_of_int (year d).

(* ===================================================================== *)
(** ** [datetime.strptime(value, "%d.%m.%Y")] *)
(* ===================================================================== *)

(** [_strptime] turns the format into a regular expression, matches it at
    the start of the data with [re.match], and refuses data that the match
    did not consume.  The expression for this format has no repetition, so
    a backtracking matcher over the following syntax is all of [re] that it
    needs. *)

Inductive group_name : Type := G_d | G_m | G_Y.

Inductive regex : Type :=
| Cls (p : codepoint -> bool)          (* one character of a class *)
| Seq (a b : regex)                    (* [ab] *)
| Alt (a b : regex)                    (* [a|b], [a] tried first *)
| Group (g : group_name) (a : regex).  (* [(?P<g>a)] *)

(** What the three groups captured. *)
Record groups : Type := mkgroups { grp_d : pystr; grp_m : pystr; grp_Y : pystr }.

Definition set_group (g : group_name) (v : pystr) (gs : groups) : groups :=
  match g with
  | G_d => mkgroups v (grp_m gs) (grp_Y gs)
  | G_m => mkgroups (grp_d gs) v (grp_Y gs)
  | G_Y => mkgroups (grp_d gs) (grp_m gs) v
  end.

(** [rmatch r s gs k]: match [r] at the start of [s]; on success go on with
    [k] on the rest of [s]; when [k] fails, try the next alternative. *)
Fixpoint rmatch {A : Type} (r : regex) (s : pystr) (gs : groups)
         (k : pystr -> groups -> option A) : option A :=
  match r with
  | Cls p =>
      match s with
      | c :: s' => if p c then k s' gs else None
      | [] => None
      end
  | Seq a b => rmatch a s gs (fun s' gs' => rmatch b s' gs' k)
  | Alt a b =>
      match rmatch a s gs k with
      | Some x => Some x
      | None => rmatch b s gs k
      end
  | Group g a =>
      rmatch a s gs
        (fun s' gs' => k s' (set_group g (firstn (length s - length s') s) gs'))
  end.

(** [re.match(r, s)]: the groups of the first match and the text after it. *)
Definition re_match (r : regex) (s : pystr) : option (groups * pystr) :=
  rmatch r s (mkgroups [] [] []) (fun rest gs => Some (gs, rest)).

Definition chr_is (a : ascii) : codepoint -> bool := fun c => (c =? N_of_ascii a)%N.
Definition chr_in (a b : ascii) : codepoint -> bool :=
  fun c => ((N_of_ascii a <=? c) && (c <=? N_of_ascii b))%N.

(** [(?P<d>3[0-1]|[1-2]\d|0[1-9]|[1-9]| [1-9])] *)
Definition re_d : regex :=
  Group G_d
    (Alt (Seq (Cls (chr_is "3")) (Cls (chr_in "0" "1")))
    (Alt (Seq (Cls (chr_in "1" "2")) (Cls char_isdecimal))
    (Alt (Seq (Cls (chr_is "0")) (Cls (chr_in "1" "9")))
    (Alt (Cls (chr_in "1" "9"))
         (Seq (Cls (chr_is " ")) (Cls (chr_in "1" "9"))))))).

(** [(?P<m>1[0-2]|0[1-9]|[1-9])] *)
Definition re_m : regex :=
  Group G_m
    (Alt (Seq (Cls (chr_is "1")) (Cls (chr_in "0" "2")))
    (Alt (Seq (Cls (chr_is "0")) (Cls (chr_in "1" "9")))
         (Cls (chr_in "1" "9")))).

(** [(?P<Y>\d\d\d\d)] *)
Definition re_Y : regex :=
  Group G_Y
    (Seq (Cls char_isdecimal) (Seq (Cls char_isdecimal)
    (Seq (Cls char_isdecimal) (Cls char_isdecimal)))).

(** The pattern of ["%d.%m.%Y"]. *)
Definition re_dmY : regex :=
  Seq re_d (Seq (Cls (chr_is ".")) (Seq re_m (Seq (Cls (chr_is ".")) re_Y))).

(** [int(s)] on the text of a group: white space around the number is
    dropped and the decimal digits are read.  (Signs and underscores, which
    no group of the pattern can hold, are not modelled.) *)
Definition digits_value (t : pystr) : Z :=
  fold_left (fun acc c => 10 * acc + digit_value c) t 0.

Definition int_of_str (s : pystr) : result Z :=
  let t := strip s in
  if match t with [] => false | _ => forallb char_isdecimal t end
  then Ok (digits_value t)
  else Raise (ValueError (lit "invalid literal for int() with base 10")).

(** [datetime.strptime(data, "%d.%m.%Y").date()].  The two messages of
    [_strptime] quote the data; the quotation is left out, and the only
    caller replaces the message. *)
Definition strptime_dmY (data : pystr) : result date :=
  match re_match re_dmY data with
  | None => Raise (ValueError (lit "time data does not match format"))
  | Some (gs, rest) =>
      if negb (len data =? len data - len rest)
      then Raise (ValueError (lit "unconverted data remains"))
      else
        y <- int_of_str (grp_Y gs) ;;
        m <- int_of_str (grp_m gs) ;;
        d <- int_of_str (grp_d gs) ;;
        date_new y m d
  end.

(* ===================================================================== *)
(** ** Fields *)
(* ===================================================================== *)

(** [Field] and its subclasses hold one attribute, [value]; a field is
    modelled by its value: a [pystr] for [Name] and [Phone], a [date] for
    [Birthday]. *)

(** [Phone.__init__] *)
Definition Phone (value : pystr) : result pystr :=
  if isdigit value && (len value =? 10) then Ok value
  else Raise (ValueError (lit "Phone must be 10 digits")).

(** [Birthday.__init__] *)
Definition Birthday (value : pystr) : result date :=
  match strptime_dmY value with
  | Ok date_obj => Ok date_obj
  | Raise (ValueError _) => Raise (ValueError (lit "Invalid date format. Use DD.MM.YYYY"))
  | Raise e => Raise e
  end.

(* ===================================================================== *)
(** ** [class Record] *)
(* ===================================================================== *)

(** An object of class [Record].  [phones] holds the values of its [Phone]
    objects in list order: every [Phone] is created inside [add_phone] and
    stored in this one list, so no two positions share an object. *)
Record ContactRecord : Type := mkRecord {
  name : pystr;
  phones : list pystr;
  birthday : option date
}.

(** A method that mutates [self]: the state afterwards and the outcome. *)
Definition method (S A : Type) : Type := S -> S * result A.

(** [Record.__init__] *)
Definition Record_init (nm : pystr) : ContactRecord := mkRecord nm [] None.

Definition set_phones (self : ContactRecord) (ps : list pystr) : ContactRecord :=
  mkRecord (name self) ps (birthday self).

Definition set_birthday (self : ContactRecord) (b : option date) : ContactRecord :=
  mkRecord (name self) (phones self) b.

(** [Record.add_phone] *)
Definition Record_add_phone (phone_string : pystr) : method ContactRecord unit :=
  fun self =>
    match Phone phone_string with
    | Ok phone_obj => (set_phones self (phones self ++ [phone_obj]), Ok tt)
    | Raise e => (self, Raise e)
    end.

(** The loop of [Record.remove_phone].  At the first phone whose value is
    [phone_string], [self.phones.remove(phone)] takes out the first element
    equal to that object; [Field] defines no [__eq__], so that is the
    object itself, where the loop stands; then the loop ends. *)
Fixpoint remove_phone_loop (ps : list pystr) (phone_string : pystr) : list pystr :=
  match ps with
  | [] => []
  | phone :: ps' =>
      if str_eqb phone phone_string then ps'
      else phone :: remove_phone_loop ps' phone_string
  end.

(** [Record.remove_phone] *)
Definition Record_remove_phone (phone_string : pystr) : method ContactRecord unit :=
  fun self => (set_phones self (remove_phone_loop (phones self) phone_string), Ok tt).

(** The loop of [Record.edit_phone] over the list: at the first phone whose
    value is [old_phone] the new phone is constructed, its value stored in
    that place, and the method returns; the end of the list raises. *)
Fixpoint edit_phone_loop (ps : list pystr) (old_phone new_phone : pystr)
  : result (list pystr) :=
  match ps with
  | [] => Raise (ValueError (lit "Old phone not found"))
  | phone :: ps' =>
      if str_eqb phone old_phone
      then v <- Phone new_phone ;; Ok (v :: ps')
      else r <- edit_phone_loop ps' old_phone new_phone ;; Ok (phone :: r)
  end.

(** [Record.edit_phone]: the assignment is the only write, and nothing
    raises after it. *)
Definition Record_edit_phone (old_phone new_phone : pystr) : method ContactRecord unit :=
  fun self =>
    match edit_phone_loop (phones self) old_phone new_phone with
    | Ok ps => (set_phones self ps, Ok tt)
    | Raise e => (self, Raise e)
    end.

(** [Record.find_phone] *)
Definition Record_find_phone (self : ContactRecord) (phone_string : pystr) : option pystr :=
  find (fun phone => str_eqb phone phone_string) (phones self).

(** [Record.add_birthday] *)
Definition Record_add_birthday (birthday_string : pystr) : method ContactRecord unit :=
  fun self =>
    match Birthday birthday_string with
    | Ok birthday_obj => (set_birthday self (Some birthday_obj), Ok tt)
    | Raise e => (self, Raise e)
    end.

(** [Record.show_birthday] *)
Definition Record_show_birthday (self : ContactRecord) : option pystr :=
  match birthday self with
  | Some b => Some (strftime_dmY b)
  | None => None
  end.

(** [x or default] for an optional string: [None] and the empty string are
    false. *)
Definition str_or (x : option pystr) (default : pystr) : pystr :=
  match x with
  | Some (c :: s) => c :: s
  | _ => default
  end.

(** [Record.__str__] *)
Definition Record_str (self : ContactRecord) : pystr :=
  let phones_str := join (lit "; ") (phones self) in
  let bday_str := str_or (Record_show_birthday self) (lit "No birthday set") in
  lit "Contact name: " ++ name self ++ lit ", phones: " ++ phones_str
  ++ lit ", birthday: " ++ bday_str.

(* ===================================================================== *)
(** ** [class AddressBook] *)
(* ===================================================================== *)

(** The [data] of the [UserDict]: a Python [dict], which keeps its keys in
    the order of their first insertion.  The lists built by the operations
    below never hold a key twice. *)
Definition AddressBook : Type := list (pystr * ContactRecord).

Definition empty_book : AddressBook := [].

(** [d.get(key)] *)
Fixpoint dict_get (d : AddressBook) (key : pystr) : option ContactRecord :=
  match d with
  | [] => None
  | (k, v) :: d' => if str_eqb k key then Some v else dict_get d' key
  end.

(** [d[key] = value]: the value of a key that is present is replaced where
    it stands; a new key goes to the end. *)
Fixpoint dict_set (d : AddressBook) (key : pystr) (value : ContactRecord) : AddressBook :=
  match d with
  | [] => [(key, value)]
  | (k, v) :: d' =>
      if str_eqb k key then (k, value) :: d'
      else (k, v) :: dict_set d' key value
  end.

(** [d.pop(key, None)] *)
Fixpoint dict_pop (d : AddressBook) (key : pystr) : AddressBook :=
  match d with
  | [] => []
  | (k, v) :: d' => if str_eqb k key then d' else (k, v) :: dict_pop d' key
  end.

(** [d.values()] *)
Definition dict_values (d : AddressBook) : list ContactRecord := map snd d.

(** [AddressBook.add_record] *)
Definition AddressBook_add_record (self : AddressBook) (record : ContactRecord) : AddressBook :=
  dict_set self (name record) record.

(** [AddressBook.find] *)
Definition AddressBook_find (self : AddressBook) (nm : pystr) : option ContactRecord :=
  dict_get self nm.

(** [AddressBook.delete] *)
Definition AddressBook_delete (self : AddressBook) (nm : pystr) : AddressBook :=
  dict_pop self nm.

(** [AddressBook.find_next_weekday] *)
Definition find_next_weekday (start_date : date) (wd : Z) : result date :=
  let days_ahead := wd - weekday start_date in
  let days_ahead := if days_ahead <=? 0 then days_ahead + 7 else days_ahead in
  date_add_days start_date days_ahead.

(** [AddressBook.adjust_for_weekend] *)
Definition adjust_for_weekend (b : date) : result date :=
  if 5 <=? weekday b then find_next_weekday b 0 else Ok b.

(** An element of the list [get_upcoming_birthdays] returns. *)
Record entry : Type := mkentry { entry_name : pystr; congratulation_date : pystr }.

(** The projection of a birthday on the year of [today], or on the next
    year when that date is before [today]: the first two statements of the
    loop body of [get_upcoming_birthdays]. *)
Definition birthday_this_year (today b : date) : result date :=
  this_year <- replace_year b (year today) ;;
  if date_ltb this_year today then replace_year b (year today + 1)
  else Ok this_year.

(** The body of the loop of [get_upcoming_birthdays] for one record: the
    entry it appends, if any. *)
Definition upcoming_entry (today : date) (days : Z) (record : ContactRecord)
  : result (option entry) :=
  match birthday record with
  | None => Ok None
  | Some b =>
      this_year <- birthday_this_year today b ;;
      let delta := days_between this_year today in
      if (0 <=? delta) && (delta <=? days) then
        congratulation <- adjust_for_weekend this_year ;;
        Ok (Some (mkentry (name record) (strftime_dmY congratulation)))
      else Ok None
  end.

(** The loop of [get_upcoming_birthdays] over [self.data.values()]; an
    exception in the body ends the call. *)
Fixpoint upcoming_loop (today : date) (days : Z) (records : list ContactRecord)
         (upcoming_birthdays : list entry) : result (list entry) :=
  match records with
  | [] => Ok upcoming_birthdays
  | record :: records' =>
      e <- upcoming_entry today days record ;;
      upcoming_loop today days records'
        (match e with
         | Some x => upcoming_birthdays ++ [x]
         | None => upcoming_birthdays
         end)
  end.

(** [AddressBook.get_upcoming_birthdays] *)
Definition get_upcoming_birthdays (self : AddressBook) (today : date) (days : Z)
  : result (list entry) :=
  upcoming_loop today days (dict_values self) [].

(** [AddressBook.__str__] *)
Definition AddressBook_str (self : AddressBook) : pystr :=
  join (lit (String "010" EmptyString)) (map Record_str (dict_values self)).

(* ===================================================================== *)
(** ** The command handlers *)
(* ===================================================================== *)

(** The wrapper that [input_error] puts around a handler: an exception
    becomes the string returned.  What the handler wrote to the book before
    it raised stays written. *)
Definition input_error {S : Type} (func : method S pystr) : S -> S * pystr :=
  fun s =>
    let '(s', r) := func s in
    (s', match r with
         | Ok v => v
         | Raise (ValueError ve) => lit "Error: " ++ ve
         | Raise (IndexError _) => lit "Error: missing arguments"
         | Raise (OverflowError e) => lit "Unexpected error: " ++ e
         end).

(** What [a, b, *_ = args] raises on a list that is too short. *)
Definition unpack_error (expected : Z) (args : list pystr) : exn :=
  ValueError (lit "not enough values to unpack (expected at least "
              ++ str_of_int expected ++ lit ", got " ++ str_of_int (len args) ++ lit ")").

(** A handler holds the very object the book stores under [key]: a write
    to the record is a write to the book's entry, where it stands. *)
Fixpoint write_back (book : AddressBook) (key : pystr) (record : ContactRecord)
  : AddressBook :=
  match book with
  | [] => []
  | (k, v) :: book' =>
      if str_eqb k key then (k, record) :: book'
      else (k, v) :: write_back book' key record
  end.

(** The truth value of a string. *)
Definition str_bool (s : pystr) : bool :=
  match s with [] => false | _ => true end.

(** [add_birthday] before decoration *)
Definition add_birthday_func (args : list pystr) : method AddressBook pystr :=
  fun book =>
    match args with
    | nm :: birthday_str :: _ =>
        match AddressBook_find book nm with
        | None => (book, Ok (lit "Contact " ++ nm ++ lit " not found"))
        | Some record =>
            let '(record', r) := Record_add_birthday birthday_str record in
            (write_back book nm record',
             _ <- r ;; Ok (lit "Birthday added for " ++ nm))
        end
    | _ => (book, Raise (unpack_error 2 args))
    end.

Definition add_birthday (args : list pystr) : AddressBook -> AddressBook * pystr :=
  input_error (add_birthday_func args).

(** [show_birthday] before decoration *)
Definition show_birthday_func (args : list pystr) : method AddressBook pystr :=
  fun book =>
    match args with
    | nm :: _ =>
        match AddressBook_find book nm with
        | None => (book, Ok (lit "Contact " ++ nm ++ lit " not found"))
        | Some record =>
            match Record_show_birthday record with
            | Some (c :: s) => (book, Ok (nm ++ lit "'s birthday: " ++ c :: s))
            | _ => (book, Ok (nm ++ lit " has no birthday set"))
            end
        end
    | _ => (book, Raise (unpack_error 1 args))
    end.

Definition show_birthday (args : list pystr) : AddressBook -> AddressBook * pystr :=
  input_error (show_birthday_func args).

(** [birthdays] before decoration *)
Definition birthdays_func (today : date) (args : list pystr) : method AddressBook pystr :=
  fun book =>
    match get_upcoming_birthdays book today 7 with
    | Raise e => (book, Raise e)
    | Ok [] => (book, Ok (lit "No upcoming birthdays"))
    | Ok upcoming =>
        (book,
         Ok (join (lit (String "010" EmptyString))
               (map (fun e => entry_name e ++ lit ": " ++ congratulation_date e)
                    upcoming)))
    end.

Definition birthdays (today : date) (args : list pystr) : AddressBook -> AddressBook * pystr :=
  input_error (birthdays_func today args).

(** [add_contact] before decoration *)
Definition add_contact_func (args : list pystr) : method AddressBook pystr :=
  fun book =>
    match args with
    | nm :: phone :: _ =>
        let '(record, book, message) :=
          match AddressBook_find book nm with
          | Some record => (record, book, lit "Contact updated.")
          | None =>
              let record := Record_init nm in
              (record, AddressBook_add_record book record, lit "Contact added.")
          end in
        if str_bool phone then
          let '(record', r) := Record_add_phone phone record in
          (write_back book nm record', _ <- r ;; Ok message)
        else (book, Ok message)
    | _ => (book, Raise (unpack_error 2 args))
    end.

Definition add_contact (args : list pystr) : AddressBook -> AddressBook * pystr :=
  input_error (add_contact_func args).

(** [change_contact] before decoration *)
Definition change_contact_func (args : list pystr) : method AddressBook pystr :=
  fun book =>
    match args with
    | nm :: old_phone :: new_phone :: _ =>
        match AddressBook_find book nm with
        | None => (book, Ok (lit "Contact " ++ nm ++ lit " not found"))
        | Some record =>
            let '(record', r) := Record_edit_phone old_phone new_phone record in
            (write_back book nm record', _ <- r ;; Ok (lit "Phone updated"))
        end
    | _ => (book, Raise (unpack_error 3 args))
    end.

Definition change_contact (args : list pystr) : AddressBook -> AddressBook * pystr :=
  input_error (change_contact_func args).

(** [show_phone] before decoration *)
Definition show_phone_func (args : list pystr) : method AddressBook pystr :=
  fun book =>
    match args with
    | nm :: _ =>
        match AddressBook_find book nm with
        | None => (book, Ok (lit "Contact " ++ nm ++ lit " not found"))
        | Some record =>
            let phones_str := join (lit "; ") (phones record) in
            (book,
             Ok (if str_bool phones_str then nm ++ lit "'s phones: " ++ phones_str
                 else nm ++ lit " has no phones"))
        end
    | _ => (book, Raise (unpack_error 1 args))
    end.

Definition show_phone (args : list pystr) : AddressBook -> AddressBook * pystr :=
  input_error (show_phone_func args).

(* ===================================================================== *)
(** ** The command loop *)
(* ===================================================================== *)

(** The loop of [s.split()]: [cur] is the word being read, latest character
    first. *)
Fixpoint split_loop (s : pystr) (cur : pystr) : list pystr :=
  match s with
  | [] => match cur with [] => [] | _ => [rev cur] end
  | c :: s' =>
      if char_isspace c
      then match cur with
           | [] => split_loop s' []
           | _ => rev cur :: split_loop s' []
           end
      else split_loop s' (c :: cur)
  end.

(** [s.split()]: the words of [s] between runs of white space. *)
Definition split (s : pystr) : list pystr := split_loop s [].

Section CommandLoop.

(** [str.lower], the case mapping of the Unicode database, is not part of
    the program and is taken as given. *)
Variable lower : pystr -> pystr.

(** [parse_input]: the command and the list of its arguments. *)
Definition parse_input (user_input : pystr) : pystr * list pystr :=
  let parts := split (strip user_input) in
  let command := match parts with p :: _ => lower p | [] => [] end in
  let args := if 1 <? len parts then tl parts else [] in
  (command, args).

(** One turn of the loop of [main] after the line is read: the book
    afterwards, the text printed, and whether the loop goes on. *)
Definition main_step (today : date) (book : AddressBook) (user_input : pystr)
  : AddressBook * pystr * bool :=
  let '(command, args) := parse_input user_input in
  if str_eqb command (lit "close") || str_eqb command (lit "exit")
  then (book, lit "Good bye!", false)
  else if str_eqb command (lit "hello") then (book, lit "How can I help you?", true)
  else if str_eqb command (lit "add") then (add_contact args book, true)
  else if str_eqb command (lit "change") then (change_contact args book, true)
  else if str_eqb command (lit "phone") then (show_phone args book, true)
  else if str_eqb command (lit "all") then (book, AddressBook_str book, true)
  else if str_eqb command (lit "add-birthday") then (add_birthday args book, true)
  else if str_eqb command (lit "show-birthday") then (show_birthday args book, true)
  else if str_eqb command (lit "birthdays") then (birthdays today args book, true)
  else (book, lit "Invalid command.", true).

End CommandLoop.

(* ===================================================================== *)
(** ** Definitions used in the statements and proofs *)
(* ===================================================================== *)

(** *** The calendar *)

(** The month search of [_ord2ymd], by itself. *)
Definition month_search (n : Z) (leapyear : bool) : Z * Z :=
  let month := Z.shiftr (n + 50) 5 in
  let preceding := index _DAYS_BEFORE_MONTH month + b2z ((2 <? month) && leapyear) in
  if n <? preceding
  then (month - 1,
        preceding - (index _DAYS_IN_MONTH (month - 1)
                     + b2z ((month - 1 =? 2) && leapyear)))
  else (month, preceding).

Definition month_search_ok (leapyear : bool) (n : Z) : bool :=
  let '(m, p) := month_search n leapyear in
  (1 <=? m) && (m <=? 12)
  && (p =? index _DAYS_BEFORE_MONTH m + b2z ((2 <? m) && leapyear))
  && (p <=? n)
  && (n - p <? (if (m =? 2) && leapyear then 29 else index _DAYS_IN_MONTH m)).

(** Month and day of a date in range for its year. *)
Definition valid_md (d : date) : Prop :=
  1 <= month d <= 12 /\ 1 <= day d <= _days_in_month (year d) (month d).

(** *** Upcoming birthdays, as the specification words them *)

(** The birthday [b] with its year replaced by [y], as a triple. *)
Definition projected (b : date) (y : Z) : date := mkdate y (month b) (day b).

(** The specification's [thisYear]: the projection on the year of the
    reference date, moved to the next year exactly when that projection is
    strictly earlier than the reference date. *)
Definition this_year_spec (today b : date) : date :=
  if date_ltb (projected b (year today)) today
  then projected b (year today + 1)
  else projected b (year today).

(** [thisYear] exists: the projections the rule goes through are dates. *)
Definition projection_defined (today b : date) : bool :=
  valid_date (projected b (year today)) && valid_date (this_year_spec today b).

(** The specification's test for a record: it has a birthday and
    [0 <= delta <= windowDays], [delta] the days from the reference date to
    [thisYear]. *)
Definition in_window (today : date) (windowDays : Z) (record : ContactRecord) : bool :=
  match birthday record with
  | None => false
  | Some b =>
      let delta := days_between (this_year_spec today b) today in
      (0 <=? delta) && (delta <=? windowDays)
  end.

(** *** Example data *)

Definition example_record (nm : string) (ps : list string) (b : option date) : ContactRecord :=
  mkRecord (lit nm) (map lit ps) b.

(** Three contacts born on 03.01.1990, 06.01.1990 and 25.12.1990. *)
Definition example_book : AddressBook :=
  [(lit "Ann", example_record "Ann" ["1111111111"%string] (Some (mkdate 1990 1 3)));
   (lit "Bob", example_record "Bob" [] (Some (mkdate 1990 1 6)));
   (lit "Cid", example_record "Cid" [] (Some (mkdate 1990 12 25)));
   (lit "Dan", example_record "Dan" ["2222222222"%string] None)].

(** A contact born on 29.02.2020. *)
Definition leap_book : AddressBook :=
  [(lit "Eve", example_record "Eve" [] (Some (mkdate 2020 2 29)))].

(** A contact born on 29.02.2020 and one born on 26.02.1990. *)
Definition mixed_book : AddressBook :=
  [(lit "Eve", example_record "Eve" [] (Some (mkdate 2020 2 29)));
   (lit "Ann", example_record "Ann" [] (Some (mkdate 1990 2 26)))].

(** The characters ['0'] to ['9']. *)
Definition ascii_digit (c : codepoint) : bool := ((48 <=? c) && (c <=? 57))%N.

(** Ten Arabic-Indic digits, U+0660 to U+0669. *)
Definition arabic_indic_phone : pystr :=
  [1632; 1633; 1634; 1635; 1636; 1637; 1638; 1639; 1640; 1641]%N.

(** *** Sequences of operations on a book *)

(** The operations of a record; the last three only read it. *)
Inductive record_op : Type :=
| OpAddPhone (raw : pystr)
| OpRemovePhone (raw : pystr)
| OpEditPhone (old_raw new_raw : pystr)
| OpFindPhone (raw : pystr)
| OpAddBirthday (raw : pystr)
| OpShowBirthday
| OpStr.

Definition run_record_op (op : record_op) : method ContactRecord unit :=
  match op with
  | OpAddPhone raw => Record_add_phone raw
  | OpRemovePhone raw => Record_remove_phone raw
  | OpEditPhone old_raw new_raw => Record_edit_phone old_raw new_raw
  | OpAddBirthday raw => Record_add_birthday raw
  | OpFindPhone _ | OpShowBirthday | OpStr => fun self => (self, Ok tt)
  end.

(** What a caller can do to a book: add a record, look one up, delete one,
    and apply an operation to the record a lookup returned, which is the
    object the book holds.  (An operation on a record that is not, or no
    longer, in the book does not touch the book.) *)
Inductive book_op : Type :=
| OpAddRecord (record : ContactRecord)
| OpFind (nm : pystr)
| OpDelete (nm : pystr)
| OpOnRecord (nm : pystr) (op : record_op).

Definition run_book_op (book : AddressBook) (op : book_op) : AddressBook :=
  match op with
  | OpAddRecord record => AddressBook_add_record book record
  | OpFind _ => book
  | OpDelete nm => AddressBook_delete book nm
  | OpOnRecord nm rop =>
      match AddressBook_find book nm with
      | Some record => write_back book nm (fst (run_record_op rop record))
      | None => book
      end
  end.

(** The books that sequences of operations build from the empty one. *)
Definition reachable (book : AddressBook) : Prop :=
  exists ops, book = fold_left run_book_op ops empty_book.

(** The invariant of the directory: every record is stored under its own
    name, and no name is stored twice. *)
Definition book_invariant (book : AddressBook) : Prop :=
  (forall key record, In (key, record) book -> name record = key)
  /\ NoDup (map fst book).

(** *** The pattern of [strptime] *)

(** The words of a regular expression, and the groups a match sets. *)
Fixpoint lang (r : regex) (p : pystr) : Prop :=
  match r with
  | Cls c => exists x, p = [x] /\ c x = true
  | Seq a b => exists u v, p = u ++ v /\ lang a u /\ lang b v
  | Alt a b => lang a p \/ lang b p
  | Group _ a => lang a p
  end.

Fixpoint matches (r : regex) (p : pystr) (gs gs' : groups) : Prop :=
  match r with
  | Cls c => (exists x, p = [x] /\ c x = true) /\ gs' = gs
  | Seq a b => exists u v gs1, p = u ++ v /\ matches a u gs gs1 /\ matches b v gs1 gs'
  | Alt a b => matches a p gs gs' \/ matches b p gs gs'
  | Group g a => exists gs1, matches a p gs gs1 /\ gs' = set_group g p gs1
  end.

(** The texts the three groups of the pattern can hold. *)
Definition is_day_token (t : pystr) : bool :=
  match t with
  | [a] => chr_in "1" "9" a
  | [a; b] =>
      (chr_is "3" a && chr_in "0" "1" b)
      || (chr_in "1" "2" a && char_isdecimal b)
      || (chr_is "0" a && chr_in "1" "9" b)
      || (chr_is " " a && chr_in "1" "9" b)
  | _ => false
  end.

Definition is_month_token (t : pystr) : bool :=
  match t with
  | [a] => chr_in "1" "9" a
  | [a; b] =>
      (chr_is "1" a && chr_in "0" "2" b) || (chr_is "0" a && chr_in "1" "9" b)
  | _ => false
  end.

Definition is_year_token (t : pystr) : bool :=
  match t with
  | [a; b; c; d] =>
      char_isdecimal a && char_isdecimal b && char_isdecimal c && char_isdecimal d
  | _ => false
  end.

(** The number a group stands for. *)
Definition token_value (t : pystr) : Z := digits_value (strip t).

(** The date a string in the layout [DD.MM.YYYY] names. *)
Definition layout_date (s : pystr) : date :=
  mkdate (token_value (firstn 4 (skipn 6 s)))
         (token_value (firstn 2 (skipn 3 s)))
         (token_value (firstn 2 s)).

(** The layout [DD.MM.YYYY] with ASCII digits. *)
Definition layout_DD_MM_YYYY (s : pystr) : bool :=
  match s with
  | [d1; d2; p1; m1; m2; p2; y1; y2; y3; y4] =>
      forallb ascii_digit [d1; d2; m1; m2; y1; y2; y3; y4]
      && chr_is "." p1 && chr_is "." p2
  | _ => false
  end.


(** The rendering of a year from 1000 on: four ASCII digits that read as
    the year. *)
Definition year_text_ok (y : Z) : bool :=
  (y <? 1000)
  || match str_of_int y with
     | [a; b; c; d] => forallb ascii_digit [a; b; c; d] && (token_value [a; b; c; d] =? y)
     | _ => false
     end.

(** The rendering of a day or a month: two ASCII digits that read as the
    number. *)
Definition pad2_ok (n : Z) : bool :=
  match pad2 n with
  | [a; b] => ascii_digit a && ascii_digit b && (token_value [a; b] =? n)
  | _ => false
  end.


(** The six decorated functions. *)
Inductive handler : Type :=
| H_add_contact | H_change_contact | H_show_phone
| H_add_birthday | H_show_birthday | H_birthdays.

(** The function a handler wraps. *)
Definition handler_func (today : date) (h : handler)
  : list pystr -> method AddressBook pystr :=
  match h with
  | H_add_contact => add_contact_func
  | H_change_contact => change_contact_func
  | H_show_phone => show_phone_func
  | H_add_birthday => add_birthday_func
  | H_show_birthday => show_birthday_func
  | H_birthdays => birthdays_func today
  end.

(** The handler as [main] calls it. *)
Definition run_handler (today : date) (h : handler) (args : list pystr)
  : AddressBook -> AddressBook * pystr :=
  match h with
  | H_add_contact => add_contact args
  | H_change_contact => change_contact args
  | H_show_phone => show_phone args
  | H_add_birthday => add_birthday args
  | H_show_birthday => show_birthday args
  | H_birthdays => birthdays today args
  end.

(** The number of arguments a handler unpacks. *)
Definition handler_arity (h : handler) : Z :=
  match h with
  | H_add_contact => 2
  | H_change_contact => 3
  | H_show_phone => 1
  | H_add_birthday => 2
  | H_show_birthday => 1
  | H_birthdays => 0
  end.


(** A word: not empty and without white space. *)
Definition is_word (w : pystr) : bool := str_bool w && negb (existsb char_isspace w).

(** What the program writes: a line it prints, or the prompt of [input]. *)
Inductive output : Type :=
| Printed (s : pystr)
| Prompted (s : pystr).

(** The command of a line ends the loop. *)
Definition is_exit (lower : pystr -> pystr) (line : pystr) : bool :=
  let command := fst (parse_input lower line) in
  str_eqb command (lit "close") || str_eqb command (lit "exit").

(** The loop of [main] on the lines [input] returns, each with the date of
    the day it is handled: what is written, the book at the end, and
    whether the loop was left by [break].  When the lines run out, [input]
    raises [EOFError] after its prompt, and nothing catches it. *)
Fixpoint main_loop (lower : pystr -> pystr) (inputs : list (date * pystr))
         (book : AddressBook) : list output * AddressBook * bool :=
  match inputs with
  | [] => ([Prompted (lit "Enter a command: ")], book, false)
  | (today, user_input) :: inputs' =>
      let '(book', printed, continue) := main_step lower today book user_input in
      if continue then
        let '(outs, final, exited) := main_loop lower inputs' book' in
        (Prompted (lit "Enter a command: ") :: Printed printed :: outs, final, exited)
      else ([Prompted (lit "Enter a command: "); Printed printed], book', true)
  end.

(** [main] *)
Definition main (lower : pystr -> pystr) (inputs : list (date * pystr))
  : list output * AddressBook * bool :=
  let '(outs, final, exited) := main_loop lower inputs empty_book in
  (Printed (lit "Welcome to the assistant bot!") :: outs, final, exited).

(** The arguments of the calls of [print], in order, without the prompts.
    One argument may hold several lines: [print(book)] and [birthdays]
    print a text joined with newlines. *)
Definition printed_texts (outs : list output) : list pystr :=
  flat_map (fun o => match o with Printed s => [s] | Prompted _ => [] end) outs.


(** The date of congratulation for a date: the Monday after a Saturday or a
    Sunday, the date itself on any other day. *)
Definition congratulation_of (d : date) : date :=
  if 5 <=? weekday d then fromordinal (toordinal d + (7 - weekday d)) else d.

(** The entry of a record with a birthday. *)
Definition entry_of (today : date) (record : ContactRecord) : entry :=
  match birthday record with
  | Some b =>
      mkentry (name record) (strftime_dmY (congratulation_of (this_year_spec today b)))
  | None => mkentry (name record) []
  end.

(** The line [birthdays] prints for an entry. *)
Definition entry_line (e : entry) : pystr :=
  entry_name e ++ lit ": " ++ congratulation_date e.

(* ===================================================================== *)
(** * Properties *)
(* ===================================================================== *)

(** ** The calendar *)

Lemma DI_values : _DI400Y = 146097 /\ _DI100Y = 36524 /\ _DI4Y = 1461.
Proof. repeat split; reflexivity. Qed.

Lemma is_leap_spec y :
  _is_leap y = true <-> (y mod 4 = 0 /\ (y mod 100 <> 0 \/ y mod 400 = 0)).
Proof.
  unfold _is_leap.
  rewrite andb_true_iff, orb_true_iff, negb_true_iff, !Z.eqb_eq, Z.eqb_neq.
  tauto.
Qed.

Lemma days_before_year_succ y :
  _days_before_year (y + 1) = _days_before_year y + 365 + b2z (_is_leap y).
Proof.
  unfold _days_before_year, b2z.
  destruct (_is_leap y) eqn:E.
  - apply is_leap_spec in E. Z.div_mod_to_equations; lia.
  - assert (H : ~ (y mod 4 = 0 /\ (y mod 100 <> 0 \/ y mod 400 = 0))).
    { rewrite <- is_leap_spec. congruence. }
    Z.div_mod_to_equations; lia.
Qed.

Lemma range_forallb (P : Z -> bool) (hi : nat) :
  forallb (fun i => P (Z.of_nat i)) (seq 0 hi) = true ->
  forall z, 0 <= z < Z.of_nat hi -> P z = true.
Proof.
  intros H z Hz.
  rewrite forallb_forall in H.
  rewrite <- (Z2Nat.id z) by lia.
  apply H, in_seq. lia.
Qed.

Lemma month_search_correct leapyear n :
  0 <= n < 365 + b2z leapyear -> month_search_ok leapyear n = true.
Proof.
  intros H. destruct leapyear; simpl in H.
  - apply (range_forallb (month_search_ok true) 366); [vm_compute; reflexivity | lia].
  - apply (range_forallb (month_search_ok false) 365); [vm_compute; reflexivity | lia].
Qed.

Lemma ord2ymd_unfold n0 :
  _ord2ymd n0 =
  let n := n0 - 1 in
  let n400 := n / 146097 in
  let n := n mod 146097 in
  let n100 := n / 36524 in
  let n := n mod 36524 in
  let n4 := n / 1461 in
  let n := n mod 1461 in
  let n1 := n / 365 in
  let n := n mod 365 in
  let year := n400 * 400 + 1 + (n100 * 100 + n4 * 4 + n1) in
  if (n1 =? 4) || (n100 =? 4) then (year - 1, 12, 31)
  else
    let leapyear := (n1 =? 3) && (negb (n4 =? 24) || (n100 =? 3)) in
    let '(m, p) := month_search n leapyear in
    (year, m, n - p + 1).
Proof.
  unfold _ord2ymd, month_search. cbv zeta.
  change _DI400Y with 146097. change _DI100Y with 36524. change _DI4Y with 1461.
  destruct ((_ =? 4) || _); [reflexivity|].
  destruct (_ <? _); reflexivity.
Qed.

Lemma valid_date_spec d :
  valid_date d = true <-> (1 <= year d <= 9999 /\ valid_md d).
Proof.
  unfold valid_date, valid_md, MINYEAR, MAXYEAR.
  rewrite !andb_true_iff, !Z.leb_le. tauto.
Qed.

Ltac month_cases m :=
  let H := fresh in
  assert (H : m = 1 \/ m = 2 \/ m = 3 \/ m = 4 \/ m = 5 \/ m = 6 \/ m = 7
              \/ m = 8 \/ m = 9 \/ m = 10 \/ m = 11 \/ m = 12) by lia;
  repeat (destruct H as [H | H]); subst m.

Ltac eval_index :=
  repeat match goal with
    | |- context [index ?l ?k] =>
        let v := eval vm_compute in (index l k) in change (index l k) with v
    | H : context [index ?l ?k] |- _ =>
        let v := eval vm_compute in (index l k) in change (index l k) with v in H
    end.

Ltac eval_bool :=
  cbn [andb orb negb b2z Z.ltb Z.leb Z.eqb Z.compare Pos.compare Pos.compare_cont Pos.eqb] in *.

Lemma day_of_year_bounds y m d :
  1 <= m <= 12 -> 1 <= d <= _days_in_month y m ->
  1 <= _days_before_month y m + d <= 365 + b2z (_is_leap y).
Proof.
  intros Hm Hd. unfold _days_before_month, _days_in_month in *.
  month_cases m; eval_index; destruct (_is_leap y); eval_bool; lia.
Qed.

Lemma leap_of_cycles q400 n100 n4 n1 :
  0 <= n100 < 4 -> 0 <= n4 < 25 -> 0 <= n1 < 4 ->
  _is_leap (q400 * 400 + 1 + (n100 * 100 + n4 * 4 + n1))
  = (n1 =? 3) && (negb (n4 =? 24) || (n100 =? 3)).
Proof.
  intros H100 H4 H1.
  destruct (_is_leap _) eqn:E.
  - apply is_leap_spec in E. symmetry.
    rewrite andb_true_iff, orb_true_iff, negb_true_iff, !Z.eqb_eq, Z.eqb_neq.
    Z.div_mod_to_equations; lia.
  - destruct ((n1 =? 3) && _) eqn:E'; [|reflexivity].
    rewrite andb_true_iff, orb_true_iff, negb_true_iff, !Z.eqb_eq, Z.eqb_neq in E'.
    rewrite <- E. apply is_leap_spec.
    Z.div_mod_to_equations; lia.
Qed.

Lemma fromordinal_spec n :
  1 <= n -> toordinal (fromordinal n) = n /\ valid_md (fromordinal n).
Proof.
  intros Hn. unfold fromordinal. rewrite ord2ymd_unfold. cbv zeta.
  set (q400 := (n - 1) / 146097).
  set (r400 := (n - 1) mod 146097).
  set (n100 := r400 / 36524). set (r100 := r400 mod 36524).
  set (n4 := r100 / 1461). set (r4 := r100 mod 1461).
  set (n1 := r4 / 365). set (r1 := r4 mod 365).
  assert (E400 : n - 1 = 146097 * q400 + r400 /\ 0 <= r400 < 146097)
    by (subst q400 r400; Z.div_mod_to_equations; lia).
  assert (E100 : r400 = 36524 * n100 + r100 /\ 0 <= r100 < 36524)
    by (subst n100 r100; Z.div_mod_to_equations; lia).
  assert (E4 : r100 = 1461 * n4 + r4 /\ 0 <= r4 < 1461)
    by (subst n4 r4; Z.div_mod_to_equations; lia).
  assert (E1 : r4 = 365 * n1 + r1 /\ 0 <= r1 < 365)
    by (subst n1 r1; Z.div_mod_to_equations; lia).
  clearbody q400 r400 n100 r100 n4 r4 n1 r1.
  destruct ((n1 =? 4) || (n100 =? 4)) eqn:Edge.
  - apply orb_true_iff in Edge. rewrite !Z.eqb_eq in Edge.
    unfold valid_md, toordinal, _ymd2ord, _days_before_month, _days_in_month.
    cbn [year month day].
    set (y := q400 * 400 + 1 + (n100 * 100 + n4 * 4 + n1) - 1).
    assert (L : _is_leap y = true).
    { apply is_leap_spec. subst y. Z.div_mod_to_equations. lia. }
    rewrite L. eval_index. eval_bool. unfold _days_before_year. subst y.
    split; [Z.div_mod_to_equations; lia | lia].
  - apply orb_false_iff in Edge. rewrite !Z.eqb_neq in Edge.
    rewrite <- (leap_of_cycles q400) by lia.
    set (y := q400 * 400 + 1 + (n100 * 100 + n4 * 4 + n1)).
    pose proof (month_search_correct (_is_leap y) r1) as M.
    unfold month_search_ok in M.
    destruct (month_search r1 (_is_leap y)) as [m p].
    rewrite !andb_true_iff, !Z.leb_le, Z.eqb_eq, Z.ltb_lt in M.
    destruct M as [[[[M1 M2] M3] M4] M5]; [destruct (_is_leap y); simpl; lia|].
    unfold valid_md, toordinal, _ymd2ord, _days_before_month, _days_in_month.
    cbn [year month day]. rewrite <- M3.
    split; [|lia].
    unfold _days_before_year. subst y. Z.div_mod_to_equations; lia.
Qed.

Lemma toordinal_year_bounds d :
  valid_md d ->
  _days_before_year (year d) < toordinal d <= _days_before_year (year d + 1).
Proof.
  intros [Hm Hd]. pose proof (day_of_year_bounds _ _ _ Hm Hd).
  rewrite days_before_year_succ. unfold toordinal, _ymd2ord. lia.
Qed.

Lemma days_before_year_mono y y' :
  y <= y' -> _days_before_year y <= _days_before_year y'.
Proof. unfold _days_before_year. intros. Z.div_mod_to_equations. lia. Qed.

Lemma toordinal_inj d d' :
  valid_md d -> valid_md d' -> toordinal d = toordinal d' -> d = d'.
Proof.
  intros V V' E.
  pose proof (toordinal_year_bounds d V) as B.
  pose proof (toordinal_year_bounds d' V') as B'.
  assert (Y : year d = year d').
  { destruct (Z.lt_trichotomy (year d) (year d')) as [Hl | [He | Hg]]; [|exact He|].
    - pose proof (days_before_year_mono (year d + 1) (year d')). lia.
    - pose proof (days_before_year_mono (year d' + 1) (year d)). lia. }
  destruct d as [y m dd], d' as [y' m' dd']. simpl in *. subst y'.
  unfold toordinal, _ymd2ord in E. simpl in E.
  destruct V as [Hm Hd], V' as [Hm' Hd']. simpl in *.
  unfold _days_before_month, _days_in_month in *.
  assert (m = m' /\ dd = dd') as [-> ->]; [|reflexivity].
  destruct (_is_leap y);
    month_cases m; eval_index; eval_bool; month_cases m'; eval_index; eval_bool; lia.
Qed.

Lemma toordinal_fromordinal n : 1 <= n -> toordinal (fromordinal n) = n.
Proof. intros H. apply fromordinal_spec, H. Qed.

Lemma valid_date_ordinal d :
  valid_date d = true -> 1 <= toordinal d <= _MAXORDINAL.
Proof.
  intros V. apply valid_date_spec in V. destruct V as [Y V].
  pose proof (toordinal_year_bounds d V) as B.
  pose proof (days_before_year_mono 1 (year d)).
  pose proof (days_before_year_mono (year d + 1) 10000).
  change (_days_before_year 1) with 0 in *.
  change (_days_before_year 10000) with 3652059 in *.
  unfold _MAXORDINAL. lia.
Qed.

Lemma fromordinal_valid n :
  1 <= n <= _MAXORDINAL -> valid_date (fromordinal n) = true.
Proof.
  intros Hn. destruct (fromordinal_spec n) as [T V]; [lia|].
  apply valid_date_spec. split; [|exact V].
  pose proof (toordinal_year_bounds _ V) as B. rewrite T in B.
  destruct (Z_le_gt_dec (year (fromordinal n)) 0) as [Hl|Hl].
  { pose proof (days_before_year_mono (year (fromordinal n) + 1) 1 ltac:(lia)).
    change (_days_before_year 1) with 0 in *. lia. }
  destruct (Z_le_gt_dec 10000 (year (fromordinal n))) as [Hg|Hg].
  { pose proof (days_before_year_mono 10000 (year (fromordinal n)) Hg).
    change (_days_before_year 10000) with 3652059 in *. unfold _MAXORDINAL in *. lia. }
  lia.
Qed.

Lemma fromordinal_toordinal d :
  valid_date d = true -> fromordinal (toordinal d) = d.
Proof.
  intros V. pose proof (valid_date_ordinal d V) as B.
  apply valid_date_spec in V. destruct V as [_ V].
  destruct (fromordinal_spec (toordinal d)) as [T V']; [lia|].
  apply toordinal_inj; assumption.
Qed.

(** ** Weekdays and the shift to Monday *)

Lemma weekday_range d : 0 <= weekday d < 7.
Proof. unfold weekday. apply Z.mod_pos_bound. lia. Qed.

Lemma date_add_days_ok d k r :
  date_add_days d k = Ok r ->
  toordinal r = toordinal d + k /\ valid_date r = true.
Proof.
  unfold date_add_days.
  destruct ((0 <? toordinal d + k) && (toordinal d + k <=? _MAXORDINAL)) eqn:E;
    [|discriminate].
  apply andb_true_iff in E. rewrite Z.ltb_lt, Z.leb_le in E.
  intros [= <-]. split.
  - apply toordinal_fromordinal. lia.
  - apply fromordinal_valid. lia.
Qed.

Lemma weekday_add_days d k r :
  date_add_days d k = Ok r -> weekday r = (weekday d + k) mod 7.
Proof.
  intros H. apply date_add_days_ok in H. destruct H as [H _].
  unfold weekday. rewrite H.
  rewrite Z.add_mod_idemp_l by lia. f_equal. lia.
Qed.

(** On a Saturday or Sunday the shift is defined and ends on a valid
    date: the last day a [date] can hold is a Friday. *)
Lemma find_next_monday d :
  valid_date d = true -> 5 <= weekday d ->
  find_next_weekday d 0 = Ok (fromordinal (toordinal d + (7 - weekday d))).
Proof.
  intros V W. pose proof (valid_date_ordinal d V) as B.
  pose proof (weekday_range d) as R.
  unfold find_next_weekday, date_add_days.
  replace (0 - weekday d <=? 0) with true by (symmetry; apply Z.leb_le; lia).
  replace (0 - weekday d + 7) with (7 - weekday d) by lia.
  replace ((0 <? _) && _) with true; [reflexivity|].
  symmetry. apply andb_true_iff. rewrite Z.ltb_lt, Z.leb_le.
  unfold weekday, _MAXORDINAL in *. Z.div_mod_to_equations. lia.
Qed.

Lemma adjust_for_weekend_spec d :
  valid_date d = true ->
  exists c,
    adjust_for_weekend d = Ok c /\ valid_date c = true
    /\ (weekday d < 5 -> c = d)
    /\ (5 <= weekday d ->
        exists k, 0 < k /\ date_add_days d k = Ok c /\ weekday c = 0
          /\ (forall j c', 0 < j < k -> date_add_days d j = Ok c' -> weekday c' <> 0)
          /\ (weekday d = 5 -> k = 2) /\ (weekday d = 6 -> k = 1)).
Proof.
  intros V. pose proof (weekday_range d) as R. unfold adjust_for_weekend.
  destruct (5 <=? weekday d) eqn:W.
  - apply Z.leb_le in W. pose proof (find_next_monday d V W) as F.
    exists (fromordinal (toordinal d + (7 - weekday d))). split; [exact F|].
    assert (A : date_add_days d (7 - weekday d)
                = Ok (fromordinal (toordinal d + (7 - weekday d)))).
    { unfold find_next_weekday in F.
      replace (0 - weekday d <=? 0) with true in F by (symmetry; apply Z.leb_le; lia).
      replace (0 - weekday d + 7) with (7 - weekday d) in F by lia. exact F. }
    split; [apply (date_add_days_ok _ _ _ A)|].
    split; [lia|]. intros _. exists (7 - weekday d).
    split; [lia|]. split; [exact A|].
    split; [rewrite (weekday_add_days _ _ _ A); replace (weekday d + (7 - weekday d)) with (1 * 7) by lia; apply Z.mod_mul; lia|].
    split; [|lia].
    intros j c' Hj Hc'. rewrite (weekday_add_days _ _ _ Hc').
    Z.div_mod_to_equations. lia.
  - apply Z.leb_gt in W. exists d. split; [reflexivity|]. repeat split; try assumption; lia.
Qed.

(** ** The projection of a birthday *)

Lemma date_new_ok y m d dt :
  date_new y m d = Ok dt <-> dt = mkdate y m d /\ valid_date (mkdate y m d) = true.
Proof.
  unfold date_new, valid_date. cbn [year month day].
  destruct (MINYEAR <=? y), (y <=? MAXYEAR), (1 <=? m), (m <=? 12), (1 <=? d),
    (d <=? _days_in_month y m); cbn [negb andb];
    (split; [try discriminate; intros [= <-]; auto
            | intros [-> H]; try discriminate; reflexivity]).
Qed.

Lemma date_new_valid y m d :
  valid_date (mkdate y m d) = true -> date_new y m d = Ok (mkdate y m d).
Proof. intros V. apply date_new_ok. auto. Qed.

Lemma date_new_invalid y m d :
  valid_date (mkdate y m d) = false -> exists msg, date_new y m d = Raise (ValueError msg).
Proof.
  intros V. destruct (date_new y m d) as [dt|e] eqn:E.
  - apply date_new_ok in E. destruct E. congruence.
  - revert E. unfold date_new.
    repeat match goal with |- context [if ?c then _ else _] => destruct c end;
      intros [= <-]; eauto.
Qed.

Lemma birthday_this_year_ok today b ty :
  birthday_this_year today b = Ok ty
  <-> projection_defined today b = true /\ ty = this_year_spec today b.
Proof.
  unfold birthday_this_year, projection_defined, this_year_spec, replace_year.
  fold (projected b (year today)). fold (projected b (year today + 1)).
  destruct (valid_date (projected b (year today))) eqn:V; cbn [andb].
  - unfold projected at 1. rewrite (date_new_valid _ _ _ V). cbn [bind].
    fold (projected b (year today)).
    destruct (date_ltb (projected b (year today)) today).
    + rewrite date_new_ok. fold (projected b (year today + 1)). tauto.
    + rewrite V. split; [intros [= <-]; auto | intros [_ ->]; reflexivity].
  - destruct (date_new_invalid _ _ _ V) as [msg E]. unfold projected at 1.
    rewrite E. cbn [bind]. split; [discriminate | intros [H _]; discriminate].
Qed.

Lemma birthday_this_year_undefined today b :
  projection_defined today b = false ->
  exists msg, birthday_this_year today b = Raise (ValueError msg).
Proof.
  intros U. destruct (birthday_this_year today b) as [ty|e] eqn:E.
  - apply birthday_this_year_ok in E. destruct E. congruence.
  - revert E. unfold birthday_this_year, replace_year.
    destruct (valid_date (projected b (year today))) eqn:V.
    + unfold projected in V. rewrite (date_new_valid _ _ _ V). cbn [bind].
      destruct (date_ltb _ _); [|discriminate].
      destruct (valid_date (projected b (year today + 1))) eqn:V'.
      * unfold projected in V'. rewrite (date_new_valid _ _ _ V'). discriminate.
      * destruct (date_new_invalid _ _ _ V') as [msg ->]. intros [= <-]. eauto.
    + destruct (date_new_invalid _ _ _ V) as [msg ->]. intros [= <-]. eauto.
Qed.

Lemma this_year_spec_valid today b :
  projection_defined today b = true -> valid_date (this_year_spec today b) = true.
Proof. unfold projection_defined. intros H. apply andb_true_iff in H. tauto. Qed.

(** ** The loop of [get_upcoming_birthdays] *)

Section UpcomingLoop.

(** The reference date and the window are fixed during a call. *)
Variables (today : date) (days : Z).

Lemma upcoming_entry_defined record b :
  birthday record = Some b -> projection_defined today b = true ->
  exists c,
    adjust_for_weekend (this_year_spec today b) = Ok c
    /\ upcoming_entry today days record
       = Ok (if in_window today days record
             then Some (mkentry (name record) (strftime_dmY c)) else None).
Proof.
  intros Hb D.
  destruct (adjust_for_weekend_spec _ (this_year_spec_valid _ _ D)) as (c & A & _).
  exists c. split; [exact A|].
  unfold upcoming_entry, in_window. rewrite Hb.
  rewrite (proj2 (birthday_this_year_ok today b _) (conj D eq_refl)). cbn [bind].
  destruct ((0 <=? _) && _); [|reflexivity]. rewrite A. reflexivity.
Qed.

Lemma upcoming_entry_no_birthday record :
  birthday record = None ->
  upcoming_entry today days record = Ok None /\ in_window today days record = false.
Proof. intros H. unfold upcoming_entry, in_window. rewrite H. auto. Qed.

Lemma upcoming_entry_inv record e :
  upcoming_entry today days record = Ok (Some e) ->
  exists b c,
    birthday record = Some b
    /\ projection_defined today b = true
    /\ in_window today days record = true
    /\ adjust_for_weekend (this_year_spec today b) = Ok c
    /\ e = mkentry (name record) (strftime_dmY c).
Proof.
  intros H. destruct (birthday record) as [b|] eqn:Hb.
  - destruct (projection_defined today b) eqn:D.
    + destruct (upcoming_entry_defined record b Hb D) as (c & A & E).
      rewrite E in H. destruct (in_window today days record); [|discriminate].
      injection H as <-. exists b, c. auto.
    + destruct (birthday_this_year_undefined today b D) as [msg E].
      unfold upcoming_entry in H. rewrite Hb, E in H. discriminate.
  - apply upcoming_entry_no_birthday in Hb. destruct Hb as [E _].
    rewrite E in H. discriminate.
Qed.

Lemma upcoming_loop_defined records :
  (forall record b, In record records -> birthday record = Some b ->
                    projection_defined today b = true) ->
  forall acc, exists l,
    upcoming_loop today days records acc = Ok (acc ++ l)
    /\ map entry_name l = map name (filter (in_window today days) records).
Proof.
  induction records as [|record records IH]; intros H acc.
  - exists []. rewrite app_nil_r. auto.
  - cbn [upcoming_loop filter].
    assert (H' : forall r b, In r records -> birthday r = Some b ->
                             projection_defined today b = true)
      by (intros r b Hr; apply H; right; exact Hr).
    destruct (birthday record) as [b|] eqn:Hb.
    + destruct (upcoming_entry_defined record b Hb) as (c & _ & E).
      { apply (H record b); [left; reflexivity | exact Hb]. }
      rewrite E. cbn [bind]. destruct (in_window today days record).
      * destruct (IH H' (acc ++ [mkentry (name record) (strftime_dmY c)])) as (l & L & N).
        exists (mkentry (name record) (strftime_dmY c) :: l).
        rewrite L, <- app_assoc. cbn. rewrite N. auto.
      * apply IH, H'.
    + destruct (upcoming_entry_no_birthday record Hb) as [E W].
      rewrite E, W. cbn [bind]. apply IH, H'.
Qed.

Lemma upcoming_loop_inv records :
  forall acc l,
    upcoming_loop today days records acc = Ok l ->
    exists l', l = acc ++ l'
      /\ forall e, In e l' ->
           exists record, In record records
                          /\ upcoming_entry today days record = Ok (Some e).
Proof.
  induction records as [|record records IH]; intros acc l H.
  - injection H as <-. exists []. rewrite app_nil_r. split; [reflexivity|]. intros e [].
  - cbn [upcoming_loop] in H.
    destruct (upcoming_entry today days record) as [o|x] eqn:E; [|discriminate].
    cbn [bind] in H. apply IH in H. destruct H as (l' & -> & Hl').
    destruct o as [x|].
    + exists (x :: l'). rewrite <- app_assoc. split; [reflexivity|].
      intros e [<- | He].
      * exists record. split; [left; reflexivity | exact E].
      * destruct (Hl' e He) as (r & Hr & Er). exists r. split; [right; exact Hr | exact Er].
    + exists l'. split; [reflexivity|]. intros e He.
      destruct (Hl' e He) as (r & Hr & Er). exists r. split; [right; exact Hr | exact Er].
Qed.

Lemma upcoming_loop_raises records :
  forall record x acc,
    In record records -> upcoming_entry today days record = Raise x ->
    exists x', upcoming_loop today days records acc = Raise x'.
Proof.
  induction records as [|r records IH]; intros record x acc Hin E; [destruct Hin|].
  cbn [upcoming_loop]. destruct Hin as [-> | Hin].
  - rewrite E. cbn [bind]. eauto.
  - destruct (upcoming_entry today days r); cbn [bind]; [|eauto].
    eapply IH; eassumption.
Qed.

End UpcomingLoop.

(** ** Upcoming birthdays: the claims *)

(** The examples of the specification: reference date 01.01.2024, window
    of 7 days.  03.01 is a Wednesday and stays; 06.01 is a Saturday and
    moves to Monday 08.01; 25.12 is not moved to the next year and is out
    of the window; a record without birthday is skipped. *)
Example upcoming_2024 :
  get_upcoming_birthdays example_book (mkdate 2024 1 1) 7
  = Ok [mkentry (lit "Ann") (lit "03.01.2024"); mkentry (lit "Bob") (lit "08.01.2024")].
Proof. vm_compute. reflexivity. Qed.

Example this_year_not_rolled :
  birthday_this_year (mkdate 2024 1 1) (mkdate 1990 12 25) = Ok (mkdate 2024 12 25).
Proof. reflexivity. Qed.

Example this_year_rolled :
  birthday_this_year (mkdate 2024 12 26) (mkdate 1990 12 25) = Ok (mkdate 2025 12 25).
Proof. reflexivity. Qed.

Example birthday_today :
  upcoming_entry (mkdate 2024 1 3) 7 (example_record "Ann" [] (Some (mkdate 1990 1 3)))
  = Ok (Some (mkentry (lit "Ann") (lit "03.01.2024"))).
Proof. vm_compute. reflexivity. Qed.

(** Whenever the projections of the birthdays of the book exist, the
    call returns, and the names of its entries are, in order, the names of
    the records with [0 <= delta <= 7]; [delta] is counted from the
    reference date to [thisYear], which the code computes as the
    specification says: the birthday in the year of the reference date,
    moved forward by one year exactly when that date is strictly earlier
    than the reference date.  For one record, the loop body appends an
    entry if and only if [delta] is in the window. *)
Theorem upcoming_birthdays_window (book : AddressBook) (today : date) :
  (forall record b, In record (dict_values book) -> birthday record = Some b ->
                    projection_defined today b = true) ->
  exists l,
    get_upcoming_birthdays book today 7 = Ok l
    /\ map entry_name l = map name (filter (in_window today 7) (dict_values book))
    /\ forall record b,
         In record (dict_values book) -> birthday record = Some b ->
         let this_year := this_year_spec today b in
         let delta := days_between this_year today in
         birthday_this_year today b = Ok this_year
         /\ month this_year = month b /\ day this_year = day b
         /\ (year this_year = year today + 1
             <-> date_ltb (projected b (year today)) today = true)
         /\ (year this_year = year today
             <-> date_ltb (projected b (year today)) today = false)
         /\ ((exists e, upcoming_entry today 7 record = Ok (Some e)
                        /\ entry_name e = name record)
             <-> 0 <= delta <= 7).
Proof.
  intros H.
  destruct (upcoming_loop_defined today 7 (dict_values book) H []) as (l & L & N).
  exists l. split; [exact L|]. split; [exact N|].
  intros record b Hin Hb. cbv zeta.
  pose proof (H record b Hin Hb) as D.
  split; [apply birthday_this_year_ok; auto|].
  unfold this_year_spec at 1 2 3 4.
  destruct (date_ltb (projected b (year today)) today) eqn:Lt; cbn [projected year month day].
  all: split; [reflexivity|]; split; [reflexivity|].
  all: split; [split; intros; first [reflexivity | discriminate | exfalso; lia]|].
  all: split; [split; intros; first [reflexivity | discriminate | exfalso; lia]|].
  all: destruct (upcoming_entry_defined today 7 record b Hb D) as (c & _ & E);
    rewrite E; unfold in_window; rewrite Hb; cbv zeta;
    destruct ((0 <=? days_between (this_year_spec today b) today)
              && (days_between (this_year_spec today b) today <=? 7)) eqn:W.
  all: try (apply andb_true_iff in W; rewrite !Z.leb_le in W;
            split; [intros _; exact W | intros _; eexists; split; reflexivity]).
  all: split; [intros (e & [=] & _) |].
  all: intros [W1 W2]; apply Z.leb_le in W1, W2; rewrite W1, W2 in W; discriminate.
Qed.

Lemma upcoming_birthdays_window_witness :
  exists l,
    get_upcoming_birthdays example_book (mkdate 2024 1 1) 7 = Ok l
    /\ map entry_name l = [lit "Ann"; lit "Bob"].
Proof.
  destruct (upcoming_birthdays_window example_book (mkdate 2024 1 1)) as (l & L & N & _).
  - intros record b Hin Hb. simpl in Hin.
    destruct Hin as [<- | [<- | [<- | [<- | []]]]]; simpl in Hb;
      try discriminate; injection Hb as <-; vm_compute; reflexivity.
  - exists l. split; [exact L | exact N].
Defined.

(** C2. The date of every entry the call returns is the rendering of
    [thisYear] itself when its weekday index is below 5, and otherwise of
    the date [k] days later, [k] the smallest strictly positive offset that
    lands on a Monday: 2 from a Saturday, 1 from a Sunday. *)
Theorem congratulation_date_weekend
        (book : AddressBook) (today : date) (days : Z) (l : list entry) (e : entry) :
  get_upcoming_birthdays book today days = Ok l -> In e l ->
  exists record b c,
    let this_year := this_year_spec today b in
    In record (dict_values book)
    /\ entry_name e = name record
    /\ birthday record = Some b
    /\ birthday_this_year today b = Ok this_year
    /\ adjust_for_weekend this_year = Ok c
    /\ congratulation_date e = strftime_dmY c
    /\ (weekday this_year < 5 -> c = this_year)
    /\ (5 <= weekday this_year ->
        exists k, 0 < k /\ date_add_days this_year k = Ok c /\ weekday c = 0
          /\ (forall j c', 0 < j < k -> date_add_days this_year j = Ok c' ->
                           weekday c' <> 0)
          /\ (weekday this_year = 5 -> k = 2)
          /\ (weekday this_year = 6 -> k = 1)).
Proof.
  intros H Hin. unfold get_upcoming_birthdays in H.
  apply upcoming_loop_inv in H. destruct H as (l' & -> & Hl').
  destruct (Hl' e Hin) as (record & Hr & E).
  apply upcoming_entry_inv in E. destruct E as (b & c & Hb & D & _ & A & ->).
  exists record, b, c. cbv zeta.
  destruct (adjust_for_weekend_spec _ (this_year_spec_valid _ _ D)) as (c' & A' & _ & S1 & S2).
  assert (c' = c) as -> by congruence.
  repeat (split; [first [assumption | reflexivity | apply birthday_this_year_ok; auto]|]).
  exact S2.
Qed.

Lemma congratulation_date_weekend_witness :
  exists c, adjust_for_weekend (mkdate 2024 1 6) = Ok c
            /\ strftime_dmY c = lit "08.01.2024".
Proof.
  destruct (congratulation_date_weekend example_book (mkdate 2024 1 1) 7
              [mkentry (lit "Ann") (lit "03.01.2024"); mkentry (lit "Bob") (lit "08.01.2024")]
              (mkentry (lit "Bob") (lit "08.01.2024")))
    as (record & b & c & Hin & Hn & Hb & _ & A & S & _).
  - vm_compute. reflexivity.
  - right. left. reflexivity.
  - cbv zeta in *. simpl in Hin.
    destruct Hin as [<- | [<- | [<- | [<- | []]]]];
      try discriminate Hn; try discriminate Hb.
    injection Hb as <-. exists c. split; [exact A | symmetry; exact S].
Defined.

(** A birthday on 29 February has no projection on a year that is not a
    leap year, and the call raises whatever else the book holds. *)
Lemma leap_day_raises (book : AddressBook) (today : date) (days : Z) record b :
  In record (dict_values book) -> birthday record = Some b ->
  month b = 2 -> day b = 29 -> _is_leap (year today) = false ->
  exists x, get_upcoming_birthdays book today days = Raise x.
Proof.
  intros Hin Hb Hm Hd L.
  assert (D : projection_defined today b = false).
  { unfold projection_defined, projected, valid_date, _days_in_month.
    cbn [year month day]. rewrite Hm, Hd, L. cbn.
    destruct (MINYEAR <=? year today), (year today <=? MAXYEAR); reflexivity. }
  destruct (birthday_this_year_undefined today b D) as [msg E].
  apply (upcoming_loop_raises today days _ record (ValueError msg)); [exact Hin|].
  unfold upcoming_entry. rewrite Hb, E. reflexivity.
Qed.

(** C3. The code has no rule for 29 February: with the reference date
    25.02.2021 and a contact born on 29.02.2020, [replace] raises, the call
    raises with it, and the handler prints the error. *)
Theorem leap_day_projection_fails :
  Birthday (lit "29.02.2020") = Ok (mkdate 2020 2 29)
  /\ _is_leap 2021 = false
  /\ get_upcoming_birthdays leap_book (mkdate 2021 2 25) 7
     = Raise (ValueError (lit "day is out of range for month"))
  /\ birthdays (mkdate 2021 2 25) [] leap_book
     = (leap_book, lit "Error: day is out of range for month").
Proof. repeat split; vm_compute; reflexivity. Qed.

(** C1. The test of the window is the one the claim states, but the call
    does not include every record that passes it.  With the reference date
    25.02.2021, Ann, born on 26.02.1990, has [thisYear] 26.02.2021 and
    [delta] 1, and the body of the loop gives her entry; the book also
    holds Eve, born on 29.02.2020, whose birthday has no projection on
    2021, and the call raises, in either order of the two: Ann is not
    included, and [birthdays] prints the error. *)
Theorem upcoming_birthdays_window_fails :
  let today := mkdate 2021 2 25 in
  let ann := example_record "Ann" [] (Some (mkdate 1990 2 26)) in
  In ann (dict_values mixed_book)
  /\ birthday_this_year today (mkdate 1990 2 26) = Ok (mkdate 2021 2 26)
  /\ days_between (mkdate 2021 2 26) today = 1
  /\ in_window today 7 ann = true
  /\ upcoming_entry today 7 ann = Ok (Some (mkentry (lit "Ann") (lit "26.02.2021")))
  /\ get_upcoming_birthdays mixed_book today 7
     = Raise (ValueError (lit "day is out of range for month"))
  /\ get_upcoming_birthdays (rev mixed_book) today 7
     = Raise (ValueError (lit "day is out of range for month"))
  /\ birthdays today [] mixed_book
     = (mixed_book, lit "Error: day is out of range for month").
Proof.
  cbv zeta. split; [right; left; reflexivity|].
  repeat split; vm_compute; reflexivity.
Qed.

(** ** Phones *)


Lemma str_eqb_eq a b : str_eqb a b = true <-> a = b.
Proof. unfold str_eqb. destruct (list_eq_dec N.eq_dec a b); split; congruence. Qed.

Lemma str_eqb_neq a b : str_eqb a b = false <-> a <> b.
Proof. unfold str_eqb. destruct (list_eq_dec N.eq_dec a b); split; congruence. Qed.

Lemma str_eqb_refl a : str_eqb a a = true.
Proof. apply str_eqb_eq. reflexivity. Qed.

Lemma len_length {A} (l : list A) (n : nat) :
  (len l =? Z.of_nat n) = Nat.eqb (length l) n.
Proof.
  unfold len. destruct (Nat.eqb_spec (length l) n) as [-> | Hn].
  - apply Z.eqb_refl.
  - apply Z.eqb_neq. lia.
Qed.

Lemma isdigit_forallb s : s <> [] -> isdigit s = forallb char_isdigit s.
Proof. destruct s; [congruence | reflexivity]. Qed.

(** Below 128 the digits of [str.isdigit] are ['0'] to ['9']. *)
Lemma char_isdigit_ascii c : (c < 128)%N -> char_isdigit c = ascii_digit c.
Proof.
  intros H. unfold char_isdigit, ascii_digit, isdigit_table. cbn [in_ranges].
  destruct ((48 <=? c) && (c <=? 57))%N; [reflexivity|]. cbn [orb].
  repeat match goal with
         | |- context [((?lo <=? c) && (c <=? ?hi))%N] =>
             replace ((lo <=? c) && (c <=? hi))%N with false
               by (symmetry; apply andb_false_iff; left; apply N.leb_gt; lia)
         end.
  reflexivity.
Qed.

Lemma Phone_eq s :
  Phone s = if Nat.eqb (length s) 10 && forallb char_isdigit s then Ok s
            else Raise (ValueError (lit "Phone must be 10 digits")).
Proof.
  unfold Phone. change 10 with (Z.of_nat 10). rewrite len_length.
  destruct s as [|c s]; [reflexivity|].
  rewrite isdigit_forallb by discriminate.
  rewrite andb_comm. reflexivity.
Qed.

(** C4, as the code has it.  [Phone] accepts exactly the strings of ten
    characters that [str.isdigit] takes for digits, and keeps the string as
    it is; every other string raises ["Phone must be 10 digits"].  The
    digits of [str.isdigit] are those of Unicode; on strings of ASCII
    characters they are ['0'] to ['9']. *)
Theorem Phone_spec (s : pystr) :
  (Phone s = Ok s <-> length s = 10%nat /\ forallb char_isdigit s = true)
  /\ (Phone s = Raise (ValueError (lit "Phone must be 10 digits"))
      <-> ~ (length s = 10%nat /\ forallb char_isdigit s = true))
  /\ (forall v, Phone s = Ok v -> v = s)
  /\ (forallb (fun c => c <? 128)%N s = true ->
      (Phone s = Ok s <-> length s = 10%nat /\ forallb ascii_digit s = true)).
Proof.
  rewrite Phone_eq.
  assert (A : forallb (fun c => c <? 128)%N s = true ->
              forallb char_isdigit s = forallb ascii_digit s).
  { intros H. induction s as [|c s IH]; [reflexivity|].
    cbn [forallb] in *. apply andb_true_iff in H. destruct H as [Hc Hs].
    rewrite (char_isdigit_ascii c) by (apply N.ltb_lt; exact Hc).
    rewrite IH by exact Hs. reflexivity. }
  destruct (Nat.eqb_spec (length s) 10) as [L | L]; cbn [andb];
    [destruct (forallb char_isdigit s) eqn:D|].
  - split; [tauto|]. split; [split; [discriminate | tauto]|].
    split; [congruence|]. intros H. rewrite <- (A H). tauto.
  - split; [split; [discriminate | intros [_ H]; discriminate]|].
    split; [split; [intros _ [_ H]; discriminate | reflexivity]|].
    split; [discriminate|]. intros H. rewrite <- (A H).
    split; [discriminate | intros [_ H']; discriminate].
  - split; [split; [discriminate | tauto]|].
    split; [split; [tauto | reflexivity]|].
    split; [discriminate|]. intros _. split; [discriminate | tauto].
Qed.

Lemma Phone_spec_witness :
  Phone (lit "0501234567") = Ok (lit "0501234567")
  /\ Phone (lit "050-123-45") = Raise (ValueError (lit "Phone must be 10 digits")).
Proof.
  split.
  - apply (proj2 (proj2 (proj2 (proj2 (Phone_spec (lit "0501234567")))) eq_refl)).
    split; reflexivity.
  - apply (proj1 (proj2 (Phone_spec (lit "050-123-45")))).
    intros [_ H]. vm_compute in H. discriminate.
Defined.

(** C4 as stated fails: ten Arabic-Indic digits are accepted, and none of
    them is an ASCII digit. *)
Lemma Phone_accepts_non_ascii_digits :
  Phone arabic_indic_phone = Ok arabic_indic_phone
  /\ length arabic_indic_phone = 10%nat
  /\ forallb ascii_digit arabic_indic_phone = false
  /\ existsb ascii_digit arabic_indic_phone = false.
Proof. repeat split. Qed.

(** ** Operations on the phones of a record *)

Lemma set_phones_same self : set_phones self (phones self) = self.
Proof. destruct self. reflexivity. Qed.

(** The first occurrence of a value in a list. *)
Lemma first_occurrence (x : pystr) (l : list pystr) :
  In x l -> exists before after, l = before ++ x :: after /\ ~ In x before.
Proof.
  induction l as [|y l IH]; intros H; [destruct H|].
  destruct (list_eq_dec N.eq_dec y x) as [-> | Hne].
  - exists [], l. split; [reflexivity | intros []].
  - destruct H as [H | H]; [contradiction|].
    destruct (IH H) as (before & after & -> & Hb).
    exists (y :: before), after. split; [reflexivity|].
    intros [E | E]; [contradiction | exact (Hb E)].
Qed.

Lemma remove_phone_loop_absent ps raw :
  ~ In raw ps -> remove_phone_loop ps raw = ps.
Proof.
  induction ps as [|p ps IH]; intros H; [reflexivity|].
  cbn [remove_phone_loop].
  destruct (str_eqb p raw) eqn:E.
  - apply str_eqb_eq in E. subst p. exfalso. apply H. left. reflexivity.
  - rewrite IH; [reflexivity|]. intros Hin. apply H. right. exact Hin.
Qed.

Lemma remove_phone_loop_first before raw after :
  ~ In raw before ->
  remove_phone_loop (before ++ raw :: after) raw = before ++ after.
Proof.
  induction before as [|p before IH]; intros H; cbn [remove_phone_loop app].
  - rewrite str_eqb_refl. reflexivity.
  - destruct (str_eqb p raw) eqn:E.
    + apply str_eqb_eq in E. subst p. exfalso. apply H. left. reflexivity.
    + rewrite IH; [reflexivity|]. intros Hin. apply H. right. exact Hin.
Qed.

(** C7. [remove_phone] takes out the first phone equal to [raw] and keeps
    every other one, later duplicates included; when no phone equals [raw]
    the record is left as it was.  It never raises. *)
Theorem remove_phone_spec (self : ContactRecord) (raw : pystr) :
  snd (Record_remove_phone raw self) = Ok tt
  /\ (~ In raw (phones self) -> fst (Record_remove_phone raw self) = self)
  /\ (forall before after,
        phones self = before ++ raw :: after -> ~ In raw before ->
        fst (Record_remove_phone raw self) = set_phones self (before ++ after))
  /\ (In raw (phones self) ->
      exists before after,
        phones self = before ++ raw :: after /\ ~ In raw before
        /\ phones (fst (Record_remove_phone raw self)) = before ++ after).
Proof.
  unfold Record_remove_phone. cbn [fst snd].
  split; [reflexivity|]. split; [|split].
  - intros H. rewrite remove_phone_loop_absent by exact H. apply set_phones_same.
  - intros before after E H. rewrite E, remove_phone_loop_first by exact H. reflexivity.
  - intros H. destruct (first_occurrence raw _ H) as (before & after & E & Hb).
    exists before, after. split; [exact E|]. split; [exact Hb|].
    rewrite E, remove_phone_loop_first by exact Hb. reflexivity.
Qed.

Lemma remove_phone_spec_witness :
  fst (Record_remove_phone (lit "2") (example_record "Ann" ["1"; "2"; "3"; "2"]%string None))
  = example_record "Ann" ["1"; "3"; "2"]%string None
  /\ fst (Record_remove_phone (lit "4") (example_record "Ann" ["1"; "2"]%string None))
     = example_record "Ann" ["1"; "2"]%string None.
Proof.
  split.
  - apply (proj1 (proj2 (proj2 (remove_phone_spec
             (example_record "Ann" ["1"; "2"; "3"; "2"]%string None) (lit "2"))))
             [lit "1"] [lit "3"; lit "2"]).
    + reflexivity.
    + intros [H | []]. discriminate H.
  - apply (proj1 (proj2 (remove_phone_spec
             (example_record "Ann" ["1"; "2"]%string None) (lit "4")))).
    intros [H | [H | []]]; discriminate H.
Defined.

Lemma edit_phone_loop_absent ps old new :
  ~ In old ps ->
  edit_phone_loop ps old new = Raise (ValueError (lit "Old phone not found")).
Proof.
  induction ps as [|p ps IH]; intros H; [reflexivity|].
  cbn [edit_phone_loop].
  destruct (str_eqb p old) eqn:E.
  - apply str_eqb_eq in E. subst p. exfalso. apply H. left. reflexivity.
  - rewrite IH; [reflexivity|]. intros Hin. apply H. right. exact Hin.
Qed.

Lemma edit_phone_loop_first before old after new :
  ~ In old before ->
  edit_phone_loop (before ++ old :: after) old new
  = v <- Phone new ;; Ok (before ++ v :: after).
Proof.
  induction before as [|p before IH]; intros H; cbn [edit_phone_loop app].
  - rewrite str_eqb_refl. reflexivity.
  - destruct (str_eqb p old) eqn:E.
    + apply str_eqb_eq in E. subst p. exfalso. apply H. left. reflexivity.
    + rewrite IH by (intros Hin; apply H; right; exact Hin).
      destruct (Phone new); reflexivity.
Qed.

Lemma Phone_cases new :
  Phone new = Ok new \/ Phone new = Raise (ValueError (lit "Phone must be 10 digits")).
Proof. unfold Phone. destruct (isdigit new && (len new =? 10)); auto. Qed.

(** C6. [edit_phone] raises ["Old phone not found"] when no phone equals
    [old_phone]; when one does and [new_phone] is not a valid phone it
    raises ["Phone must be 10 digits"] and the record is as before; when
    one does and [new_phone] is valid, the first phone equal to [old_phone]
    holds [new_phone] afterwards, in the same place, and every other phone
    is as before. *)
Theorem edit_phone_spec (self : ContactRecord) (old_phone new_phone : pystr) :
  (~ In old_phone (phones self) ->
   Record_edit_phone old_phone new_phone self
   = (self, Raise (ValueError (lit "Old phone not found"))))
  /\ (In old_phone (phones self) -> is_ok (Phone new_phone) = false ->
      Record_edit_phone old_phone new_phone self
      = (self, Raise (ValueError (lit "Phone must be 10 digits"))))
  /\ (In old_phone (phones self) -> is_ok (Phone new_phone) = true ->
      exists before after,
        phones self = before ++ old_phone :: after /\ ~ In old_phone before
        /\ Record_edit_phone old_phone new_phone self
           = (set_phones self (before ++ new_phone :: after), Ok tt)).
Proof.
  unfold Record_edit_phone. split; [|split].
  - intros H. rewrite edit_phone_loop_absent by exact H. reflexivity.
  - intros H V. destruct (first_occurrence _ _ H) as (before & after & E & Hb).
    rewrite E, edit_phone_loop_first by exact Hb.
    destruct (Phone_cases new_phone) as [P | P]; rewrite P in *; [discriminate V|].
    reflexivity.
  - intros H V. destruct (first_occurrence _ _ H) as (before & after & E & Hb).
    exists before, after. split; [exact E|]. split; [exact Hb|].
    rewrite E, edit_phone_loop_first by exact Hb.
    destruct (Phone_cases new_phone) as [P | P]; rewrite P in *; [|discriminate V].
    reflexivity.
Qed.

Lemma edit_phone_spec_witness :
  Record_edit_phone (lit "2222222222") (lit "3333333333")
    (example_record "Ann" ["1111111111"]%string None)
  = (example_record "Ann" ["1111111111"]%string None,
     Raise (ValueError (lit "Old phone not found")))
  /\ Record_edit_phone (lit "1111111111") (lit "invalid")
       (example_record "Ann" ["1111111111"]%string None)
     = (example_record "Ann" ["1111111111"]%string None,
        Raise (ValueError (lit "Phone must be 10 digits")))
  /\ exists before after,
       [lit "1111111111"] = before ++ lit "1111111111" :: after
       /\ ~ In (lit "1111111111") before
       /\ Record_edit_phone (lit "1111111111") (lit "3333333333")
            (example_record "Ann" ["1111111111"]%string None)
          = (set_phones (example_record "Ann" ["1111111111"]%string None)
               (before ++ lit "3333333333" :: after), Ok tt).
Proof.
  split; [|split].
  - apply (proj1 (edit_phone_spec (example_record "Ann" ["1111111111"]%string None)
                    (lit "2222222222") (lit "3333333333"))).
    intros [H | []]. discriminate H.
  - apply (proj1 (proj2 (edit_phone_spec (example_record "Ann" ["1111111111"]%string None)
                           (lit "1111111111") (lit "invalid")))).
    + left. reflexivity.
    + reflexivity.
  - apply (proj2 (proj2 (edit_phone_spec (example_record "Ann" ["1111111111"]%string None)
                           (lit "1111111111") (lit "3333333333")))).
    + left. reflexivity.
    + reflexivity.
Defined.

(** ** The directory *)


Lemma dict_get_In book key record :
  dict_get book key = Some record -> In (key, record) book.
Proof.
  induction book as [|[k v] book IH]; [discriminate|]. cbn [dict_get].
  destruct (str_eqb k key) eqn:E.
  - apply str_eqb_eq in E. intros [= <-]. left. congruence.
  - intros H. right. apply IH, H.
Qed.

Lemma dict_get_None book key :
  dict_get book key = None <-> ~ In key (map fst book).
Proof.
  induction book as [|[k v] book IH]; cbn [dict_get map fst In]; [tauto|].
  destruct (str_eqb k key) eqn:E.
  - apply str_eqb_eq in E. split; [discriminate | intros H; exfalso; auto].
  - apply str_eqb_neq in E. rewrite IH. tauto.
Qed.

Lemma dict_set_get book key value :
  dict_get (dict_set book key value) key = Some value.
Proof.
  induction book as [|[k v] book IH]; cbn [dict_set dict_get].
  - rewrite str_eqb_refl. reflexivity.
  - destruct (str_eqb k key) eqn:E; cbn [dict_get]; rewrite E; [reflexivity | exact IH].
Qed.

Lemma dict_set_get_other book key value other :
  other <> key -> dict_get (dict_set book key value) other = dict_get book other.
Proof.
  intros Hne. induction book as [|[k v] book IH]; cbn [dict_set dict_get].
  - replace (str_eqb key other) with false; [reflexivity|].
    symmetry. apply str_eqb_neq. congruence.
  - destruct (str_eqb k key) eqn:E; cbn [dict_get].
    + apply str_eqb_eq in E. subst k.
      replace (str_eqb key other) with false; [reflexivity|].
      symmetry. apply str_eqb_neq. congruence.
    + rewrite IH. reflexivity.
Qed.

Lemma dict_set_new book key value :
  dict_get book key = None -> dict_set book key value = book ++ [(key, value)].
Proof.
  induction book as [|[k v] book IH]; cbn [dict_set dict_get app]; [reflexivity|].
  destruct (str_eqb k key); [discriminate|]. intros H. rewrite IH by exact H. reflexivity.
Qed.

Lemma dict_set_present book key value old :
  dict_get book key = Some old ->
  exists before after,
    book = before ++ (key, old) :: after
    /\ ~ In key (map fst before)
    /\ dict_set book key value = before ++ (key, value) :: after.
Proof.
  induction book as [|[k v] book IH]; cbn [dict_set dict_get]; [discriminate|].
  destruct (str_eqb k key) eqn:E.
  - apply str_eqb_eq in E. subst k. intros [= ->].
    exists [], book. repeat split. intros [].
  - apply str_eqb_neq in E. intros H.
    destruct (IH H) as (before & after & -> & Hb & ->).
    exists ((k, v) :: before), after. repeat split.
    intros [Hk | Hk]; [exact (E Hk) | exact (Hb Hk)].
Qed.

Lemma dict_set_In book key value k v :
  In (k, v) (dict_set book key value) -> (k = key /\ v = value) \/ In (k, v) book.
Proof.
  induction book as [|[k0 v0] book IH]; cbn [dict_set].
  - intros [[= <- <-] | []]. left. auto.
  - destruct (str_eqb k0 key) eqn:E.
    + apply str_eqb_eq in E. subst k0.
      intros [[= <- <-] | H]; [left; auto | right; right; exact H].
    + intros [H | H]; [right; left; exact H|].
      destruct (IH H) as [? | ?]; [left; assumption | right; right; assumption].
Qed.

Lemma dict_set_keys book key value :
  map fst (dict_set book key value)
  = match dict_get book key with
    | Some _ => map fst book
    | None => map fst book ++ [key]
    end.
Proof.
  destruct (dict_get book key) as [old|] eqn:G.
  - destruct (dict_set_present book key value old G) as (before & after & -> & _ & ->).
    rewrite !map_app. reflexivity.
  - rewrite dict_set_new by exact G. rewrite map_app. reflexivity.
Qed.

Lemma dict_pop_In book key k v :
  In (k, v) (dict_pop book key) -> In (k, v) book.
Proof.
  induction book as [|[k0 v0] book IH]; cbn [dict_pop]; [auto|].
  destruct (str_eqb k0 key).
  - intros H. right. exact H.
  - intros [H | H]; [left; exact H | right; apply IH, H].
Qed.

Lemma dict_pop_key_In book key k :
  In k (map fst (dict_pop book key)) -> In k (map fst book).
Proof.
  rewrite !in_map_iff. intros ([k' v] & <- & H).
  exists (k', v). split; [reflexivity | apply dict_pop_In in H; exact H].
Qed.

Lemma dict_pop_keys_NoDup book key :
  NoDup (map fst book) -> NoDup (map fst (dict_pop book key)).
Proof.
  induction book as [|[k0 v0] book IH]; cbn [dict_pop map fst]; [auto|].
  intros H. inversion H as [|? ? Hn Hd]; subst.
  destruct (str_eqb k0 key); [exact Hd|].
  cbn [map fst]. constructor; [|apply IH, Hd].
  intros Hin. apply Hn. eapply dict_pop_key_In, Hin.
Qed.

Lemma write_back_keys book key record :
  map fst (write_back book key record) = map fst book.
Proof.
  induction book as [|[k v] book IH]; cbn [write_back map fst]; [reflexivity|].
  destruct (str_eqb k key); cbn [map fst]; [reflexivity | rewrite IH; reflexivity].
Qed.

Lemma write_back_In book key record k v :
  In (k, v) (write_back book key record) -> (k = key /\ v = record) \/ In (k, v) book.
Proof.
  induction book as [|[k0 v0] book IH]; cbn [write_back]; [intros []|].
  destruct (str_eqb k0 key) eqn:E.
  - apply str_eqb_eq in E. subst k0.
    intros [[= <- <-] | H]; [left; auto | right; right; exact H].
  - intros [H | H]; [right; left; exact H|].
    destruct (IH H) as [? | ?]; [left; assumption | right; right; assumption].
Qed.

Lemma run_record_op_name op record : name (fst (run_record_op op record)) = name record.
Proof.
  destruct op; cbn [run_record_op].
  - unfold Record_add_phone. destruct (Phone raw); reflexivity.
  - reflexivity.
  - unfold Record_edit_phone. destruct (edit_phone_loop _ _ _); reflexivity.
  - reflexivity.
  - unfold Record_add_birthday. destruct (Birthday raw); reflexivity.
  - reflexivity.
  - reflexivity.
Qed.

Lemma NoDup_app_fresh (l : list pystr) x : NoDup l -> ~ In x l -> NoDup (l ++ [x]).
Proof.
  induction l as [|y l IH]; intros H Hx; cbn [app].
  - constructor; [intros [] | constructor].
  - inversion H as [|? ? Hn Hd]; subst. constructor.
    + rewrite in_app_iff. intros [Hy | [-> | []]]; [exact (Hn Hy)|].
      apply Hx. left. reflexivity.
    + apply IH; [exact Hd|]. intros Hin. apply Hx. right. exact Hin.
Qed.

Lemma run_book_op_invariant book op :
  book_invariant book -> book_invariant (run_book_op book op).
Proof.
  intros [Hname Hkeys]. destruct op as [record | nm | nm | nm rop]; cbn [run_book_op].
  - split.
    + intros k v H. apply dict_set_In in H. destruct H as [[-> ->] | H]; [reflexivity|].
      apply Hname, H.
    + unfold AddressBook_add_record. rewrite dict_set_keys.
      destruct (dict_get book (name record)) eqn:G; [exact Hkeys|].
      apply NoDup_app_fresh; [exact Hkeys | apply dict_get_None, G].
  - split; assumption.
  - split.
    + intros k v H. apply Hname. eapply dict_pop_In, H.
    + apply dict_pop_keys_NoDup, Hkeys.
  - unfold AddressBook_find. destruct (dict_get book nm) as [record|] eqn:G;
      [|split; assumption].
    split.
    + intros k v H. apply write_back_In in H. destruct H as [[-> ->] | H].
      * rewrite run_record_op_name. apply Hname, dict_get_In, G.
      * apply Hname, H.
    + rewrite write_back_keys. exact Hkeys.
Qed.

(** C8. After [add_record] the book holds the new record, as it is, under
    its name; a record stored under that name before is no longer in the
    book, and its place in the order is kept; a new name goes to the end;
    the entries of all other names are untouched. *)
Theorem add_record_replaces (book : AddressBook) (record : ContactRecord) :
  AddressBook_find (AddressBook_add_record book record) (name record) = Some record
  /\ (forall other, other <> name record ->
        AddressBook_find (AddressBook_add_record book record) other
        = AddressBook_find book other)
  /\ (forall old, AddressBook_find book (name record) = Some old ->
        exists before after,
          book = before ++ (name record, old) :: after
          /\ ~ In (name record) (map fst before)
          /\ AddressBook_add_record book record
             = before ++ (name record, record) :: after)
  /\ (AddressBook_find book (name record) = None ->
      AddressBook_add_record book record = book ++ [(name record, record)]).
Proof.
  unfold AddressBook_find, AddressBook_add_record.
  split; [apply dict_set_get|].
  split; [intros other H; apply dict_set_get_other, H|].
  split; [intros old H; apply dict_set_present, H|].
  apply dict_set_new.
Qed.

Lemma add_record_replaces_witness :
  exists before after,
    example_book = before ++ (lit "Ann", example_record "Ann" ["1111111111"%string]
                                           (Some (mkdate 1990 1 3))) :: after
    /\ ~ In (lit "Ann") (map fst before)
    /\ AddressBook_add_record example_book (Record_init (lit "Ann"))
       = before ++ (lit "Ann", Record_init (lit "Ann")) :: after.
Proof.
  apply (proj1 (proj2 (proj2 (add_record_replaces example_book (Record_init (lit "Ann")))))).
  reflexivity.
Defined.

(** C9. In every book that a sequence of [add_record], [find], [delete]
    and record operations builds from the empty book, every entry holds a
    record whose name is the key of the entry. *)
Theorem directory_invariant (book : AddressBook) :
  reachable book ->
  forall key record, In (key, record) book -> name record = key.
Proof.
  intros [ops ->].
  assert (G : forall b, book_invariant b -> book_invariant (fold_left run_book_op ops b)).
  { induction ops as [|op ops IH]; intros b Hb; cbn [fold_left]; [exact Hb|].
    apply IH, run_book_op_invariant, Hb. }
  destruct (G empty_book) as [Hname _]; [|exact Hname].
  split; [intros k v [] | constructor].
Qed.

Lemma directory_invariant_witness :
  name (example_record "Bob" ["1111111111"%string] None) = lit "Bob".
Proof.
  apply (directory_invariant
           [(lit "Bob", example_record "Bob" ["1111111111"%string] None)]).
  - exists [OpAddRecord (Record_init (lit "Ann"));
            OpAddRecord (Record_init (lit "Bob"));
            OpOnRecord (lit "Ann") (OpAddBirthday (lit "01.02.2000"));
            OpFind (lit "Bob");
            OpOnRecord (lit "Bob") (OpAddPhone (lit "1111111111"));
            OpDelete (lit "Ann")].
    vm_compute. reflexivity.
  - left. reflexivity.
Defined.

(** ** The command [add] *)

Lemma split_loop_words s : forall cur,
  Forall (fun w => w <> []) (split_loop s cur).
Proof.
  assert (R : forall c (cur : pystr), rev (c :: cur) <> []).
  { intros c cur H. apply (f_equal (@length _)) in H.
    rewrite length_rev in H. discriminate H. }
  induction s as [|c s IH]; intros cur; cbn [split_loop].
  - destruct cur as [|x cur]; [constructor|]. constructor; [apply R | constructor].
  - destruct (char_isspace c); [|apply IH].
    destruct cur as [|x cur]; [apply IH|]. constructor; [apply R | apply IH].
Qed.

Lemma parse_input_args lower user_input command args :
  parse_input lower user_input = (command, args) -> Forall (fun w => w <> []) args.
Proof.
  unfold parse_input. intros [= _ <-].
  pose proof (split_loop_words (strip user_input) []) as W. fold (split (strip user_input)) in W.
  destruct (1 <? len (split (strip user_input))); [|constructor].
  destruct (split (strip user_input)) as [|p ps]; [constructor|].
  inversion W; assumption.
Qed.

Lemma write_back_same book key record :
  dict_get book key = Some record -> write_back book key record = book.
Proof.
  induction book as [|[k v] book IH]; cbn [write_back dict_get]; [reflexivity|].
  destruct (str_eqb k key).
  - intros [= ->]. reflexivity.
  - intros H. rewrite IH by exact H. reflexivity.
Qed.

(** The handler on a new name and a phone that is not empty and not
    valid: the record is created and stored, then [add_phone] raises. *)
Lemma add_contact_invalid_phone book nm phone rest :
  AddressBook_find book nm = None -> phone <> [] -> is_ok (Phone phone) = false ->
  add_contact (nm :: phone :: rest) book
  = (book ++ [(nm, Record_init nm)], lit "Error: Phone must be 10 digits").
Proof.
  intros F Hp V. unfold add_contact, input_error, add_contact_func.
  rewrite F. destruct phone as [|c phone]; [congruence|]. cbn [str_bool].
  unfold Record_add_phone.
  destruct (Phone_cases (c :: phone)) as [P | P]; rewrite P in *; [discriminate V|].
  unfold AddressBook_add_record, AddressBook_find in *.
  rewrite write_back_same by apply dict_set_get.
  cbn [Record_init name bind]. rewrite dict_set_new by exact F. reflexivity.
Qed.

(** With an empty phone the handler skips [add_phone] and reports success;
    [parse_input] never produces an empty argument. *)
Lemma add_contact_empty_phone book nm rest :
  AddressBook_find book nm = None ->
  add_contact (nm :: [] :: rest) book
  = (book ++ [(nm, Record_init nm)], lit "Contact added.").
Proof.
  intros F. unfold add_contact, input_error, add_contact_func.
  rewrite F. cbn [str_bool]. unfold AddressBook_add_record, AddressBook_find in *.
  cbn [Record_init name]. rewrite dict_set_new by exact F. reflexivity.
Qed.

(** C10. An [add] command with a name that is not in the book and a phone
    that is not valid prints the error of the phone, and the book holds
    afterwards, at its end, a record of that name without phones and
    without birthday. *)
Theorem add_not_atomic (lower : pystr -> pystr) (today : date) (book : AddressBook)
        (user_input nm phone : pystr) (rest : list pystr) :
  parse_input lower user_input = (lit "add", nm :: phone :: rest) ->
  AddressBook_find book nm = None ->
  is_ok (Phone phone) = false ->
  let book' := book ++ [(nm, mkRecord nm [] None)] in
  add_contact (nm :: phone :: rest) book = (book', lit "Error: Phone must be 10 digits")
  /\ main_step lower today book user_input
     = (book', lit "Error: Phone must be 10 digits", true)
  /\ AddressBook_find book' nm = Some (mkRecord nm [] None)
  /\ book' <> book.
Proof.
  intros P F V book'.
  assert (Hp : phone <> []).
  { pose proof (parse_input_args _ _ _ _ P) as W.
    inversion W as [|? ? _ W']; subst. inversion W'; assumption. }
  pose proof (add_contact_invalid_phone book nm phone rest F Hp V) as A.
  fold (Record_init nm) in book'.
  split; [exact A|]. split; [|split].
  - unfold main_step. rewrite P.
    change (str_eqb (lit "add") (lit "close")) with false.
    change (str_eqb (lit "add") (lit "exit")) with false.
    change (str_eqb (lit "add") (lit "hello")) with false.
    change (str_eqb (lit "add") (lit "add")) with true.
    cbv beta iota delta [orb]. exact (f_equal (fun x => (x, true)) A).
  - subst book'. unfold AddressBook_find in *.
    rewrite <- (dict_set_new book nm (Record_init nm) F). apply dict_set_get.
  - subst book'. intros E. apply (f_equal (@length _)) in E.
    rewrite length_app in E. cbn in E. lia.
Qed.

Lemma add_not_atomic_witness :
  add_contact [lit "Eve"; lit "12345"] example_book
  = (example_book ++ [(lit "Eve", mkRecord (lit "Eve") [] None)],
     lit "Error: Phone must be 10 digits").
Proof.
  apply (add_not_atomic (fun s => s) (mkdate 2024 1 1) example_book
           (lit "add Eve 12345") (lit "Eve") (lit "12345") []).
  - vm_compute. reflexivity.
  - vm_compute. reflexivity.
  - vm_compute. reflexivity.
Defined.

(** ** [strptime] and birthdays *)


Lemma rmatch_sound (r : regex) :
  forall (A : Type) s gs (k : pystr -> groups -> option A) x,
    rmatch r s gs k = Some x ->
    exists p t gs', s = p ++ t /\ matches r p gs gs' /\ k t gs' = Some x.
Proof.
  induction r as [c | a IHa b IHb | a IHa b IHb | g a IHa]; intros A s gs k x H;
    cbn [rmatch matches] in *.
  - destruct s as [|y s]; [discriminate|].
    destruct (c y) eqn:C; [|discriminate].
    exists [y], s, gs. repeat split; eauto.
  - apply IHa in H. destruct H as (u & t1 & gs1 & -> & Ma & H).
    apply IHb in H. destruct H as (v & t & gs' & -> & Mb & H).
    exists (u ++ v), t, gs'. rewrite app_assoc. repeat split; eauto 10.
  - destruct (rmatch a s gs k) as [y|] eqn:E.
    + injection H as ->. apply IHa in E. destruct E as (p & t & gs' & -> & M & K).
      exists p, t, gs'. auto.
    + apply IHb in H. destruct H as (p & t & gs' & -> & M & K).
      exists p, t, gs'. auto.
  - apply IHa in H. destruct H as (p & t & gs1 & -> & M & K).
    rewrite length_app, Nat.add_sub, firstn_app, Nat.sub_diag, firstn_all in K.
    cbn [firstn] in K. rewrite app_nil_r in K.
    exists p, t, (set_group g p gs1). eauto.
Qed.

Lemma rmatch_complete (r : regex) :
  forall (A : Type) p t gs (k : pystr -> groups -> option A),
    lang r p -> (forall gs', k t gs' <> None) -> rmatch r (p ++ t) gs k <> None.
Proof.
  induction r as [c | a IHa b IHb | a IHa b IHb | g a IHa]; intros A p t gs k L K;
    cbn [rmatch lang] in *.
  - destruct L as (x & -> & C). cbn [app]. rewrite C. apply K.
  - destruct L as (u & v & -> & La & Lb). rewrite <- app_assoc.
    apply IHa; [exact La|]. intros gs'. apply IHb; assumption.
  - destruct (rmatch a (p ++ t) gs k) eqn:E; [discriminate|].
    destruct L as [La | Lb]; [exfalso; revert E; apply IHa; assumption|].
    apply IHb; assumption.
  - apply IHa; [exact L|]. intros gs'. apply K.
Qed.

Ltac split_bools :=
  repeat match goal with
    | H : (_ || _) = true |- _ => apply orb_true_iff in H; destruct H as [H | H]
    | H : (_ && _) = true |- _ => apply andb_true_iff in H; destruct H
    end.

Ltac open_match :=
  repeat match goal with
    | H : _ \/ _ |- _ => destruct H as [H | H]
    | H : exists _, _ |- _ => destruct H as [? H]
    | H : _ /\ _ |- _ => destruct H
    end; subst.

Ltac close_bools :=
  repeat match goal with H : _ = true |- _ => rewrite H; clear H end;
  cbn [andb orb]; rewrite ?orb_true_r; reflexivity.

Lemma matches_dot p gs gs' :
  matches (Cls (chr_is ".")) p gs gs' -> p = lit "." /\ gs' = gs.
Proof.
  cbn [matches]. intros [(x & -> & C) ->]. split; [|reflexivity].
  apply N.eqb_eq in C. subst x. reflexivity.
Qed.

Lemma matches_re_d p gs gs' :
  matches re_d p gs gs' -> is_day_token p = true /\ gs' = set_group G_d p gs.
Proof.
  cbn [matches re_d]. intros H. open_match; cbn [app is_day_token];
    (split; [close_bools | reflexivity]).
Qed.

Lemma matches_re_m p gs gs' :
  matches re_m p gs gs' -> is_month_token p = true /\ gs' = set_group G_m p gs.
Proof.
  cbn [matches re_m]. intros H. open_match; cbn [app is_month_token];
    (split; [close_bools | reflexivity]).
Qed.

Lemma matches_re_Y p gs gs' :
  matches re_Y p gs gs' -> is_year_token p = true /\ gs' = set_group G_Y p gs.
Proof.
  cbn [matches re_Y]. intros H. open_match; cbn [app is_year_token];
    (split; [close_bools | reflexivity]).
Qed.

Lemma lang_cls (c : codepoint -> bool) x : c x = true -> lang (Cls c) [x].
Proof. intros H. exists x. auto. Qed.

Lemma lang_seq a b u v : lang a u -> lang b v -> lang (Seq a b) (u ++ v).
Proof. intros Ha Hb. exists u, v. auto. Qed.

Lemma lang_alt_l a b p : lang a p -> lang (Alt a b) p.
Proof. intros H. left. exact H. Qed.

Lemma lang_alt_r a b p : lang b p -> lang (Alt a b) p.
Proof. intros H. right. exact H. Qed.

Lemma lang_group g a p : lang a p -> lang (Group g a) p.
Proof. intros H. exact H. Qed.

Ltac two_chars a b := apply (lang_seq _ _ [a] [b]); apply lang_cls; assumption.

Lemma lang_re_d t : is_day_token t = true -> lang re_d t.
Proof.
  unfold re_d. intros H. apply lang_group.
  destruct t as [|a [|b [|c t]]]; cbn [is_day_token] in H; try discriminate.
  - do 3 apply lang_alt_r. apply lang_alt_l. apply lang_cls, H.
  - split_bools.
    + apply lang_alt_l. two_chars a b.
    + apply lang_alt_r, lang_alt_l. two_chars a b.
    + do 2 apply lang_alt_r. apply lang_alt_l. two_chars a b.
    + do 4 apply lang_alt_r. two_chars a b.
Qed.

Lemma lang_re_m t : is_month_token t = true -> lang re_m t.
Proof.
  unfold re_m. intros H. apply lang_group.
  destruct t as [|a [|b [|c t]]]; cbn [is_month_token] in H; try discriminate.
  - do 2 apply lang_alt_r. apply lang_cls, H.
  - split_bools.
    + apply lang_alt_l. two_chars a b.
    + apply lang_alt_r, lang_alt_l. two_chars a b.
Qed.

Lemma lang_re_Y t : is_year_token t = true -> lang re_Y t.
Proof.
  unfold re_Y. intros H. apply lang_group.
  destruct t as [|a [|b [|c [|d [|e t]]]]]; cbn [is_year_token] in H; try discriminate.
  split_bools.
  apply (lang_seq _ _ [a] [b; c; d]); [apply lang_cls; assumption|].
  apply (lang_seq _ _ [b] [c; d]); [apply lang_cls; assumption|].
  two_chars c d.
Qed.

Lemma lang_re_dmY dtok mtok ytok :
  is_day_token dtok = true -> is_month_token mtok = true -> is_year_token ytok = true ->
  lang re_dmY (dtok ++ lit "." ++ mtok ++ lit "." ++ ytok).
Proof.
  intros D M Y. unfold re_dmY.
  apply lang_seq; [apply lang_re_d, D|].
  apply lang_seq; [apply lang_cls; reflexivity|].
  apply lang_seq; [apply lang_re_m, M|].
  apply lang_seq; [apply lang_cls; reflexivity|].
  apply lang_re_Y, Y.
Qed.

Lemma matches_re_dmY p gs gs' :
  matches re_dmY p gs gs' ->
  exists dtok mtok ytok,
    p = dtok ++ lit "." ++ mtok ++ lit "." ++ ytok
    /\ is_day_token dtok = true /\ is_month_token mtok = true
    /\ is_year_token ytok = true
    /\ gs' = mkgroups dtok mtok ytok.
Proof.
  unfold re_dmY. cbn [matches].
  intros (dtok & p1 & g1 & -> & Hd & dot1 & p2 & g2 & -> & Hdot1
          & mtok & p3 & g3 & -> & Hm & dot2 & ytok & g4 & -> & Hdot2 & Hy).
  apply matches_re_d in Hd. destruct Hd as [Hd ->].
  apply (matches_dot dot1) in Hdot1. destruct Hdot1 as [-> ->].
  apply matches_re_m in Hm. destruct Hm as [Hm ->].
  apply (matches_dot dot2) in Hdot2. destruct Hdot2 as [-> ->].
  apply matches_re_Y in Hy. destruct Hy as [Hy ->].
  exists dtok, mtok, ytok. repeat split; assumption.
Qed.

Ltac no_dot :=
  split_bools;
  match goal with H : ?f 46%N = true |- _ => vm_compute in H; discriminate H end.

Lemma day_token_no_dot t : is_day_token t = true -> ~ In 46%N t.
Proof.
  destruct t as [|a [|b [|c t]]]; cbn [is_day_token]; try discriminate;
    intros H Hin; cbn [In] in Hin; open_match; try contradiction; no_dot.
Qed.

Lemma month_token_no_dot t : is_month_token t = true -> ~ In 46%N t.
Proof.
  destruct t as [|a [|b [|c t]]]; cbn [is_month_token]; try discriminate;
    intros H Hin; cbn [In] in Hin; open_match; try contradiction; no_dot.
Qed.

Lemma split_at_dot (u u' v v' : pystr) :
  ~ In 46%N u -> ~ In 46%N u' -> u ++ 46%N :: v = u' ++ 46%N :: v' ->
  u = u' /\ v = v'.
Proof.
  revert u'. induction u as [|x u IH]; intros [|x' u'] Hu Hu' E; cbn [app] in E.
  - injection E as ->. auto.
  - injection E as <- _. exfalso. apply Hu'. left. reflexivity.
  - injection E as -> _. exfalso. apply Hu. left. reflexivity.
  - injection E as -> E. destruct (IH u') as [-> ->]; auto.
    + intros H. apply Hu. right. exact H.
    + intros H. apply Hu'. right. exact H.
Qed.

Lemma char_isspace_cases c :
  char_isspace c = true ->
  In c [9; 10; 11; 12; 13; 28; 29; 30; 31; 32; 133; 160; 5760; 8192; 8193; 8194;
        8195; 8196; 8197; 8198; 8199; 8200; 8201; 8202; 8232; 8233; 8239; 8287;
        12288]%N.
Proof.
  unfold char_isspace, isspace_table. cbn [in_ranges In]. intros H.
  rewrite !orb_true_iff, !andb_true_iff, !N.leb_le in H. lia.
Qed.

Lemma decimal_not_space c : char_isdecimal c = true -> char_isspace c = false.
Proof.
  intros D. destruct (char_isspace c) eqn:S; [|reflexivity].
  apply char_isspace_cases in S. cbn [In] in S.
  repeat (destruct S as [<- | S]; [vm_compute in D; discriminate D|]).
  destruct S.
Qed.

Lemma ascii_digit_decimal c : ascii_digit c = true -> char_isdecimal c = true.
Proof.
  unfold ascii_digit, char_isdecimal, decimal_runs. cbn [in_ranges].
  intros ->. reflexivity.
Qed.

Lemma chr_in_ascii_digit (lo hi : ascii) c :
  ascii_digit (N_of_ascii lo) = true -> ascii_digit (N_of_ascii hi) = true ->
  chr_in lo hi c = true -> ascii_digit c = true.
Proof.
  unfold chr_in, ascii_digit. rewrite !andb_true_iff, !N.leb_le. lia.
Qed.

Lemma chr_is_ascii_digit (x : ascii) c :
  ascii_digit (N_of_ascii x) = true -> chr_is x c = true -> ascii_digit c = true.
Proof. unfold chr_is. intros H E. apply N.eqb_eq in E. subst c. exact H. Qed.

(** Every class of the pattern but the blank holds decimal digits only. *)
Ltac class_decimal :=
  match goal with
  | H : char_isdecimal ?c = true |- char_isdecimal ?c = true => exact H
  | H : chr_in ?lo ?hi ?c = true |- char_isdecimal ?c = true =>
      apply ascii_digit_decimal, (chr_in_ascii_digit lo hi c eq_refl eq_refl H)
  | H : chr_is ?x ?c = true |- char_isdecimal ?c = true =>
      apply ascii_digit_decimal, (chr_is_ascii_digit x c eq_refl H)
  end.

Lemma lstrip_word c s : char_isspace c = false -> lstrip (c :: s) = c :: s.
Proof. intros H. cbn [lstrip]. rewrite H. reflexivity. Qed.

Lemma rstrip_word s c : char_isspace c = false -> rstrip (s ++ [c]) = s ++ [c].
Proof.
  intros H. unfold rstrip. rewrite rev_app_distr. cbn [rev app].
  rewrite lstrip_word by exact H.
  change (c :: rev s) with ([c] ++ rev s). rewrite rev_app_distr, rev_involutive.
  reflexivity.
Qed.

(** A string of decimal digits is its own [strip], and [int] reads it. *)
Lemma strip_digits s :
  forallb char_isdecimal s = true -> strip s = s.
Proof.
  intros H. destruct s as [|c s]; [reflexivity|].
  assert (Hc : char_isspace c = false).
  { cbn [forallb] in H. apply andb_true_iff in H. apply decimal_not_space, H. }
  unfold strip. rewrite lstrip_word by exact Hc.
  destruct (exists_last (l := c :: s)) as (s' & z & E); [discriminate|].
  rewrite E in *. apply rstrip_word.
  rewrite forallb_app in H. apply andb_true_iff in H. destruct H as [_ H].
  cbn [forallb] in H. apply andb_true_iff in H. apply decimal_not_space, H.
Qed.

Lemma int_of_str_digits s :
  s <> [] -> forallb char_isdecimal s = true -> int_of_str s = Ok (token_value s).
Proof.
  intros N D. unfold int_of_str, token_value. rewrite (strip_digits s D).
  destruct s; [congruence|]. rewrite D. reflexivity.
Qed.

Lemma int_of_str_blank c :
  char_isdecimal c = true -> int_of_str [32%N; c] = Ok (token_value [32%N; c]).
Proof.
  intros D. unfold int_of_str, token_value.
  assert (E : strip [32%N; c] = [c]).
  { unfold strip. change (lstrip [32%N; c]) with (lstrip [c]).
    rewrite lstrip_word by (apply decimal_not_space, D).
    apply (rstrip_word [] c), decimal_not_space, D. }
  rewrite E. cbn [forallb]. rewrite D. reflexivity.
Qed.

Lemma day_token_int t : is_day_token t = true -> int_of_str t = Ok (token_value t).
Proof.
  destruct t as [|a [|b [|c t]]]; cbn [is_day_token]; try discriminate; intros H.
  - apply int_of_str_digits; [discriminate|].
    cbn [forallb]. rewrite andb_true_r. class_decimal.
  - split_bools.
    4: { apply N.eqb_eq in H. subst a. apply int_of_str_blank. class_decimal. }
    all: apply int_of_str_digits; [discriminate|]; cbn [forallb];
      rewrite andb_true_r; apply andb_true_iff; split; class_decimal.
Qed.

Lemma month_token_int t : is_month_token t = true -> int_of_str t = Ok (token_value t).
Proof.
  destruct t as [|a [|b [|c t]]]; cbn [is_month_token]; try discriminate; intros H.
  - apply int_of_str_digits; [discriminate|].
    cbn [forallb]. rewrite andb_true_r. class_decimal.
  - split_bools.
    all: apply int_of_str_digits; [discriminate|]; cbn [forallb];
      rewrite andb_true_r; apply andb_true_iff; split; class_decimal.
Qed.

Lemma year_token_int t : is_year_token t = true -> int_of_str t = Ok (token_value t).
Proof.
  destruct t as [|a [|b [|c [|d [|e t]]]]]; cbn [is_year_token]; try discriminate.
  intros H. apply int_of_str_digits; [discriminate|].
  cbn [forallb]. rewrite andb_true_r, !andb_assoc. exact H.
Qed.

Lemma year_token_length t : is_year_token t = true -> length t = 4%nat.
Proof.
  destruct t as [|a [|b [|c [|d [|e t]]]]]; cbn [is_year_token]; try discriminate.
  reflexivity.
Qed.

(** What [re.match] finds for the pattern: the three groups, one dot after
    each of the first two, and the text that is left. *)
Lemma re_match_dmY s gs rest :
  re_match re_dmY s = Some (gs, rest) ->
  exists dtok mtok ytok,
    s = (dtok ++ lit "." ++ mtok ++ lit "." ++ ytok) ++ rest
    /\ is_day_token dtok = true /\ is_month_token mtok = true
    /\ is_year_token ytok = true
    /\ gs = mkgroups dtok mtok ytok.
Proof.
  unfold re_match. intros H. apply rmatch_sound in H.
  destruct H as (p & t & gs' & -> & M & [= -> ->]).
  apply matches_re_dmY in M.
  destruct M as (dtok & mtok & ytok & -> & D & Mo & Y & ->).
  exists dtok, mtok, ytok. auto.
Qed.

(** The groups are determined by the data: the dots are where the first
    two groups end, and the year has four characters. *)
Lemma dmY_unique dtok mtok ytok dtok' mtok' ytok' rest :
  is_day_token dtok = true -> is_month_token mtok = true -> is_year_token ytok = true ->
  is_day_token dtok' = true -> is_month_token mtok' = true -> is_year_token ytok' = true ->
  dtok ++ lit "." ++ mtok ++ lit "." ++ ytok
  = (dtok' ++ lit "." ++ mtok' ++ lit "." ++ ytok') ++ rest ->
  dtok' = dtok /\ mtok' = mtok /\ ytok' = ytok /\ rest = [].
Proof.
  intros D M Y D' M' Y' E. rewrite <- !app_assoc in E.
  change (lit ".") with [46%N] in E. cbn [app] in E.
  apply split_at_dot in E; try (apply day_token_no_dot; assumption).
  destruct E as [-> E].
  apply split_at_dot in E; try (apply month_token_no_dot; assumption).
  destruct E as [-> E].
  apply year_token_length in Y, Y'.
  assert (L : rest = []).
  { apply (f_equal (@length _)) in E. rewrite length_app in E.
    destruct rest; [reflexivity | cbn [length] in E; lia]. }
  subst rest. rewrite app_nil_r in E. auto.
Qed.

Lemma len_rest (s rest : pystr) :
  (len (s ++ rest) =? len (s ++ rest) - len rest) = match rest with [] => true | _ => false end.
Proof.
  unfold len. destruct rest as [|c rest]; cbn [length].
  - apply Z.eqb_eq. lia.
  - apply Z.eqb_neq. lia.
Qed.

Lemma strptime_dmY_ok s dt :
  strptime_dmY s = Ok dt
  <-> exists dtok mtok ytok,
        s = dtok ++ lit "." ++ mtok ++ lit "." ++ ytok
        /\ is_day_token dtok = true /\ is_month_token mtok = true
        /\ is_year_token ytok = true
        /\ valid_date (mkdate (token_value ytok) (token_value mtok) (token_value dtok)) = true
        /\ dt = mkdate (token_value ytok) (token_value mtok) (token_value dtok).
Proof.
  unfold strptime_dmY. split.
  - destruct (re_match re_dmY s) as [[gs rest]|] eqn:R; [|discriminate].
    apply re_match_dmY in R.
    destruct R as (dtok & mtok & ytok & -> & D & M & Y & ->).
    rewrite len_rest. destruct rest as [|c rest]; [|discriminate].
    cbn [negb grp_d grp_m grp_Y].
    rewrite (year_token_int _ Y), (month_token_int _ M), (day_token_int _ D).
    cbn [bind]. intros H. apply date_new_ok in H. destruct H as [-> V].
    exists dtok, mtok, ytok. rewrite app_nil_r. repeat split; assumption.
  - intros (dtok & mtok & ytok & -> & D & M & Y & V & ->).
    destruct (re_match re_dmY (dtok ++ lit "." ++ mtok ++ lit "." ++ ytok))
      as [[gs rest]|] eqn:R.
    + pose proof R as R'. apply re_match_dmY in R'.
      destruct R' as (dtok' & mtok' & ytok' & E & D' & M' & Y' & ->).
      destruct (dmY_unique _ _ _ _ _ _ _ D M Y D' M' Y' E) as (-> & -> & -> & ->).
      rewrite <- (app_nil_r (dtok ++ _)) at 1 2. rewrite len_rest.
      cbn [negb grp_d grp_m grp_Y].
      rewrite (year_token_int _ Y), (month_token_int _ M), (day_token_int _ D).
      cbn [bind]. apply date_new_valid, V.
    + exfalso. revert R. unfold re_match.
      rewrite <- (app_nil_r (dtok ++ _)).
      apply rmatch_complete; [apply lang_re_dmY; assumption | discriminate].
Qed.

Lemma int_of_str_error s x : int_of_str s = Raise x -> exists msg, x = ValueError msg.
Proof.
  unfold int_of_str. destruct (match strip s with [] => false | _ => _ end);
    [discriminate | intros [= <-]; eauto].
Qed.

Lemma date_new_error y m d x : date_new y m d = Raise x -> exists msg, x = ValueError msg.
Proof.
  unfold date_new.
  repeat match goal with |- context [if ?c then _ else _] => destruct c end;
    try discriminate; intros [= <-]; eauto.
Qed.

(** [strptime] raises nothing but [ValueError]. *)
Lemma strptime_dmY_error s x : strptime_dmY s = Raise x -> exists msg, x = ValueError msg.
Proof.
  unfold strptime_dmY.
  destruct (re_match re_dmY s) as [[gs rest]|]; [|intros [= <-]; eauto].
  destruct (negb _); [intros [= <-]; eauto|].
  destruct (int_of_str (grp_Y gs)) eqn:EY; cbn [bind]; [|intros [= <-]; eapply int_of_str_error, EY].
  destruct (int_of_str (grp_m gs)) eqn:EM; cbn [bind]; [|intros [= <-]; eapply int_of_str_error, EM].
  destruct (int_of_str (grp_d gs)) eqn:ED; cbn [bind]; [|intros [= <-]; eapply int_of_str_error, ED].
  apply date_new_error.
Qed.

Lemma Birthday_ok s dt : Birthday s = Ok dt <-> strptime_dmY s = Ok dt.
Proof.
  unfold Birthday. destruct (strptime_dmY s) as [d|x] eqn:E; [tauto|].
  destruct (strptime_dmY_error s x E) as [msg ->]. split; discriminate.
Qed.

Lemma Birthday_error s x :
  Birthday s = Raise x -> x = ValueError (lit "Invalid date format. Use DD.MM.YYYY").
Proof.
  unfold Birthday. destruct (strptime_dmY s) as [d|y] eqn:E; [discriminate|].
  destruct (strptime_dmY_error s y E) as [msg ->]. intros [= <-]. reflexivity.
Qed.

Lemma digit_value_ascii c : ascii_digit c = true -> digit_value c = Z.of_N c - 48.
Proof.
  unfold ascii_digit, digit_value, decimal_runs. cbn [digit_value_in].
  intros H. rewrite H. apply andb_true_iff in H. rewrite !N.leb_le in H.
  rewrite N.mod_small by lia. lia.
Qed.

Lemma ascii_digit_range c : ascii_digit c = true <-> (48 <= c <= 57)%N.
Proof. unfold ascii_digit. rewrite andb_true_iff, !N.leb_le. tauto. Qed.

Lemma token_value_2 a b :
  ascii_digit a = true -> ascii_digit b = true ->
  token_value [a; b] = 10 * (Z.of_N a - 48) + (Z.of_N b - 48).
Proof.
  intros A B. unfold token_value. rewrite strip_digits.
  - unfold digits_value. cbn [fold_left].
    rewrite (digit_value_ascii a A), (digit_value_ascii b B). lia.
  - cbn [forallb]. rewrite !ascii_digit_decimal by assumption. reflexivity.
Qed.

Lemma days_in_month_max y m : 1 <= m <= 12 -> _days_in_month y m <= 31.
Proof.
  intros H. unfold _days_in_month.
  month_cases m; eval_index; destruct (_is_leap y); eval_bool; lia.
Qed.

Ltac to_N_props :=
  unfold chr_is, chr_in;
  repeat match goal with
    | |- context [N_of_ascii ?a] =>
        let v := eval vm_compute in (N_of_ascii a) in change (N_of_ascii a) with v
    end;
  rewrite ?orb_true_iff, ?andb_true_iff, ?N.eqb_eq, ?N.leb_le.

Lemma day_token_of_value a b :
  ascii_digit a = true -> ascii_digit b = true ->
  1 <= token_value [a; b] <= 31 -> is_day_token [a; b] = true.
Proof.
  intros A B. rewrite (token_value_2 a b A B). intros H.
  cbn [is_day_token]. rewrite (ascii_digit_decimal b B).
  apply ascii_digit_range in A, B. to_N_props. lia.
Qed.

Lemma month_token_of_value a b :
  ascii_digit a = true -> ascii_digit b = true ->
  1 <= token_value [a; b] <= 12 -> is_month_token [a; b] = true.
Proof.
  intros A B. rewrite (token_value_2 a b A B). intros H.
  cbn [is_month_token].
  apply ascii_digit_range in A, B. to_N_props. lia.
Qed.

Ltac dot_digit :=
  match goal with H : ascii_digit 46%N = true |- _ => vm_compute in H; discriminate H end.

(** On the layout DD.MM.YYYY, [Birthday] accepts exactly the real dates. *)
Lemma Birthday_layout s dt :
  layout_DD_MM_YYYY s = true ->
  (Birthday s = Ok dt <-> valid_date (layout_date s) = true /\ dt = layout_date s).
Proof.
  destruct s as [|d1 [|d2 [|p1 [|m1 [|m2 [|p2 [|y1 [|y2 [|y3 [|y4 [|z s]]]]]]]]]]];
    cbn [layout_DD_MM_YYYY]; try discriminate.
  intros L. cbn [forallb] in L. split_bools.
  repeat match goal with
         | H : chr_is "." _ = true |- _ => apply N.eqb_eq in H; cbn in H; subst
         | H : true = true |- _ => clear H
         end.
  unfold layout_date. cbn [firstn skipn].
  assert (Y : is_year_token [y1; y2; y3; y4] = true).
  { cbn [is_year_token]. rewrite !ascii_digit_decimal by assumption. reflexivity. }
  rewrite Birthday_ok, strptime_dmY_ok. split.
  - intros (dtok & mtok & ytok & E & D & M & Y' & V & ->).
    change [d1; d2; 46%N; m1; m2; 46%N; y1; y2; y3; y4]
      with ([d1; d2] ++ 46%N :: [m1; m2] ++ 46%N :: [y1; y2; y3; y4]) in E.
    change (lit ".") with [46%N] in E. cbn [app] in E.
    change (dtok ++ 46%N :: mtok ++ 46%N :: ytok)
      with (dtok ++ 46%N :: (mtok ++ 46%N :: ytok)) in E.
    change [d1; d2; 46%N; m1; m2; 46%N; y1; y2; y3; y4]
      with ([d1; d2] ++ 46%N :: ([m1; m2] ++ 46%N :: [y1; y2; y3; y4])) in E.
    apply split_at_dot in E.
    + destruct E as [<- E]. apply split_at_dot in E.
      * destruct E as [<- <-]. auto.
      * intros [X | [X | []]]; subst; dot_digit.
      * apply month_token_no_dot, M.
    + intros [X | [X | []]]; subst; dot_digit.
    + apply day_token_no_dot, D.
  - intros [V ->]. exists [d1; d2], [m1; m2], [y1; y2; y3; y4].
    pose proof V as V'. apply valid_date_spec in V'. cbn [year month day] in V'.
    destruct V' as (_ & Hm & Hd). cbn [month day year] in Hm, Hd.
    pose proof (days_in_month_max (token_value [y1; y2; y3; y4])
                  (token_value [m1; m2]) Hm).
    repeat split; try assumption.
    + apply day_token_of_value; try assumption. lia.
    + apply month_token_of_value; assumption.
Qed.

(** C5, as the code has it.  [Birthday] accepts exactly the strings made of
    a day, a dot, a month, a dot and a year that name a date of the years
    1 to 9999, where the day is written as [strptime]'s [%d] allows (one or
    two digits; a single digit may have a zero or a blank before it), the
    month as [%m] allows (one or two digits) and the year with four decimal
    digits; every other string raises
    ["Invalid date format. Use DD.MM.YYYY"].  On strings in the layout
    DD.MM.YYYY it accepts exactly those that name a real date:
    ["29.02.2020"] is accepted, ["30.02.2020"] and ["29.02.2021"] are
    refused. *)
Theorem Birthday_spec (s : pystr) :
  (forall dt,
      Birthday s = Ok dt
      <-> exists dtok mtok ytok,
            s = dtok ++ lit "." ++ mtok ++ lit "." ++ ytok
            /\ is_day_token dtok = true /\ is_month_token mtok = true
            /\ is_year_token ytok = true
            /\ valid_date (mkdate (token_value ytok) (token_value mtok)
                                  (token_value dtok)) = true
            /\ dt = mkdate (token_value ytok) (token_value mtok) (token_value dtok))
  /\ (is_ok (Birthday s) = false ->
      Birthday s = Raise (ValueError (lit "Invalid date format. Use DD.MM.YYYY")))
  /\ (layout_DD_MM_YYYY s = true ->
      forall dt,
        Birthday s = Ok dt <-> valid_date (layout_date s) = true /\ dt = layout_date s)
  /\ Birthday (lit "29.02.2020") = Ok (mkdate 2020 2 29)
  /\ Birthday (lit "30.02.2020")
     = Raise (ValueError (lit "Invalid date format. Use DD.MM.YYYY"))
  /\ Birthday (lit "29.02.2021")
     = Raise (ValueError (lit "Invalid date format. Use DD.MM.YYYY")).
Proof.
  split; [intros dt; rewrite Birthday_ok; apply strptime_dmY_ok|].
  split; [|split; [intros L dt; apply Birthday_layout, L
                  |repeat split; vm_compute; reflexivity]].
  destruct (Birthday s) as [d|x] eqn:E; [discriminate|].
  intros _. rewrite (Birthday_error s x E). reflexivity.
Qed.

Lemma Birthday_spec_witness :
  Birthday (lit "31.12.1999") = Ok (mkdate 1999 12 31)
  /\ Birthday (lit "1999-12-31")
     = Raise (ValueError (lit "Invalid date format. Use DD.MM.YYYY")).
Proof.
  split.
  - apply (proj1 (Birthday_spec (lit "31.12.1999"))).
    exists (lit "31"), (lit "12"), (lit "1999"). repeat split.
  - apply (proj1 (proj2 (Birthday_spec (lit "1999-12-31")))). reflexivity.
Defined.

(** C5 as stated fails: a day and a month of one digit each are accepted,
    and the string is not in the layout DD.MM.YYYY. *)
Lemma Birthday_accepts_unpadded :
  Birthday (lit "1.2.2020") = Ok (mkdate 2020 2 1)
  /\ layout_DD_MM_YYYY (lit "1.2.2020") = false.
Proof. split; vm_compute; reflexivity. Qed.

(* ===================================================================== *)
(** * Further properties of the program *)
(* ===================================================================== *)

(** ** Records *)

Lemma find_phone_Some ps raw p :
  find (fun phone => str_eqb phone raw) ps = Some p <-> p = raw /\ In raw ps.
Proof.
  induction ps as [|q ps IH]; cbn [find In].
  - split; [discriminate | intros [_ []]].
  - destruct (str_eqb q raw) eqn:E.
    + apply str_eqb_eq in E. subst q.
      split; [intros [= <-]; auto | intros [-> _]; reflexivity].
    + apply str_eqb_neq in E. rewrite IH. tauto.
Qed.

Lemma find_phone_None ps raw :
  find (fun phone => str_eqb phone raw) ps = None <-> ~ In raw ps.
Proof.
  induction ps as [|q ps IH]; cbn [find In]; [tauto|].
  destruct (str_eqb q raw) eqn:E.
  - apply str_eqb_eq in E. subst q. split; [discriminate | intros H; exfalso; auto].
  - apply str_eqb_neq in E. rewrite IH. tauto.
Qed.

(** [find_phone] returns a phone exactly when the record holds one equal
    to the argument, and the phone it returns is equal to the argument. *)
Theorem find_phone_spec (self : ContactRecord) (raw : pystr) :
  (forall p, Record_find_phone self raw = Some p <-> p = raw /\ In raw (phones self))
  /\ (Record_find_phone self raw = None <-> ~ In raw (phones self)).
Proof.
  unfold Record_find_phone. split; [intros p; apply find_phone_Some | apply find_phone_None].
Qed.

Lemma find_phone_spec_witness :
  Record_find_phone (example_record "Ann" ["1"; "2"]%string None) (lit "2") = Some (lit "2")
  /\ Record_find_phone (example_record "Ann" ["1"; "2"]%string None) (lit "3") = None.
Proof.
  split.
  - apply (proj1 (find_phone_spec _ (lit "2"))). split; [reflexivity|].
    right. left. reflexivity.
  - apply (proj2 (find_phone_spec _ (lit "3"))).
    intros [H | [H | []]]; discriminate H.
Defined.

(** [add_phone] with a valid phone puts it after the phones the record
    has, whether or not it is among them; the phone is then found, and
    removing it from a record that did not have it gives the record back.
    With an invalid phone it raises and the record is as before. *)
Theorem add_phone_spec (self : ContactRecord) (raw : pystr) :
  (is_ok (Phone raw) = true ->
   Record_add_phone raw self = (set_phones self (phones self ++ [raw]), Ok tt)
   /\ Record_find_phone (fst (Record_add_phone raw self)) raw = Some raw
   /\ (~ In raw (phones self) ->
       fst (Record_remove_phone raw (fst (Record_add_phone raw self))) = self))
  /\ (is_ok (Phone raw) = false ->
      Record_add_phone raw self
      = (self, Raise (ValueError (lit "Phone must be 10 digits")))).
Proof.
  unfold Record_add_phone.
  destruct (Phone_cases raw) as [P | P]; rewrite P; cbn [is_ok]; split;
    try discriminate; try reflexivity.
  intros _. cbn [fst]. split; [reflexivity|]. split.
  - unfold Record_find_phone. apply find_phone_Some. split; [reflexivity|].
    cbn [set_phones phones]. apply in_or_app. right. left. reflexivity.
  - intros N. unfold Record_remove_phone. cbn [fst set_phones phones name birthday].
    rewrite (remove_phone_loop_first (phones self) raw [] N), app_nil_r.
    destruct self. reflexivity.
Qed.

Lemma add_phone_spec_witness :
  fst (Record_remove_phone (lit "0501234567")
         (fst (Record_add_phone (lit "0501234567")
                 (example_record "Ann" ["1111111111"%string] None))))
  = example_record "Ann" ["1111111111"%string] None
  /\ Record_add_phone (lit "050") (example_record "Ann" [] None)
     = (example_record "Ann" [] None, Raise (ValueError (lit "Phone must be 10 digits"))).
Proof.
  split.
  - apply (proj1 (add_phone_spec (example_record "Ann" ["1111111111"%string] None)
                    (lit "0501234567"))); [reflexivity|].
    intros [H | []]. discriminate H.
  - apply (proj2 (add_phone_spec (example_record "Ann" [] None) (lit "050"))).
    reflexivity.
Defined.

Lemma edit_phone_loop_length ps old new ps' :
  edit_phone_loop ps old new = Ok ps' -> length ps' = length ps /\ In new ps'.
Proof.
  revert ps'. induction ps as [|p ps IH]; intros ps'; cbn [edit_phone_loop]; [discriminate|].
  destruct (str_eqb p old).
  - destruct (Phone_cases new) as [P | P]; rewrite P; cbn [bind]; [|discriminate].
    intros [= <-]. split; [reflexivity | left; reflexivity].
  - destruct (edit_phone_loop ps old new) as [r|x]; cbn [bind]; [|discriminate].
    intros [= <-]. destruct (IH r eq_refl) as [L I].
    split; [cbn [length]; lia | right; exact I].
Qed.

(** No operation of a record changes its name; the operations on phones
    leave the birthday alone and [add_birthday] leaves the phones alone;
    [edit_phone] keeps the number of phones; an operation that raises
    leaves the whole record as it was. *)
Theorem record_ops_frame (op : record_op) (self : ContactRecord) :
  let self' := fst (run_record_op op self) in
  name self' = name self
  /\ ((forall raw, op <> OpAddBirthday raw) -> birthday self' = birthday self)
  /\ ((forall raw, op <> OpAddPhone raw) -> (forall raw, op <> OpRemovePhone raw) ->
      length (phones self') = length (phones self))
  /\ ((forall raw, op <> OpAddPhone raw) -> (forall raw, op <> OpRemovePhone raw) ->
      (forall a b, op <> OpEditPhone a b) -> phones self' = phones self)
  /\ (is_ok (snd (run_record_op op self)) = false -> self' = self).
Proof.
  cbv zeta. split; [apply run_record_op_name|].
  destruct op as [raw | raw | a b | raw | raw | |]; cbn [run_record_op].
  - unfold Record_add_phone. destruct (Phone raw); cbn [fst snd is_ok].
    + repeat split; try reflexivity; try discriminate.
      all: intros H; exfalso; apply (H raw); reflexivity.
    + repeat split; reflexivity.
  - unfold Record_remove_phone. cbn [fst snd is_ok].
    repeat split; try reflexivity; try discriminate.
    all: intros _ H; exfalso; apply (H raw); reflexivity.
  - unfold Record_edit_phone.
    destruct (edit_phone_loop (phones self) a b) as [ps|x] eqn:E; cbn [fst snd is_ok].
    + repeat split; try reflexivity; try discriminate.
      * intros _ _. apply (edit_phone_loop_length _ _ _ _ E).
      * intros _ _ H. exfalso. apply (H a b). reflexivity.
    + repeat split; reflexivity.
  - cbn [fst snd is_ok]. repeat split; try reflexivity; discriminate.
  - unfold Record_add_birthday. destruct (Birthday raw); cbn [fst snd is_ok].
    + repeat split; try reflexivity; try discriminate.
      intros H. exfalso. apply (H raw). reflexivity.
    + repeat split; reflexivity.
  - cbn [fst snd is_ok]. repeat split; try reflexivity; discriminate.
  - cbn [fst snd is_ok]. repeat split; try reflexivity; discriminate.
Qed.

Lemma record_ops_frame_witness :
  fst (run_record_op (OpEditPhone (lit "1111111111") (lit "bad"))
         (example_record "Ann" ["1111111111"%string] (Some (mkdate 1990 1 3))))
  = example_record "Ann" ["1111111111"%string] (Some (mkdate 1990 1 3)).
Proof.
  apply (proj2 (proj2 (proj2 (proj2 (record_ops_frame
           (OpEditPhone (lit "1111111111") (lit "bad"))
           (example_record "Ann" ["1111111111"%string] (Some (mkdate 1990 1 3)))))))).
  reflexivity.
Defined.

(** ** The directory *)

Lemma reachable_book_invariant book : reachable book -> book_invariant book.
Proof.
  intros [ops ->].
  assert (G : forall b, book_invariant b -> book_invariant (fold_left run_book_op ops b)).
  { induction ops as [|op ops IH]; intros b Hb; cbn [fold_left]; [exact Hb|].
    apply IH, run_book_op_invariant, Hb. }
  apply G. split; [intros k v [] | constructor].
Qed.

Lemma dict_pop_get book key :
  NoDup (map fst book) -> dict_get (dict_pop book key) key = None.
Proof.
  induction book as [|[k v] book IH]; cbn [dict_pop map fst]; [reflexivity|].
  intros H. inversion H as [|? ? Hn Hd]; subst.
  destruct (str_eqb k key) eqn:E.
  - apply str_eqb_eq in E. subst k. apply dict_get_None, Hn.
  - cbn [dict_get]. rewrite E. apply IH, Hd.
Qed.

Lemma dict_pop_get_other book key other :
  other <> key -> dict_get (dict_pop book key) other = dict_get book other.
Proof.
  intros Hne. induction book as [|[k v] book IH]; cbn [dict_pop dict_get]; [reflexivity|].
  destruct (str_eqb k key) eqn:E.
  - apply str_eqb_eq in E. subst k.
    replace (str_eqb key other) with false; [reflexivity|].
    symmetry. apply str_eqb_neq. congruence.
  - cbn [dict_get]. rewrite IH. reflexivity.
Qed.

Lemma dict_pop_absent book key : dict_get book key = None -> dict_pop book key = book.
Proof.
  induction book as [|[k v] book IH]; cbn [dict_pop dict_get]; [reflexivity|].
  destruct (str_eqb k key); [discriminate|]. intros H. rewrite IH by exact H. reflexivity.
Qed.

Lemma dict_pop_last book key value :
  dict_get book key = None -> dict_pop (book ++ [(key, value)]) key = book.
Proof.
  induction book as [|[k v] book IH]; cbn [dict_pop dict_get app].
  - rewrite str_eqb_refl. reflexivity.
  - destruct (str_eqb k key); [discriminate|]. intros H. rewrite IH by exact H. reflexivity.
Qed.

(** In a book built by the operations, [delete] removes the entry of the
    name, so that [find] no longer returns it, and touches no other entry;
    on a name that is not in the book it changes nothing. *)
Theorem delete_spec (book : AddressBook) (nm : pystr) :
  reachable book ->
  AddressBook_find (AddressBook_delete book nm) nm = None
  /\ (forall other, other <> nm ->
        AddressBook_find (AddressBook_delete book nm) other = AddressBook_find book other)
  /\ (AddressBook_find book nm = None -> AddressBook_delete book nm = book)
  /\ reachable (AddressBook_delete book nm).
Proof.
  intros R. pose proof (reachable_book_invariant book R) as [_ Hkeys].
  unfold AddressBook_find, AddressBook_delete.
  split; [apply dict_pop_get, Hkeys|].
  split; [intros other H; apply dict_pop_get_other, H|].
  split; [apply dict_pop_absent|].
  destruct R as [ops ->]. exists (ops ++ [OpDelete nm]).
  rewrite fold_left_app. reflexivity.
Qed.

Lemma delete_spec_witness :
  AddressBook_find
    (AddressBook_delete [(lit "Ann", Record_init (lit "Ann")); (lit "Bob", Record_init (lit "Bob"))]
       (lit "Ann")) (lit "Ann") = None.
Proof.
  apply (delete_spec [(lit "Ann", Record_init (lit "Ann")); (lit "Bob", Record_init (lit "Bob"))]
           (lit "Ann")).
  exists [OpAddRecord (Record_init (lit "Ann")); OpAddRecord (Record_init (lit "Bob"))].
  reflexivity.
Defined.

(** Adding a record under a name the book does not have and deleting that
    name gives the book back, order included. *)
Theorem add_record_then_delete (book : AddressBook) (record : ContactRecord) :
  AddressBook_find book (name record) = None ->
  AddressBook_delete (AddressBook_add_record book record) (name record) = book.
Proof.
  unfold AddressBook_find, AddressBook_delete, AddressBook_add_record. intros H.
  rewrite dict_set_new by exact H. apply dict_pop_last, H.
Qed.

Lemma add_record_then_delete_witness :
  AddressBook_delete (AddressBook_add_record example_book (Record_init (lit "Eve"))) (lit "Eve")
  = example_book.
Proof. apply (add_record_then_delete example_book (Record_init (lit "Eve"))). reflexivity. Defined.

(** ** Weekdays *)

(** [find_next_weekday] returns a date of the weekday asked for, between
    one and seven days after the start date and never the start date
    itself, and no date in between has that weekday; it returns for every
    start date before the year 9999. *)
Theorem find_next_weekday_spec (start_date : date) (wd : Z) :
  0 <= wd <= 6 ->
  (forall r, find_next_weekday start_date wd = Ok r ->
     weekday r = wd
     /\ 1 <= days_between r start_date <= 7
     /\ valid_date r = true
     /\ (weekday start_date = wd -> days_between r start_date = 7)
     /\ forall j c, 0 < j < days_between r start_date ->
                    date_add_days start_date j = Ok c -> weekday c <> wd)
  /\ (valid_date start_date = true -> year start_date < 9999 ->
      is_ok (find_next_weekday start_date wd) = true).
Proof.
  intros W. pose proof (weekday_range start_date) as R.
  unfold find_next_weekday. split.
  - intros r. cbv zeta.
    destruct (wd - weekday start_date <=? 0) eqn:E;
      [apply Z.leb_le in E | apply Z.leb_gt in E]; intros H;
      pose proof (date_add_days_ok _ _ _ H) as [T V];
      pose proof (weekday_add_days _ _ _ H) as WD;
      unfold days_between; rewrite T;
      (split; [rewrite WD; Z.div_mod_to_equations; lia|]);
      (split; [lia|]); (split; [exact V|]); (split; [lia|]);
      intros j c Hj Hc; rewrite (weekday_add_days _ _ _ Hc);
      Z.div_mod_to_equations; lia.
  - intros V Y. pose proof (valid_date_ordinal _ V) as B.
    apply valid_date_spec in V. destruct V as [_ V].
    pose proof (toordinal_year_bounds _ V) as B'.
    pose proof (days_before_year_mono (year start_date + 1) 9999 ltac:(lia)) as M.
    change (_days_before_year 9999) with 3651694 in M.
    unfold date_add_days, _MAXORDINAL in *.
    replace ((0 <? _) && _) with true; [reflexivity|].
    symmetry. apply andb_true_iff. rewrite Z.ltb_lt, Z.leb_le.
    destruct (wd - weekday start_date <=? 0) eqn:E;
      [apply Z.leb_le in E | apply Z.leb_gt in E]; lia.
Qed.

Lemma find_next_weekday_spec_witness :
  exists r, find_next_weekday (mkdate 2024 1 1) 0 = Ok r
            /\ weekday r = 0 /\ days_between r (mkdate 2024 1 1) = 7.
Proof.
  exists (mkdate 2024 1 8). split; [reflexivity|].
  destruct (proj1 (find_next_weekday_spec (mkdate 2024 1 1) 0 ltac:(lia))
              (mkdate 2024 1 8) eq_refl) as (H1 & _ & _ & H4 & _).
  split; [exact H1 | apply H4; reflexivity].
Defined.

(** ** The order of dates and the window *)

Lemma days_before_month_step y m :
  1 <= m <= 11 ->
  _days_before_month y (m + 1) = _days_before_month y m + _days_in_month y m.
Proof.
  intros H. unfold _days_before_month, _days_in_month.
  month_cases m; cbn [Z.add Pos.add Pos.succ]; eval_index;
    destruct (_is_leap y); eval_bool; lia.
Qed.

Lemma date_ltb_trichotomy a b :
  date_ltb a b = false -> a = b \/ date_ltb b a = true.
Proof.
  destruct a as [y m d], b as [y' m' d']. unfold date_ltb. cbn [year month day].
  rewrite !orb_false_iff, !andb_false_iff, !orb_false_iff, !andb_false_iff,
    !Z.ltb_ge, !Z.eqb_neq.
  intros H.
  destruct (Z.eq_dec y y') as [-> | Ny];
    [destruct (Z.eq_dec m m') as [-> | Nm];
     [destruct (Z.eq_dec d d') as [-> | Nd]|]|].
  - left. reflexivity.
  - right. rewrite !orb_true_iff, !andb_true_iff, !orb_true_iff, !andb_true_iff,
      !Z.ltb_lt, !Z.eqb_eq. lia.
  - right. rewrite !orb_true_iff, !andb_true_iff, !orb_true_iff, !andb_true_iff,
      !Z.ltb_lt, !Z.eqb_eq. lia.
  - right. rewrite !orb_true_iff, !andb_true_iff, !orb_true_iff, !andb_true_iff,
      !Z.ltb_lt, !Z.eqb_eq. lia.
Qed.

Lemma date_ltb_toordinal_lt a b :
  valid_md a -> valid_md b -> date_ltb a b = true -> toordinal a < toordinal b.
Proof.
  intros Va Vb. unfold date_ltb.
  rewrite !orb_true_iff, !andb_true_iff, !orb_true_iff, !andb_true_iff,
    !Z.ltb_lt, !Z.eqb_eq.
  intros [Hy | [Hy H]].
  - pose proof (toordinal_year_bounds a Va). pose proof (toordinal_year_bounds b Vb).
    pose proof (days_before_year_mono (year a + 1) (year b) ltac:(lia)). lia.
  - destruct a as [y m d], b as [y' m' d']. cbn [year month day] in *. subst y'.
    destruct Va as [Hm Hd], Vb as [Hm' Hd']. cbn [year month day] in *.
    unfold toordinal, _ymd2ord. cbn [year month day].
    destruct H as [H | [-> H]]; [|lia].
    unfold _days_before_month, _days_in_month in *.
    destruct (_is_leap y);
      month_cases m; eval_index; eval_bool; month_cases m'; eval_index; eval_bool; lia.
Qed.

(** The order of dates is the order of their ordinals. *)
Lemma date_ltb_toordinal a b :
  valid_md a -> valid_md b -> (date_ltb a b = true <-> toordinal a < toordinal b).
Proof.
  intros Va Vb. split; [apply date_ltb_toordinal_lt; assumption|].
  intros H. destruct (date_ltb a b) eqn:E; [reflexivity|].
  apply date_ltb_trichotomy in E. destruct E as [-> | E]; [lia|].
  apply date_ltb_toordinal_lt in E; [lia | assumption | assumption].
Qed.

Lemma projected_next_year b y :
  valid_md (projected b y) -> valid_md (projected b (y + 1)) ->
  365 <= toordinal (projected b (y + 1)) - toordinal (projected b y) <= 366.
Proof.
  unfold valid_md, projected, toordinal, _ymd2ord. cbn [year month day].
  intros [Hm Hd] [_ Hd'].
  rewrite days_before_year_succ. unfold _days_before_month, _days_in_month in *.
  assert (L : _is_leap y = true -> _is_leap (y + 1) = false).
  { intros L. apply is_leap_spec in L.
    destruct (_is_leap (y + 1)) eqn:L'; [|reflexivity].
    apply is_leap_spec in L'. exfalso. Z.div_mod_to_equations. lia. }
  destruct (_is_leap y) eqn:Ly; [rewrite (L eq_refl) | destruct (_is_leap (y + 1))];
    destruct (2 <? month b); unfold b2z; cbn [andb]; lia.
Qed.

(** The date [get_upcoming_birthdays] projects a birthday on is never
    before the reference date and less than a year after it: the test
    [0 <= delta] of the loop always holds, and a record is included exactly
    when [delta <= days]. *)
Theorem birthday_this_year_ahead (today b this_year : date) :
  valid_date today = true ->
  birthday_this_year today b = Ok this_year ->
  0 <= days_between this_year today <= 365.
Proof.
  intros V H. apply birthday_this_year_ok in H. destruct H as [D ->].
  unfold projection_defined in D. apply andb_true_iff in D. destruct D as [D1 D2].
  apply valid_date_spec in V, D1, D2. destruct V as [_ V], D1 as [_ D1], D2 as [_ D2].
  unfold days_between, this_year_spec in *.
  destruct (date_ltb (projected b (year today)) today) eqn:E.
  - apply (date_ltb_toordinal _ _ D1 V) in E.
    pose proof (projected_next_year b (year today) D1 D2).
    pose proof (toordinal_year_bounds _ V) as B1.
    pose proof (toordinal_year_bounds _ D2) as B2.
    cbn [projected year] in B2. lia.
  - assert (~ toordinal (projected b (year today)) < toordinal today) as N.
    { intros N. apply (date_ltb_toordinal _ _ D1 V) in N. congruence. }
    pose proof (toordinal_year_bounds _ D1) as B1.
    pose proof (toordinal_year_bounds _ V) as B2.
    cbn [projected year] in B1. rewrite days_before_year_succ in *.
    destruct (_is_leap (year today)); unfold b2z in *; lia.
Qed.

Lemma birthday_this_year_ahead_witness :
  0 <= days_between (mkdate 2025 12 25) (mkdate 2024 12 26) <= 365.
Proof.
  apply (birthday_this_year_ahead (mkdate 2024 12 26) (mkdate 1990 12 25) (mkdate 2025 12 25));
    reflexivity.
Defined.


(** The date of every entry [get_upcoming_birthdays] returns is the
    rendering of a date from Monday to Friday that lies between the
    reference date and two days after the end of the window. *)
Theorem congratulation_date_range
        (book : AddressBook) (today : date) (days : Z) (l : list entry) (e : entry) :
  get_upcoming_birthdays book today days = Ok l -> In e l ->
  exists c,
    congratulation_date e = strftime_dmY c
    /\ valid_date c = true
    /\ weekday c < 5
    /\ 0 <= days_between c today <= days + 2.
Proof.
  intros H Hin. unfold get_upcoming_birthdays in H.
  apply upcoming_loop_inv in H. destruct H as (l' & -> & Hl').
  destruct (Hl' e Hin) as (record & _ & E).
  apply upcoming_entry_inv in E. destruct E as (b & c & Hb & D & W & A & ->).
  destruct (adjust_for_weekend_spec _ (this_year_spec_valid _ _ D))
    as (c' & A' & V & S1 & S2).
  assert (c' = c) as -> by congruence.
  exists c. split; [reflexivity|]. split; [exact V|].
  unfold in_window in W. rewrite Hb in W. cbv zeta in W.
  apply andb_true_iff in W. rewrite !Z.leb_le in W.
  pose proof (weekday_range (this_year_spec today b)) as R.
  destruct (Z_lt_ge_dec (weekday (this_year_spec today b)) 5) as [Lt | Ge].
  - rewrite (S1 Lt). split; lia.
  - destruct (S2 ltac:(lia)) as (k & Hk & Add & Mon & _ & Sat & Sun).
    apply date_add_days_ok in Add. destruct Add as [T _].
    unfold days_between in *. rewrite T, Mon.
    assert (k <= 2) by (destruct (Z.eq_dec (weekday (this_year_spec today b)) 5);
                        [rewrite Sat by assumption | rewrite Sun by lia]; lia).
    split; lia.
Qed.

Lemma congratulation_date_range_witness :
  exists c, lit "08.01.2024" = strftime_dmY c /\ valid_date c = true /\ weekday c < 5
            /\ 0 <= days_between c (mkdate 2024 1 1) <= 7 + 2.
Proof.
  apply (congratulation_date_range example_book (mkdate 2024 1 1) 7
           [mkentry (lit "Ann") (lit "03.01.2024"); mkentry (lit "Bob") (lit "08.01.2024")]
           (mkentry (lit "Bob") (lit "08.01.2024"))).
  - vm_compute. reflexivity.
  - right. left. reflexivity.
Defined.

(** ** Rendering a birthday and reading it back *)


Lemma year_text y :
  1000 <= y <= 9999 ->
  exists a b c d,
    str_of_int y = [a; b; c; d]
    /\ forallb ascii_digit [a; b; c; d] = true /\ token_value [a; b; c; d] = y.
Proof.
  intros H.
  assert (K : year_text_ok y = true).
  { apply (range_forallb year_text_ok (Z.to_nat 10000)); [vm_compute; reflexivity | lia]. }
  unfold year_text_ok in K. replace (y <? 1000) with false in K by (symmetry; apply Z.ltb_ge; lia).
  cbn [orb] in K.
  destruct (str_of_int y) as [|a [|b [|c [|d [|e t]]]]]; try discriminate K.
  apply andb_true_iff in K. destruct K as [K1 K2]. apply Z.eqb_eq in K2.
  exists a, b, c, d. auto.
Qed.

Lemma pad2_text n :
  0 <= n <= 99 ->
  exists a b, pad2 n = [a; b] /\ ascii_digit a = true /\ ascii_digit b = true
              /\ token_value [a; b] = n.
Proof.
  intros H.
  assert (K : pad2_ok n = true).
  { apply (range_forallb pad2_ok 100); [vm_compute; reflexivity | lia]. }
  unfold pad2_ok in K.
  destruct (pad2 n) as [|a [|b [|c t]]]; try discriminate K.
  apply andb_true_iff in K. destruct K as [K K3].
  apply andb_true_iff in K. destruct K as [K1 K2]. apply Z.eqb_eq in K3.
  exists a, b. auto.
Qed.

Lemma token_value_4 a b c d :
  forallb ascii_digit [a; b; c; d] = true ->
  token_value [a; b; c; d]
  = 1000 * (Z.of_N a - 48) + 100 * (Z.of_N b - 48) + 10 * (Z.of_N c - 48) + (Z.of_N d - 48).
Proof.
  intros H. cbn [forallb] in H. rewrite andb_true_r in H. split_bools.
  unfold token_value. rewrite strip_digits.
  - unfold digits_value. cbn [fold_left].
    rewrite !digit_value_ascii by assumption. lia.
  - cbn [forallb]. rewrite !ascii_digit_decimal by assumption. reflexivity.
Qed.

Lemma strftime_layout d :
  valid_date d = true -> 1000 <= year d ->
  layout_DD_MM_YYYY (strftime_dmY d) = true /\ layout_date (strftime_dmY d) = d.
Proof.
  intros V Y. apply valid_date_spec in V. destruct V as [Yr [Hm Hd]].
  pose proof (days_in_month_max (year d) (month d) Hm) as Mx.
  destruct (year_text (year d)) as (y1 & y2 & y3 & y4 & Ey & Dy & Vy); [lia|].
  destruct (pad2_text (month d)) as (m1 & m2 & Em & Dm1 & Dm2 & Vm); [lia|].
  destruct (pad2_text (day d)) as (d1 & d2 & Ed & Dd1 & Dd2 & Vd); [lia|].
  unfold strftime_dmY. rewrite Ey, Em, Ed. change (lit ".") with [46%N]. cbn [app].
  cbn [forallb] in Dy. rewrite andb_true_r in Dy. split_bools.
  split.
  - cbn [layout_DD_MM_YYYY forallb].
    repeat match goal with H : ascii_digit _ = true |- _ => rewrite H; clear H end.
    reflexivity.
  - unfold layout_date. cbn [firstn skipn]. rewrite Vy, Vm, Vd. destruct d. reflexivity.
Qed.

Lemma two_digits_inj a b a' b' :
  ascii_digit a = true -> ascii_digit b = true ->
  ascii_digit a' = true -> ascii_digit b' = true ->
  token_value [a; b] = token_value [a'; b'] -> a = a' /\ b = b'.
Proof.
  intros A B A' B'. rewrite !token_value_2 by assumption.
  apply ascii_digit_range in A, B, A', B'. lia.
Qed.

Lemma four_digits_inj a b c d a' b' c' d' :
  forallb ascii_digit [a; b; c; d] = true -> forallb ascii_digit [a'; b'; c'; d'] = true ->
  token_value [a; b; c; d] = token_value [a'; b'; c'; d'] ->
  [a; b; c; d] = [a'; b'; c'; d'].
Proof.
  intros H H'. rewrite !token_value_4 by assumption.
  cbn [forallb] in H, H'. rewrite andb_true_r in H, H'. split_bools.
  repeat match goal with H : ascii_digit _ = true |- _ => apply ascii_digit_range in H end.
  intros E. assert (a = a' /\ b = b' /\ c = c' /\ d = d') as (-> & -> & -> & ->) by lia.
  reflexivity.
Qed.

Lemma layout_date_inj s s' :
  layout_DD_MM_YYYY s = true -> layout_DD_MM_YYYY s' = true ->
  layout_date s = layout_date s' -> s = s'.
Proof.
  destruct s as [|d1 [|d2 [|p1 [|m1 [|m2 [|p2 [|y1 [|y2 [|y3 [|y4 [|z s]]]]]]]]]]];
    cbn [layout_DD_MM_YYYY]; try discriminate.
  destruct s' as [|e1 [|e2 [|q1 [|n1 [|n2 [|q2 [|z1 [|z2 [|z3 [|z4 [|z s']]]]]]]]]]];
    cbn [layout_DD_MM_YYYY]; try discriminate.
  intros L L'. unfold layout_date. cbn [firstn skipn]. intros [= Ey Em Ed].
  cbn [forallb] in L, L'. rewrite andb_true_r in L, L'. split_bools.
  repeat match goal with
         | H : chr_is "." _ = true |- _ => apply N.eqb_eq in H; cbn in H; subst
         end.
  apply two_digits_inj in Ed; try assumption. destruct Ed as [-> ->].
  apply two_digits_inj in Em; try assumption. destruct Em as [-> ->].
  apply four_digits_inj in Ey.
  - injection Ey as -> -> -> ->. reflexivity.
  - cbn [forallb]. close_bools.
  - cbn [forallb]. close_bools.
Qed.

Lemma strftime_of_layout s d :
  layout_DD_MM_YYYY s = true -> Birthday s = Ok d -> 1000 <= year d -> strftime_dmY d = s.
Proof.
  intros L B Y. apply (Birthday_layout _ d L) in B. destruct B as [V ->].
  destruct (strftime_layout _ V Y) as [L' E'].
  apply layout_date_inj; assumption.
Qed.

(** From the year 1000 on, the rendering of a date is in the layout
    DD.MM.YYYY and [Birthday] reads it back as the same date; and a string
    in that layout that [Birthday] accepts is the rendering of its date.
    On such strings parsing and rendering are inverse to each other. *)
Theorem birthday_round_trip :
  (forall d, valid_date d = true -> 1000 <= year d ->
             layout_DD_MM_YYYY (strftime_dmY d) = true
             /\ Birthday (strftime_dmY d) = Ok d)
  /\ (forall s d, layout_DD_MM_YYYY s = true -> Birthday s = Ok d -> 1000 <= year d ->
                  strftime_dmY d = s).
Proof.
  split.
  - intros d V Y. destruct (strftime_layout d V Y) as [L E].
    split; [exact L|]. apply (Birthday_layout _ d L). rewrite E. auto.
  - apply strftime_of_layout.
Qed.

Lemma birthday_round_trip_witness :
  Birthday (strftime_dmY (mkdate 2020 2 29)) = Ok (mkdate 2020 2 29)
  /\ strftime_dmY (mkdate 1990 1 6) = lit "06.01.1990".
Proof.
  split.
  - apply (proj1 birthday_round_trip (mkdate 2020 2 29)); [reflexivity | cbn; lia].
  - apply (proj2 birthday_round_trip (lit "06.01.1990") (mkdate 1990 1 6));
      [reflexivity | reflexivity | cbn; lia].
Defined.

(** [add_birthday] with a string [Birthday] accepts sets the birthday,
    whatever it was before, and [show_birthday] then returns the rendering
    of the date: for a string in the layout DD.MM.YYYY with a year from
    1000 on, the string itself.  With any other string it raises and the
    birthday is as before. *)
Theorem add_birthday_show (self : ContactRecord) (s : pystr) :
  (forall d, Birthday s = Ok d ->
     Record_add_birthday s self = (set_birthday self (Some d), Ok tt)
     /\ Record_show_birthday (fst (Record_add_birthday s self)) = Some (strftime_dmY d)
     /\ (layout_DD_MM_YYYY s = true -> 1000 <= year d ->
         Record_show_birthday (fst (Record_add_birthday s self)) = Some s))
  /\ (is_ok (Birthday s) = false ->
      Record_add_birthday s self
      = (self, Raise (ValueError (lit "Invalid date format. Use DD.MM.YYYY")))).
Proof.
  unfold Record_add_birthday. split.
  - intros d B. rewrite B. cbn [fst]. split; [reflexivity|].
    unfold Record_show_birthday. cbn [set_birthday birthday].
    split; [reflexivity|]. intros L Y.
    rewrite (strftime_of_layout s d L B Y). reflexivity.
  - destruct (Birthday s) as [d|x] eqn:B; [discriminate|]. intros _.
    rewrite (Birthday_error s x B). reflexivity.
Qed.

Lemma add_birthday_show_witness :
  Record_show_birthday
    (fst (Record_add_birthday (lit "06.01.1990") (example_record "Bob" [] None)))
  = Some (lit "06.01.1990")
  /\ Record_add_birthday (lit "1990-01-06") (example_record "Bob" [] (Some (mkdate 2000 1 1)))
     = (example_record "Bob" [] (Some (mkdate 2000 1 1)),
        Raise (ValueError (lit "Invalid date format. Use DD.MM.YYYY"))).
Proof.
  split.
  - apply (proj1 (add_birthday_show (example_record "Bob" [] None) (lit "06.01.1990"))
             (mkdate 1990 1 6)); [reflexivity | reflexivity | cbn; lia].
  - apply (proj2 (add_birthday_show (example_record "Bob" [] (Some (mkdate 2000 1 1)))
                    (lit "1990-01-06"))).
    reflexivity.
Defined.

(** ** The handlers *)


Lemma run_handler_eq today h args :
  run_handler today h args = input_error (handler_func today h args).
Proof. destruct h; reflexivity. Qed.

Lemma edit_phone_loop_error ps old new x :
  edit_phone_loop ps old new = Raise x -> exists msg, x = ValueError msg.
Proof.
  induction ps as [|p ps IH]; cbn [edit_phone_loop]; [intros [= <-]; eauto|].
  destruct (str_eqb p old).
  - destruct (Phone_cases new) as [P | P]; rewrite P; cbn [bind];
      [discriminate | intros [= <-]; eauto].
  - destruct (edit_phone_loop ps old new); cbn [bind]; [discriminate|].
    intros [= <-]. apply IH. reflexivity.
Qed.

Lemma upcoming_entry_error today days record x :
  upcoming_entry today days record = Raise x -> exists msg, x = ValueError msg.
Proof.
  intros H. destruct (birthday record) as [b|] eqn:Hb.
  - destruct (projection_defined today b) eqn:D.
    + destruct (upcoming_entry_defined today days record b Hb D) as (c & _ & E).
      rewrite E in H. discriminate.
    + destruct (birthday_this_year_undefined today b D) as [msg E].
      unfold upcoming_entry in H. rewrite Hb, E in H. injection H as <-. eauto.
  - apply (upcoming_entry_no_birthday today days) in Hb. destruct Hb as [E _].
    rewrite E in H. discriminate.
Qed.

Lemma upcoming_loop_error today days records :
  forall acc x, upcoming_loop today days records acc = Raise x -> exists msg, x = ValueError msg.
Proof.
  induction records as [|r records IH]; intros acc x; cbn [upcoming_loop]; [discriminate|].
  destruct (upcoming_entry today days r) as [o|y] eqn:E; cbn [bind].
  - apply IH.
  - intros [= <-]. eapply upcoming_entry_error, E.
Qed.

Lemma handler_func_error today h args book x :
  snd (handler_func today h args book) = Raise x -> exists msg, x = ValueError msg.
Proof.
  destruct h; cbn [handler_func].
  - unfold add_contact_func. destruct args as [|nm [|phone rest]];
      [intros [= <-]; unfold unpack_error; eauto ..|].
    destruct (AddressBook_find book nm); destruct (str_bool phone);
      try discriminate; unfold Record_add_phone;
      destruct (Phone_cases phone) as [P | P]; rewrite P; cbn [snd bind];
      try discriminate; intros [= <-]; eauto.
  - unfold change_contact_func. destruct args as [|nm [|a [|b rest]]];
      [intros [= <-]; unfold unpack_error; eauto ..|].
    destruct (AddressBook_find book nm) as [record|]; [|discriminate].
    unfold Record_edit_phone.
    destruct (edit_phone_loop (phones record) a b) as [ps|y] eqn:E; cbn [snd bind];
      [discriminate|]. intros [= <-]. eapply edit_phone_loop_error, E.
  - unfold show_phone_func. destruct args as [|nm rest];
      [intros [= <-]; unfold unpack_error; eauto|].
    destruct (AddressBook_find book nm); discriminate.
  - unfold add_birthday_func. destruct args as [|nm [|s rest]];
      [intros [= <-]; unfold unpack_error; eauto ..|].
    destruct (AddressBook_find book nm) as [record|]; [|discriminate].
    unfold Record_add_birthday. destruct (Birthday s) as [d|y] eqn:B; cbn [snd bind];
      [discriminate|]. intros [= <-]. rewrite (Birthday_error s y B). eauto.
  - unfold show_birthday_func. destruct args as [|nm rest];
      [intros [= <-]; unfold unpack_error; eauto|].
    destruct (AddressBook_find book nm) as [record|]; [|discriminate].
    destruct (Record_show_birthday record) as [[|c s]|]; discriminate.
  - unfold birthdays_func, get_upcoming_birthdays.
    destruct (upcoming_loop today 7 (dict_values book) []) as [[|e l]|y] eqn:E;
      cbn [snd]; try discriminate.
    intros [= <-]. eapply upcoming_loop_error, E.
Qed.

Lemma handler_func_short today h args book :
  len args < handler_arity h ->
  handler_func today h args book = (book, Raise (unpack_error (handler_arity h) args)).
Proof.
  unfold len. destruct h; cbn [handler_func handler_arity];
    destruct args as [|a [|b [|c rest]]]; cbn [length]; intros H; try lia; reflexivity.
Qed.

(** Whatever a handler raises is a [ValueError], so the wrapper returns its
    message after ["Error: "]: the branches of [input_error] for
    [IndexError] and for other exceptions are never taken, and no handler
    returns ["Error: missing arguments"] for missing arguments.  With fewer
    arguments than it unpacks, a handler leaves the book as it is and
    returns the message of the failed unpacking. *)
Theorem handler_errors (today : date) (h : handler) (args : list pystr)
        (book : AddressBook) :
  (forall x, snd (handler_func today h args book) = Raise x ->
     exists msg, x = ValueError msg
                 /\ snd (run_handler today h args book) = lit "Error: " ++ msg)
  /\ (len args < handler_arity h ->
      run_handler today h args book
      = (book,
         lit "Error: not enough values to unpack (expected at least "
         ++ str_of_int (handler_arity h) ++ lit ", got " ++ str_of_int (len args)
         ++ lit ")")).
Proof.
  rewrite run_handler_eq. unfold input_error. split.
  - intros x H. destruct (handler_func_error today h args book x H) as [msg ->].
    exists msg. split; [reflexivity|].
    destruct (handler_func today h args book) as [book' r]. cbn [snd] in *.
    rewrite H. reflexivity.
  - intros H. rewrite (handler_func_short today h args book H). reflexivity.
Qed.

Lemma handler_errors_witness :
  run_handler (mkdate 2024 1 1) H_add_contact [lit "Bob"] example_book
  = (example_book, lit "Error: not enough values to unpack (expected at least 2, got 1)").
Proof.
  apply (proj2 (handler_errors (mkdate 2024 1 1) H_add_contact [lit "Bob"] example_book)).
  vm_compute. reflexivity.
Defined.

Lemma write_back_get_other book key record other :
  other <> key -> dict_get (write_back book key record) other = dict_get book other.
Proof.
  intros Hne. induction book as [|[k v] book IH]; cbn [write_back dict_get]; [reflexivity|].
  destruct (str_eqb k key) eqn:E; cbn [dict_get].
  - apply str_eqb_eq in E. subst k.
    replace (str_eqb key other) with false; [reflexivity|].
    symmetry. apply str_eqb_neq. congruence.
  - rewrite IH. reflexivity.
Qed.

Lemma write_back_get book key record old :
  dict_get book key = Some old -> dict_get (write_back book key record) key = Some record.
Proof.
  induction book as [|[k v] book IH]; cbn [write_back dict_get]; [discriminate|].
  destruct (str_eqb k key) eqn:E; cbn [dict_get]; rewrite E; [reflexivity | exact IH].
Qed.

(** What a handler does to the book is what a sequence of operations of
    the directory and of its records does. *)
Lemma handler_func_ops today h args book :
  exists ops, fst (handler_func today h args book) = fold_left run_book_op ops book.
Proof.
  destruct h; cbn [handler_func].
  - unfold add_contact_func. destruct args as [|nm [|phone rest]];
      [exists []; reflexivity ..|].
    destruct (AddressBook_find book nm) as [record|] eqn:F; destruct (str_bool phone).
    + exists [OpOnRecord nm (OpAddPhone phone)]. cbn [fold_left run_book_op run_record_op].
      rewrite F. destruct (Record_add_phone phone record). reflexivity.
    + exists []. reflexivity.
    + exists [OpAddRecord (Record_init nm); OpOnRecord nm (OpAddPhone phone)].
      cbn [fold_left run_book_op run_record_op].
      unfold AddressBook_find, AddressBook_add_record. cbn [Record_init name].
      rewrite dict_set_get. destruct (Record_add_phone phone _). reflexivity.
    + exists [OpAddRecord (Record_init nm)]. reflexivity.
  - unfold change_contact_func. destruct args as [|nm [|a [|b rest]]];
      [exists []; reflexivity ..|].
    destruct (AddressBook_find book nm) as [record|] eqn:F; [|exists []; reflexivity].
    exists [OpOnRecord nm (OpEditPhone a b)]. cbn [fold_left run_book_op run_record_op].
    rewrite F. destruct (Record_edit_phone a b record). reflexivity.
  - exists []. unfold show_phone_func. destruct args as [|nm rest]; [reflexivity|].
    destruct (AddressBook_find book nm); reflexivity.
  - unfold add_birthday_func. destruct args as [|nm [|s rest]];
      [exists []; reflexivity ..|].
    destruct (AddressBook_find book nm) as [record|] eqn:F; [|exists []; reflexivity].
    exists [OpOnRecord nm (OpAddBirthday s)]. cbn [fold_left run_book_op run_record_op].
    rewrite F. destruct (Record_add_birthday s record). reflexivity.
  - exists []. unfold show_birthday_func. destruct args as [|nm rest]; [reflexivity|].
    destruct (AddressBook_find book nm) as [record|]; [|reflexivity].
    destruct (Record_show_birthday record) as [[|c s]|]; reflexivity.
  - exists []. unfold birthdays_func.
    destruct (get_upcoming_birthdays book today 7) as [[|e l]|]; reflexivity.
Qed.

Lemma run_handler_fst today h args book :
  fst (run_handler today h args book) = fst (handler_func today h args book).
Proof.
  rewrite run_handler_eq. unfold input_error.
  destruct (handler_func today h args book). reflexivity.
Qed.

Lemma run_handler_ok today h args book :
  is_ok (snd (handler_func today h args book)) = false \/
  snd (handler_func today h args book) = Ok (snd (run_handler today h args book)).
Proof.
  rewrite run_handler_eq. unfold input_error.
  destruct (handler_func today h args book) as [b [v|x]]; [right | left]; reflexivity.
Qed.

Lemma write_back_unchanged book key (record record' : ContactRecord) :
  dict_get book key = Some record -> record' = record ->
  write_back book key record' = book.
Proof. intros H ->. apply write_back_same, H. Qed.

Lemma record_op_raise_unchanged op record :
  is_ok (snd (run_record_op op record)) = false -> fst (run_record_op op record) = record.
Proof.
  destruct op as [raw | raw | a b | raw | raw | |]; cbn [run_record_op fst snd is_ok];
    try discriminate.
  - unfold Record_add_phone. destruct (Phone raw); [discriminate | reflexivity].
  - unfold Record_edit_phone. destruct (edit_phone_loop _ _ _); [discriminate | reflexivity].
  - unfold Record_add_birthday. destruct (Birthday raw); [discriminate | reflexivity].
Qed.

(** A handler leaves alone the record of every name but its first
    argument, and never removes or reorders a name; [phone],
    [show-birthday] and [birthdays] do not change the book at all;
    [change] and [add-birthday] change it only when they succeed; a book
    built by the operations of the directory stays one. *)
Theorem handler_frame (today : date) (h : handler) (args : list pystr)
        (book : AddressBook) :
  let book' := fst (run_handler today h args book) in
  (forall other, hd_error args <> Some other ->
                 AddressBook_find book' other = AddressBook_find book other)
  /\ (forall nm, AddressBook_find book nm <> None -> AddressBook_find book' nm <> None)
  /\ (h = H_show_phone \/ h = H_show_birthday \/ h = H_birthdays -> book' = book)
  /\ (h <> H_add_contact ->
      is_ok (snd (handler_func today h args book)) = false -> book' = book)
  /\ (h <> H_add_contact -> map fst book' = map fst book)
  /\ (reachable book -> reachable book').
Proof.
  cbv zeta. rewrite run_handler_fst.
  assert (Hshow : forall a, fst (show_phone_func a book) = book).
  { intros a. unfold show_phone_func. destruct a as [|nm rest]; [reflexivity|].
    destruct (AddressBook_find book nm); reflexivity. }
  assert (Hsb : forall a, fst (show_birthday_func a book) = book).
  { intros a. unfold show_birthday_func. destruct a as [|nm rest]; [reflexivity|].
    destruct (AddressBook_find book nm) as [record|]; [|reflexivity].
    destruct (Record_show_birthday record) as [[|c s]|]; reflexivity. }
  assert (Hb : forall a, fst (birthdays_func today a book) = book).
  { intros a. unfold birthdays_func.
    destruct (get_upcoming_birthdays book today 7) as [[|e l]|]; reflexivity. }
  repeat split.
  - intros other Ho. unfold AddressBook_find.
    destruct h; cbn [handler_func]; rewrite ?Hshow, ?Hsb, ?Hb; try reflexivity.
    + unfold add_contact_func. destruct args as [|nm [|phone rest]]; try reflexivity.
      assert (Hne : other <> nm) by (cbn in Ho; congruence).
      destruct (AddressBook_find book nm) as [record|]; destruct (str_bool phone);
        try destruct (Record_add_phone phone _); cbn [fst];
        rewrite ?write_back_get_other by exact Hne;
        unfold AddressBook_add_record; cbn [Record_init name];
        rewrite ?dict_set_get_other by exact Hne; reflexivity.
    + unfold change_contact_func. destruct args as [|nm [|a [|b rest]]]; try reflexivity.
      assert (Hne : other <> nm) by (cbn in Ho; congruence).
      destruct (AddressBook_find book nm) as [record|]; [|reflexivity].
      destruct (Record_edit_phone a b record). cbn [fst].
      apply write_back_get_other, Hne.
    + unfold add_birthday_func. destruct args as [|nm [|s rest]]; try reflexivity.
      assert (Hne : other <> nm) by (cbn in Ho; congruence).
      destruct (AddressBook_find book nm) as [record|]; [|reflexivity].
      destruct (Record_add_birthday s record). cbn [fst].
      apply write_back_get_other, Hne.
  - intros nm. unfold AddressBook_find. rewrite !dict_get_None.
    intros Hin Hout. apply Hin. clear Hin. intros Hin. apply Hout. clear Hout.
    destruct h; cbn [handler_func]; rewrite ?Hshow, ?Hsb, ?Hb; try exact Hin.
    + unfold add_contact_func. destruct args as [|k [|phone rest]]; try exact Hin.
      destruct (AddressBook_find book k) as [record|] eqn:F; destruct (str_bool phone);
        try destruct (Record_add_phone phone _); cbn [fst];
        rewrite ?write_back_keys; try exact Hin;
        unfold AddressBook_add_record, AddressBook_find in *; cbn [Record_init name];
        rewrite dict_set_keys, F; apply in_or_app; left; exact Hin.
    + unfold change_contact_func. destruct args as [|k [|a [|b rest]]]; try exact Hin.
      destruct (AddressBook_find book k) as [record|]; [|exact Hin].
      destruct (Record_edit_phone a b record). cbn [fst]. rewrite write_back_keys. exact Hin.
    + unfold add_birthday_func. destruct args as [|k [|s rest]]; try exact Hin.
      destruct (AddressBook_find book k) as [record|]; [|exact Hin].
      destruct (Record_add_birthday s record). cbn [fst]. rewrite write_back_keys. exact Hin.
  - intros [-> | [-> | ->]]; cbn [handler_func]; auto.
  - intros Hh. destruct h; cbn [handler_func]; rewrite ?Hshow, ?Hsb, ?Hb;
      try reflexivity; try congruence.
    + unfold change_contact_func. destruct args as [|nm [|a [|b rest]]]; try reflexivity.
      destruct (AddressBook_find book nm) as [record|] eqn:F; [|reflexivity].
      pose proof (record_op_raise_unchanged (OpEditPhone a b) record) as Fr.
      cbn [run_record_op] in Fr.
      destruct (Record_edit_phone a b record) as [record' [u|x]]; cbn [fst snd bind is_ok] in *;
        [discriminate|]. intros _. apply (write_back_unchanged _ _ record); auto.
    + unfold add_birthday_func. destruct args as [|nm [|s rest]]; try reflexivity.
      destruct (AddressBook_find book nm) as [record|] eqn:F; [|reflexivity].
      pose proof (record_op_raise_unchanged (OpAddBirthday s) record) as Fr.
      cbn [run_record_op] in Fr.
      destruct (Record_add_birthday s record) as [record' [u|x]]; cbn [fst snd bind is_ok] in *;
        [discriminate|]. intros _. apply (write_back_unchanged _ _ record); auto.
  - intros Hh. destruct h; cbn [handler_func]; rewrite ?Hshow, ?Hsb, ?Hb;
      try reflexivity; try congruence.
    + unfold change_contact_func. destruct args as [|nm [|a [|b rest]]]; try reflexivity.
      destruct (AddressBook_find book nm) as [record|]; [|reflexivity].
      destruct (Record_edit_phone a b record). cbn [fst]. apply write_back_keys.
    + unfold add_birthday_func. destruct args as [|nm [|s rest]]; try reflexivity.
      destruct (AddressBook_find book nm) as [record|]; [|reflexivity].
      destruct (Record_add_birthday s record). cbn [fst]. apply write_back_keys.
  - intros [ops0 ->]. destruct (handler_func_ops today h args (fold_left run_book_op ops0 empty_book))
      as [ops E].
    exists (ops0 ++ ops). rewrite E, fold_left_app. reflexivity.
Qed.

Lemma handler_frame_witness :
  fst (run_handler (mkdate 2024 1 1) H_change_contact
         [lit "Ann"; lit "1111111111"; lit "12"] example_book)
  = example_book.
Proof.
  apply (proj1 (proj2 (proj2 (proj2 (handler_frame (mkdate 2024 1 1) H_change_contact
           [lit "Ann"; lit "1111111111"; lit "12"] example_book))))).
  - discriminate.
  - vm_compute. reflexivity.
Defined.

Lemma join_bool (sep : pystr) (l : list pystr) (p : pystr) :
  sep <> [] -> p <> [] -> str_bool (join sep (l ++ [p])) = true.
Proof.
  intros Hs Hp. destruct l as [|a l]; cbn [app join].
  - destruct p; [congruence | reflexivity].
  - destruct (l ++ [p]) as [|b l'] eqn:E.
    + destruct l; discriminate E.
    + destruct a as [|c a]; cbn [app]; [|reflexivity].
      destruct sep; [congruence | reflexivity].
Qed.

Lemma Phone_nonempty phone : is_ok (Phone phone) = true -> phone <> [].
Proof. intros H ->. discriminate H. Qed.

(** [add] with a valid phone, then [phone]: the contact is created if the
    name is new, its phones are the ones it had followed by the new one,
    and [phone] prints them joined by ["; "]. *)
Theorem add_contact_then_show_phone
        (book : AddressBook) (nm phone : pystr) (rest rest' : list pystr) :
  is_ok (Phone phone) = true ->
  let old := match AddressBook_find book nm with
             | Some record => record
             | None => Record_init nm
             end in
  let book' := fst (add_contact (nm :: phone :: rest) book) in
  snd (add_contact (nm :: phone :: rest) book)
  = match AddressBook_find book nm with
    | Some _ => lit "Contact updated."
    | None => lit "Contact added."
    end
  /\ AddressBook_find book' nm = Some (set_phones old (phones old ++ [phone]))
  /\ show_phone (nm :: rest') book'
     = (book', nm ++ lit "'s phones: " ++ join (lit "; ") (phones old ++ [phone])).
Proof.
  intros V. cbv zeta. pose proof (Phone_nonempty phone V) as Hp.
  assert (S : forall b r,
             AddressBook_find b nm = Some r ->
             show_phone (nm :: rest') b
             = (b, nm ++ lit "'s phones: " ++ join (lit "; ") (phones r))
               \/ str_bool (join (lit "; ") (phones r)) = false).
  { intros b r F. unfold show_phone, input_error, show_phone_func. rewrite F.
    destruct (str_bool (join (lit "; ") (phones r))); auto. }
  unfold add_contact, input_error, add_contact_func.
  destruct phone as [|c phone]; [congruence|]. cbn [str_bool].
  unfold Record_add_phone.
  destruct (Phone_cases (c :: phone)) as [P | P]; rewrite P in *; [|discriminate V].
  unfold AddressBook_find in *.
  destruct (dict_get book nm) as [record|] eqn:G; cbn [fst snd bind].
  - split; [reflexivity|].
    pose proof (write_back_get book nm
                  (set_phones record (phones record ++ [c :: phone])) record G) as F.
    split; [exact F|].
    destruct (S _ _ F) as [E | E]; [exact E|].
    cbn [set_phones phones] in E. rewrite join_bool in E; [discriminate | discriminate | exact Hp].
  - split; [reflexivity|].
    unfold AddressBook_add_record. cbn [Record_init name phones].
    pose proof (write_back_get (dict_set book nm (Record_init nm)) nm
                  (set_phones (Record_init nm) ([] ++ [c :: phone])) (Record_init nm)
                  (dict_set_get book nm _)) as F.
    split; [exact F|].
    destruct (S _ _ F) as [E | E]; [exact E|].
    cbn [set_phones phones] in E. rewrite join_bool in E; [discriminate | discriminate | exact Hp].
Qed.

Lemma add_contact_then_show_phone_witness :
  show_phone [lit "Ann"]
    (fst (add_contact [lit "Ann"; lit "0501234567"] example_book))
  = (fst (add_contact [lit "Ann"; lit "0501234567"] example_book),
     lit "Ann's phones: 1111111111; 0501234567").
Proof.
  apply (add_contact_then_show_phone example_book (lit "Ann") (lit "0501234567") [] []).
  reflexivity.
Defined.

Lemma strftime_nonempty d : exists c s, strftime_dmY d = c :: s.
Proof.
  unfold strftime_dmY. change (lit ".") with [46%N].
  destruct (pad2 (day d)) as [|c s]; cbn [app]; eauto.
Qed.

(** [add-birthday] on a contact of the book with a string [Birthday]
    accepts, then [show-birthday]: the record has the date, and
    [show-birthday] prints its rendering, which for a string in the layout
    DD.MM.YYYY with a year from 1000 on is the string given. *)
Theorem add_birthday_then_show
        (book : AddressBook) (nm s : pystr) (rest rest' : list pystr)
        (record : ContactRecord) (d : date) :
  AddressBook_find book nm = Some record ->
  Birthday s = Ok d ->
  let book' := fst (add_birthday (nm :: s :: rest) book) in
  snd (add_birthday (nm :: s :: rest) book) = lit "Birthday added for " ++ nm
  /\ AddressBook_find book' nm = Some (set_birthday record (Some d))
  /\ show_birthday (nm :: rest') book'
     = (book', nm ++ lit "'s birthday: " ++ strftime_dmY d)
  /\ (layout_DD_MM_YYYY s = true -> 1000 <= year d ->
      show_birthday (nm :: rest') book' = (book', nm ++ lit "'s birthday: " ++ s)).
Proof.
  intros F B. cbv zeta.
  assert (A : add_birthday (nm :: s :: rest) book
              = (write_back book nm (set_birthday record (Some d)),
                 lit "Birthday added for " ++ nm)).
  { unfold add_birthday, input_error, add_birthday_func, Record_add_birthday.
    rewrite F, B. reflexivity. }
  rewrite A. cbn [fst snd]. split; [reflexivity|].
  assert (F' : AddressBook_find (write_back book nm (set_birthday record (Some d))) nm
               = Some (set_birthday record (Some d))).
  { unfold AddressBook_find in *. eapply write_back_get, F. }
  split; [exact F'|].
  assert (S : show_birthday (nm :: rest') (write_back book nm (set_birthday record (Some d)))
              = (write_back book nm (set_birthday record (Some d)),
                 nm ++ lit "'s birthday: " ++ strftime_dmY d)).
  { unfold show_birthday, input_error, show_birthday_func. rewrite F'.
    unfold Record_show_birthday. cbn [set_birthday birthday].
    destruct (strftime_nonempty d) as (c & t & ->). reflexivity. }
  split; [exact S|].
  intros L Y. rewrite S, (strftime_of_layout s d L B Y). reflexivity.
Qed.

Lemma add_birthday_then_show_witness :
  show_birthday [lit "Dan"] (fst (add_birthday [lit "Dan"; lit "29.02.2020"] example_book))
  = (fst (add_birthday [lit "Dan"; lit "29.02.2020"] example_book),
     lit "Dan's birthday: 29.02.2020").
Proof.
  apply (add_birthday_then_show example_book (lit "Dan") (lit "29.02.2020") [] []
           (example_record "Dan" ["2222222222"%string] None) (mkdate 2020 2 29)).
  - reflexivity.
  - reflexivity.
  - reflexivity.
  - cbn. lia.
Defined.

(** ** Reading a command line *)


Lemma split_loop_char c s cur :
  char_isspace c = false -> split_loop (c :: s) cur = split_loop s (c :: cur).
Proof. intros H. cbn [split_loop]. rewrite H. reflexivity. Qed.

Lemma split_loop_chars w s cur :
  existsb char_isspace w = false ->
  split_loop (w ++ s) cur = split_loop s (rev w ++ cur).
Proof.
  revert cur. induction w as [|c w IH]; intros cur H; [reflexivity|].
  cbn [existsb] in H. apply orb_false_iff in H. destruct H as [Hc Hw].
  cbn [app rev]. rewrite split_loop_char by exact Hc. rewrite IH by exact Hw.
  rewrite <- app_assoc. reflexivity.
Qed.

Lemma split_loop_spaces ws cur :
  forallb char_isspace ws = true ->
  split_loop ws cur = match cur with [] => [] | _ => [rev cur] end.
Proof.
  revert cur. induction ws as [|c ws IH]; intros cur H; [reflexivity|].
  cbn [forallb] in H. apply andb_true_iff in H. destruct H as [Hc Hw].
  cbn [split_loop]. rewrite Hc. destruct cur; rewrite IH by exact Hw; reflexivity.
Qed.

Lemma split_loop_trailing s ws cur :
  forallb char_isspace ws = true -> split_loop (s ++ ws) cur = split_loop s cur.
Proof.
  intros H. revert cur. induction s as [|c s IH]; intros cur; cbn [app].
  - rewrite split_loop_spaces by exact H. reflexivity.
  - cbn [split_loop]. destruct (char_isspace c); [destruct cur|]; rewrite ?IH; reflexivity.
Qed.

Lemma split_loop_leading ws s :
  forallb char_isspace ws = true -> split_loop (ws ++ s) [] = split_loop s [].
Proof.
  induction ws as [|c ws IH]; intros H; [reflexivity|].
  cbn [forallb] in H. apply andb_true_iff in H. destruct H as [Hc Hw].
  cbn [app split_loop]. rewrite Hc. apply IH, Hw.
Qed.

Lemma lstrip_split s :
  exists ws, s = ws ++ lstrip s /\ forallb char_isspace ws = true.
Proof.
  induction s as [|c s IH]; [exists []; auto|].
  cbn [lstrip]. destruct (char_isspace c) eqn:E.
  - destruct IH as (ws & Hs & Hw). exists (c :: ws). cbn [app forallb].
    rewrite E, Hw, <- Hs. auto.
  - exists []. auto.
Qed.

Lemma rstrip_split s :
  exists ws, s = rstrip s ++ ws /\ forallb char_isspace ws = true.
Proof.
  unfold rstrip. destruct (lstrip_split (rev s)) as (ws & Hs & Hw).
  exists (rev ws). split.
  - rewrite <- rev_app_distr, <- Hs, rev_involutive. reflexivity.
  - rewrite forallb_forall in *. intros c Hc. apply Hw, in_rev, Hc.
Qed.

(** The [strip] before [split] changes nothing. *)
Lemma split_strip s : split (strip s) = split s.
Proof.
  unfold split, strip.
  destruct (lstrip_split s) as (ws & Hs & Hw).
  destruct (rstrip_split (lstrip s)) as (ws' & Hs' & Hw').
  rewrite Hs at 2. rewrite split_loop_leading by exact Hw.
  rewrite Hs' at 2. rewrite split_loop_trailing by exact Hw'. reflexivity.
Qed.

Lemma split_loop_is_word s : forall cur,
  existsb char_isspace cur = false ->
  Forall (fun w => is_word w = true) (split_loop s cur).
Proof.
  assert (R : forall cur : pystr, cur <> [] -> existsb char_isspace cur = false ->
                                  is_word (rev cur) = true).
  { intros cur N H. unfold is_word. apply andb_true_iff. split.
    - destruct (rev cur) eqn:E; [|reflexivity].
      apply (f_equal (@rev _)) in E. rewrite rev_involutive in E. contradiction.
    - apply negb_true_iff. destruct (existsb char_isspace (rev cur)) eqn:E; [|reflexivity].
      apply existsb_exists in E. destruct E as (c & Hc & Hs).
      apply in_rev in Hc. rewrite <- H. symmetry. apply existsb_exists. eauto. }
  induction s as [|c s IH]; intros cur H; cbn [split_loop].
  - destruct cur as [|x cur]; [constructor|].
    constructor; [apply R; [discriminate | exact H] | constructor].
  - destruct (char_isspace c) eqn:E.
    + destruct cur as [|x cur]; [apply IH; reflexivity|].
      constructor; [apply R; [discriminate | exact H] | apply IH; reflexivity].
    + apply IH. cbn [existsb]. rewrite E, H. reflexivity.
Qed.

Lemma split_join w ws :
  Forall (fun w => is_word w = true) (w :: ws) ->
  split (join (lit " ") (w :: ws)) = w :: ws.
Proof.
  unfold split. revert w. induction ws as [|w' ws IH]; intros w H;
    inversion H as [|? ? Hw Hws]; subst;
    unfold is_word in Hw; apply andb_true_iff in Hw; destruct Hw as [Hn Hs];
    apply negb_true_iff in Hs.
  - cbn [join]. rewrite <- (app_nil_r w) at 1. rewrite split_loop_chars by exact Hs.
    cbn [split_loop]. rewrite app_nil_r.
    destruct (rev w) eqn:E; [|rewrite <- E, rev_involutive; reflexivity].
    apply (f_equal (@rev _)) in E. rewrite rev_involutive in E. subst w. discriminate Hn.
  - change (join (lit " ") (w :: w' :: ws))
      with (w ++ 32%N :: join (lit " ") (w' :: ws)).
    rewrite split_loop_chars by exact Hs. rewrite app_nil_r.
    cbn [split_loop]. change (char_isspace 32%N) with true. cbv iota.
    destruct (rev w) eqn:E.
    + apply (f_equal (@rev _)) in E. rewrite rev_involutive in E. subst w. discriminate Hn.
    + rewrite <- E, rev_involutive. f_equal. apply IH, Hws.
Qed.

Lemma parse_input_eq lower s :
  parse_input lower s
  = (match split s with w :: _ => lower w | [] => [] end, tl (split s)).
Proof.
  unfold parse_input. rewrite split_strip. f_equal.
  unfold len. destruct (split s) as [|w [|w' ws]]; try reflexivity.
  replace (1 <? Z.of_nat (length (w :: w' :: ws))) with true; [reflexivity|].
  symmetry. apply Z.ltb_lt. cbn [length]. lia.
Qed.

(** [parse_input] returns the words of the line: the first one in lower
    case as the command, the others as the arguments.  No argument is
    empty or holds white space; white space at the ends of the line does
    not matter; and a line made of words with one blank in between is
    split into those words. *)
Theorem parse_input_words (lower : pystr -> pystr) (s : pystr) :
  parse_input lower s
  = (match split s with w :: _ => lower w | [] => [] end, tl (split s))
  /\ Forall (fun w => is_word w = true) (split s)
  /\ (forall pre post, forallb char_isspace pre = true -> forallb char_isspace post = true ->
        parse_input lower (pre ++ s ++ post) = parse_input lower s)
  /\ (forall w ws, Forall (fun w => is_word w = true) (w :: ws) ->
        s = join (lit " ") (w :: ws) -> parse_input lower s = (lower w, ws)).
Proof.
  split; [apply parse_input_eq|].
  split; [apply split_loop_is_word; reflexivity|].
  split.
  - intros pre post Hpre Hpost. rewrite !parse_input_eq. unfold split.
    rewrite split_loop_leading by exact Hpre.
    rewrite split_loop_trailing by exact Hpost. reflexivity.
  - intros w ws H ->. rewrite parse_input_eq, split_join by exact H. reflexivity.
Qed.

Lemma parse_input_words_witness :
  parse_input (fun w => w) (lit "  add Bob 0501234567 ")
  = parse_input (fun w => w) (lit "add Bob 0501234567")
  /\ parse_input (fun w => w) (lit "add Bob 0501234567")
     = (lit "add", [lit "Bob"; lit "0501234567"]).
Proof.
  split.
  - apply (proj1 (proj2 (proj2 (parse_input_words (fun w => w) (lit "add Bob 0501234567"))))
             (lit "  ") (lit " ")); reflexivity.
  - apply (proj2 (proj2 (proj2 (parse_input_words (fun w => w) (lit "add Bob 0501234567"))))
             (lit "add") [lit "Bob"; lit "0501234567"]).
    + repeat constructor.
    + reflexivity.
Defined.

(** ** The loop of [main] *)


Lemma read_only_handlers today h args book :
  h = H_show_phone \/ h = H_show_birthday \/ h = H_birthdays ->
  fst (run_handler today h args book) = book.
Proof.
  rewrite run_handler_fst. intros [-> | [-> | ->]]; cbn [handler_func].
  - unfold show_phone_func. destruct args as [|nm rest]; [reflexivity|].
    destruct (AddressBook_find book nm); reflexivity.
  - unfold show_birthday_func. destruct args as [|nm rest]; [reflexivity|].
    destruct (AddressBook_find book nm) as [record|]; [|reflexivity].
    destruct (Record_show_birthday record) as [[|c s]|]; reflexivity.
  - unfold birthdays_func.
    destruct (get_upcoming_birthdays book today 7) as [[|e l]|]; reflexivity.
Qed.

Lemma handlers_reachable today h args book :
  reachable book -> reachable (fst (run_handler today h args book)).
Proof.
  rewrite run_handler_fst. intros [ops0 ->].
  destruct (handler_func_ops today h args (fold_left run_book_op ops0 empty_book)) as [ops E].
  exists (ops0 ++ ops). rewrite E, fold_left_app. reflexivity.
Qed.

Lemma main_step_exit lower today book line :
  is_exit lower line = true ->
  main_step lower today book line = (book, lit "Good bye!", false).
Proof.
  unfold is_exit, main_step. destruct (parse_input lower line) as [command args].
  cbn [fst]. intros ->. reflexivity.
Qed.

Lemma main_step_handler lower today book line :
  is_exit lower line = false ->
  exists book' printed,
    main_step lower today book line = (book', printed, true)
    /\ (book' = book
        \/ exists h,
             ((h = H_add_contact /\ fst (parse_input lower line) = lit "add")
              \/ (h = H_change_contact /\ fst (parse_input lower line) = lit "change")
              \/ (h = H_add_birthday /\ fst (parse_input lower line) = lit "add-birthday"))
             /\ book' = fst (run_handler today h (snd (parse_input lower line)) book)).
Proof.
  unfold is_exit, main_step. destruct (parse_input lower line) as [command args].
  cbn [fst snd]. intros ->.
  destruct (str_eqb command (lit "hello"));
    [eexists; eexists; split; [reflexivity | left; reflexivity]|].
  destruct (str_eqb command (lit "add")) eqn:Ea.
  { apply str_eqb_eq in Ea. destruct (add_contact args book) as [b p] eqn:E.
    exists b, p. split; [reflexivity|]. right. exists H_add_contact.
    cbn [run_handler]. rewrite E. auto. }
  destruct (str_eqb command (lit "change")) eqn:Ec.
  { apply str_eqb_eq in Ec. destruct (change_contact args book) as [b p] eqn:E.
    exists b, p. split; [reflexivity|]. right. exists H_change_contact.
    cbn [run_handler]. rewrite E. auto. }
  destruct (str_eqb command (lit "phone")).
  { destruct (show_phone args book) as [b p] eqn:E.
    exists b, p. split; [reflexivity|]. left.
    pose proof (read_only_handlers today H_show_phone args book) as F.
    cbn [run_handler] in F. rewrite E in F. apply F. auto. }
  destruct (str_eqb command (lit "all"));
    [eexists; eexists; split; [reflexivity | left; reflexivity]|].
  destruct (str_eqb command (lit "add-birthday")) eqn:Eb.
  { apply str_eqb_eq in Eb. destruct (add_birthday args book) as [b p] eqn:E.
    exists b, p. split; [reflexivity|]. right. exists H_add_birthday.
    cbn [run_handler]. rewrite E. auto 6. }
  destruct (str_eqb command (lit "show-birthday")).
  { destruct (show_birthday args book) as [b p] eqn:E.
    exists b, p. split; [reflexivity|]. left.
    pose proof (read_only_handlers today H_show_birthday args book) as F.
    cbn [run_handler] in F. rewrite E in F. apply F. auto. }
  destruct (str_eqb command (lit "birthdays")).
  { destruct (birthdays today args book) as [b p] eqn:E.
    exists b, p. split; [reflexivity|]. left.
    pose proof (read_only_handlers today H_birthdays args book) as F.
    cbn [run_handler] in F. rewrite E in F. apply F. auto. }
  eexists; eexists; split; [reflexivity | left; reflexivity].
Qed.

Lemma main_step_reachable lower today book line :
  reachable book -> reachable (fst (fst (main_step lower today book line))).
Proof.
  intros R. destruct (is_exit lower line) eqn:X.
  - rewrite (main_step_exit lower today book line X). exact R.
  - destruct (main_step_handler lower today book line X) as (b & p & -> & [-> | (h & _ & ->)]);
      cbn [fst]; [exact R | apply handlers_reachable, R].
Qed.

Lemma blank_line_parse lower line :
  forallb char_isspace line = true -> parse_input lower line = ([], []).
Proof.
  intros H. rewrite parse_input_eq. unfold split.
  rewrite (split_loop_spaces line [] H). reflexivity.
Qed.

(** One turn of the loop.  [close] and [exit] end it with ["Good bye!"] and
    the book as it is; every other line goes on to the next turn.  Only
    [add], [change] and [add-birthday] can change the book, and a book
    built by the operations of the directory stays one.  An empty line, or
    one of white space, is an invalid command. *)
Theorem main_step_spec (lower : pystr -> pystr) (today : date) (book : AddressBook)
        (line : pystr) :
  (is_exit lower line = true ->
   main_step lower today book line = (book, lit "Good bye!", false))
  /\ (is_exit lower line = false ->
      exists book' printed,
        main_step lower today book line = (book', printed, true)
        /\ (book' <> book ->
            fst (parse_input lower line) = lit "add"
            \/ fst (parse_input lower line) = lit "change"
            \/ fst (parse_input lower line) = lit "add-birthday"))
  /\ (reachable book -> reachable (fst (fst (main_step lower today book line))))
  /\ (forallb char_isspace line = true ->
      main_step lower today book line = (book, lit "Invalid command.", true)).
Proof.
  split; [apply main_step_exit|]. split; [|split; [apply main_step_reachable|]].
  - intros X.
    destruct (main_step_handler lower today book line X) as (b & p & E & H).
    exists b, p. split; [exact E|]. intros N.
    destruct H as [-> | (h & [[_ C] | [[_ C] | [_ C]]] & _)]; [congruence | auto ..].
  - intros B. unfold main_step. rewrite (blank_line_parse lower line B). reflexivity.
Qed.

Lemma main_step_spec_witness :
  main_step (fun w => w) (mkdate 2024 1 1) example_book (lit "exit")
  = (example_book, lit "Good bye!", false)
  /\ main_step (fun w => w) (mkdate 2024 1 1) example_book (lit "   ")
     = (example_book, lit "Invalid command.", true).
Proof.
  split.
  - apply (proj1 (main_step_spec (fun w => w) (mkdate 2024 1 1) example_book (lit "exit"))).
    reflexivity.
  - apply (proj2 (proj2 (proj2
             (main_step_spec (fun w => w) (mkdate 2024 1 1) example_book (lit "   "))))).
    reflexivity.
Defined.

Lemma printed_texts_turn s p outs :
  printed_texts (Prompted s :: Printed p :: outs) = p :: printed_texts outs.
Proof. reflexivity. Qed.

Lemma main_loop_reachable lower inputs :
  forall book, reachable book -> reachable (snd (fst (main_loop lower inputs book))).
Proof.
  induction inputs as [|[today line] inputs IH]; intros book R; cbn [main_loop].
  - exact R.
  - pose proof (main_step_reachable lower today book line R) as R'.
    destruct (main_step lower today book line) as [[book' printed] continue].
    cbn [fst] in R'. destruct continue; [|exact R'].
    specialize (IH book' R').
    destruct (main_loop lower inputs book') as [[outs final] exited]. exact IH.
Qed.

Lemma main_loop_no_exit lower inputs :
  Forall (fun i => is_exit lower (snd i) = false) inputs ->
  forall book,
    snd (main_loop lower inputs book) = false
    /\ length (printed_texts (fst (fst (main_loop lower inputs book)))) = length inputs.
Proof.
  induction 1 as [|[today line] inputs X _ IH]; intros book; cbn [main_loop].
  - auto.
  - cbn [snd] in X.
    destruct (main_step_handler lower today book line X) as (b & p & -> & _).
    specialize (IH b). destruct (main_loop lower inputs b) as [[outs final] exited].
    cbn [fst snd] in *. destruct IH as [-> L]. split; [reflexivity|].
    rewrite printed_texts_turn. cbn [length]. rewrite L. reflexivity.
Qed.

Lemma main_loop_exit lower pre today line post :
  Forall (fun i => is_exit lower (snd i) = false) pre ->
  is_exit lower line = true ->
  forall book,
    main_loop lower (pre ++ (today, line) :: post) book
    = main_loop lower (pre ++ [(today, line)]) book
    /\ snd (main_loop lower (pre ++ (today, line) :: post) book) = true
    /\ length (printed_texts (fst (fst (main_loop lower (pre ++ (today, line) :: post) book))))
       = S (length pre)
    /\ last (printed_texts (fst (fst (main_loop lower (pre ++ (today, line) :: post) book)))) []
       = lit "Good bye!".
Proof.
  intros Hpre X. induction Hpre as [|[d l] pre Xl _ IH]; intros book; cbn [app main_loop].
  - rewrite (main_step_exit lower today book line X). repeat split.
  - cbn [snd] in Xl.
    destruct (main_step_handler lower d book l Xl) as (b & p & -> & _).
    destruct (IH b) as (E & Ex & L & La). rewrite E in *.
    destruct (main_loop lower (pre ++ [(today, line)]) b) as [[outs final] exited].
    cbn [fst snd] in *. split; [reflexivity|]. split; [exact Ex|].
    rewrite printed_texts_turn. cbn [length]. split; [rewrite L; reflexivity|].
    destruct (printed_texts outs) eqn:F; [discriminate L | exact La].
Qed.

(** [main] calls [print] once for the welcome and then once for every
    line it reads.  It reads no line after the first [close] or [exit], to
    which it answers ["Good bye!"] in its last call of [print]; when the
    lines run out before that, it ends in the [EOFError] of [input].  The
    book it ends with is one the operations of the directory build, so
    every record in it is stored under its own name. *)
Theorem main_spec (lower : pystr -> pystr) (inputs : list (date * pystr)) :
  (forall pre today line post,
      inputs = pre ++ (today, line) :: post ->
      Forall (fun i => is_exit lower (snd i) = false) pre ->
      is_exit lower line = true ->
      main lower inputs = main lower (pre ++ [(today, line)])
      /\ snd (main lower inputs) = true
      /\ length (printed_texts (fst (fst (main lower inputs)))) = (length pre + 2)%nat
      /\ last (printed_texts (fst (fst (main lower inputs)))) [] = lit "Good bye!")
  /\ (Forall (fun i => is_exit lower (snd i) = false) inputs ->
      snd (main lower inputs) = false
      /\ length (printed_texts (fst (fst (main lower inputs)))) = S (length inputs))
  /\ reachable (snd (fst (main lower inputs)))
  /\ (forall key record, In (key, record) (snd (fst (main lower inputs))) ->
                         name record = key).
Proof.
  assert (R : reachable (snd (fst (main lower inputs)))).
  { unfold main. pose proof (main_loop_reachable lower inputs empty_book) as R.
    destruct (main_loop lower inputs empty_book) as [[outs final] exited].
    apply R. exists []. reflexivity. }
  split; [|split; [|split; [exact R | apply reachable_book_invariant, R]]].
  - intros pre today line post -> Hpre X. unfold main.
    destruct (main_loop_exit lower pre today line post Hpre X empty_book) as (E & Ex & L & La).
    rewrite E in *.
    destruct (main_loop lower (pre ++ [(today, line)]) empty_book) as [[outs final] exited].
    cbn [fst snd] in *. split; [reflexivity|]. split; [exact Ex|].
    change (printed_texts (Printed (lit "Welcome to the assistant bot!") :: outs))
      with (lit "Welcome to the assistant bot!" :: printed_texts outs).
    cbn [length]. split; [rewrite L; lia|].
    destruct (printed_texts outs) eqn:F; [discriminate L | exact La].
  - intros H. unfold main.
    destruct (main_loop_no_exit lower inputs H empty_book) as [Ex L].
    destruct (main_loop lower inputs empty_book) as [[outs final] exited].
    cbn [fst snd] in *. split; [exact Ex|].
    change (printed_texts (Printed (lit "Welcome to the assistant bot!") :: outs))
      with (lit "Welcome to the assistant bot!" :: printed_texts outs).
    cbn [length]. rewrite L. reflexivity.
Qed.

Lemma main_spec_witness :
  main (fun w => w)
    [(mkdate 2024 1 1, lit "add Bob 0501234567"); (mkdate 2024 1 1, lit "exit");
     (mkdate 2024 1 2, lit "add Ann 0501234567")]
  = main (fun w => w)
      [(mkdate 2024 1 1, lit "add Bob 0501234567"); (mkdate 2024 1 1, lit "exit")].
Proof.
  apply (proj1 (main_spec (fun w => w)
                  [(mkdate 2024 1 1, lit "add Bob 0501234567"); (mkdate 2024 1 1, lit "exit");
                   (mkdate 2024 1 2, lit "add Ann 0501234567")])
           [(mkdate 2024 1 1, lit "add Bob 0501234567")] (mkdate 2024 1 1) (lit "exit")
           [(mkdate 2024 1 2, lit "add Ann 0501234567")]).
  - reflexivity.
  - repeat constructor.
  - reflexivity.
Defined.

(** ** The list of upcoming birthdays, whole *)


Lemma adjust_for_weekend_eq d :
  valid_date d = true -> adjust_for_weekend d = Ok (congratulation_of d).
Proof.
  intros V. unfold adjust_for_weekend, congratulation_of.
  destruct (5 <=? weekday d) eqn:W; [|reflexivity].
  apply Z.leb_le in W. apply find_next_monday; assumption.
Qed.

Lemma upcoming_loop_eq today days records :
  (forall record b, In record records -> birthday record = Some b ->
                    projection_defined today b = true) ->
  forall acc,
    upcoming_loop today days records acc
    = Ok (acc ++ map (entry_of today) (filter (in_window today days) records)).
Proof.
  induction records as [|record records IH]; intros H acc.
  - cbn. rewrite app_nil_r. reflexivity.
  - cbn [upcoming_loop filter].
    assert (H' : forall r b, In r records -> birthday r = Some b ->
                             projection_defined today b = true)
      by (intros r b Hr; apply H; right; exact Hr).
    destruct (birthday record) as [b|] eqn:Hb.
    + pose proof (H record b (or_introl eq_refl) Hb) as D.
      destruct (upcoming_entry_defined today days record b Hb D) as (c & A & E).
      rewrite E. cbn [bind].
      rewrite (adjust_for_weekend_eq _ (this_year_spec_valid _ _ D)) in A.
      injection A as <-.
      destruct (in_window today days record).
      * rewrite (IH H'). cbn [map]. unfold entry_of at 2. rewrite Hb.
        rewrite <- app_assoc. reflexivity.
      * apply IH, H'.
    + destruct (upcoming_entry_no_birthday today days record Hb) as [E W].
      rewrite E, W. cbn [bind]. apply IH, H'.
Qed.

(** [get_upcoming_birthdays] returns if and only if every birthday of the
    book has its projection, whatever the window; what it returns is then
    the list of the entries of the records in the window, in the order of
    the book, and [birthdays] prints them one per line, or
    ["No upcoming birthdays"] when there is none. *)
Theorem get_upcoming_birthdays_eq (book : AddressBook) (today : date) (days : Z) :
  (is_ok (get_upcoming_birthdays book today days) = true
   <-> forall record b, In record (dict_values book) -> birthday record = Some b ->
                        projection_defined today b = true)
  /\ ((forall record b, In record (dict_values book) -> birthday record = Some b ->
                        projection_defined today b = true) ->
      get_upcoming_birthdays book today days
      = Ok (map (entry_of today) (filter (in_window today days) (dict_values book)))
      /\ forall args,
           birthdays today args book
           = (book,
              match filter (in_window today 7) (dict_values book) with
              | [] => lit "No upcoming birthdays"
              | records =>
                  join (lit (String "010" EmptyString))
                    (map (fun r => entry_line (entry_of today r)) records)
              end)).
Proof.
  unfold get_upcoming_birthdays. split; [split|].
  - intros Ok record b Hin Hb.
    destruct (projection_defined today b) eqn:D; [reflexivity|].
    destruct (birthday_this_year_undefined today b D) as [msg E].
    destruct (upcoming_loop_raises today days (dict_values book) record (ValueError msg) []
                Hin) as [x R].
    { unfold upcoming_entry. rewrite Hb, E. reflexivity. }
    rewrite R in Ok. discriminate Ok.
  - intros H. rewrite (upcoming_loop_eq today days _ H []). reflexivity.
  - intros H. split; [apply (upcoming_loop_eq today days _ H [])|].
    intros args. unfold birthdays, input_error, birthdays_func, get_upcoming_birthdays.
    rewrite (upcoming_loop_eq today 7 _ H []). cbn [app].
    destruct (filter (in_window today 7) (dict_values book)) as [|r rs]; [reflexivity|].
    cbn [map]. rewrite map_map. reflexivity.
Qed.

Lemma get_upcoming_birthdays_eq_witness :
  birthdays (mkdate 2024 1 1) [] example_book
  = (example_book, lit ("Ann: 03.01.2024" ++ String "010" "Bob: 08.01.2024")).
Proof.
  apply (proj2 (get_upcoming_birthdays_eq example_book (mkdate 2024 1 1) 7)).
  intros record b Hin Hb. simpl in Hin.
  destruct Hin as [<- | [<- | [<- | [<- | []]]]]; simpl in Hb;
    try discriminate; injection Hb as <-; vm_compute; reflexivity.
Defined.

(** ** Changing a phone and missing contacts *)

(** [change]: when the contact has the old phone and the new one is
    valid, the first phone equal to the old one is replaced and [phone]
    prints the new list; when the old phone is missing or the new one is
    not valid, the answer is the error and the book is as before. *)
Theorem change_contact_spec
        (book : AddressBook) (nm old_phone new_phone : pystr) (rest : list pystr)
        (record : ContactRecord) :
  AddressBook_find book nm = Some record ->
  (forall before after,
      phones record = before ++ old_phone :: after -> ~ In old_phone before ->
      is_ok (Phone new_phone) = true ->
      let book' := write_back book nm (set_phones record (before ++ new_phone :: after)) in
      change_contact (nm :: old_phone :: new_phone :: rest) book = (book', lit "Phone updated")
      /\ forall rest',
           show_phone (nm :: rest') book'
           = (book', nm ++ lit "'s phones: "
                     ++ join (lit "; ") (before ++ new_phone :: after)))
  /\ (~ In old_phone (phones record) ->
      change_contact (nm :: old_phone :: new_phone :: rest) book
      = (book, lit "Error: Old phone not found"))
  /\ (In old_phone (phones record) -> is_ok (Phone new_phone) = false ->
      change_contact (nm :: old_phone :: new_phone :: rest) book
      = (book, lit "Error: Phone must be 10 digits")).
Proof.
  intros F. unfold change_contact, input_error, change_contact_func. rewrite F.
  unfold Record_edit_phone. split; [|split].
  - intros before after E Hb V. cbv zeta.
    pose proof (Phone_nonempty new_phone V) as Hn.
    rewrite E, edit_phone_loop_first by exact Hb.
    destruct (Phone_cases new_phone) as [P | P]; rewrite P in *; [|discriminate V].
    cbn [bind]. split; [reflexivity|].
    intros rest'. unfold show_phone, input_error, show_phone_func.
    unfold AddressBook_find in *. rewrite (write_back_get book nm _ record F).
    cbn [set_phones phones].
    replace (before ++ new_phone :: after) with ((before ++ [new_phone]) ++ after)
      by (rewrite <- app_assoc; reflexivity).
    assert (B : str_bool (join (lit "; ") ((before ++ [new_phone]) ++ after)) = true).
    { destruct after as [|a after].
      - rewrite app_nil_r. apply join_bool; [discriminate | exact Hn].
      - destruct before as [|b before]; cbn [app join].
        + destruct new_phone; [congruence | reflexivity].
        + destruct ((before ++ [new_phone]) ++ a :: after) eqn:X.
          * destruct before; discriminate X.
          * destruct b; reflexivity. }
    rewrite B. reflexivity.
  - intros H. rewrite edit_phone_loop_absent by exact H. cbn [bind].
    rewrite (write_back_same book nm record F). reflexivity.
  - intros H V. destruct (first_occurrence _ _ H) as (before & after & E & Hb).
    rewrite E, edit_phone_loop_first by exact Hb.
    destruct (Phone_cases new_phone) as [P | P]; rewrite P in *; [discriminate V|].
    cbn [bind]. rewrite (write_back_same book nm record F). reflexivity.
Qed.

Lemma change_contact_spec_witness :
  change_contact [lit "Ann"; lit "1111111111"; lit "0501234567"] example_book
  = (write_back example_book (lit "Ann")
       (example_record "Ann" ["0501234567"%string] (Some (mkdate 1990 1 3))),
     lit "Phone updated")
  /\ change_contact [lit "Ann"; lit "2222222222"; lit "0501234567"] example_book
     = (example_book, lit "Error: Old phone not found").
Proof.
  split.
  - apply (proj1 (change_contact_spec example_book (lit "Ann") (lit "1111111111")
                    (lit "0501234567") []
                    (example_record "Ann" ["1111111111"%string] (Some (mkdate 1990 1 3)))
                    eq_refl) [] []).
    + reflexivity.
    + intros [].
    + reflexivity.
  - apply (proj1 (proj2 (change_contact_spec example_book (lit "Ann") (lit "2222222222")
                    (lit "0501234567") []
                    (example_record "Ann" ["1111111111"%string] (Some (mkdate 1990 1 3)))
                    eq_refl))).
    intros [H | []]. discriminate H.
Defined.

(** For a name that is not in the book, [change], [phone], [add-birthday]
    and [show-birthday] answer ["Contact <name> not found"] and leave the
    book as it is, whatever the other arguments are; only [add] creates a
    contact. *)
Theorem contact_not_found (today : date) (h : handler) (book : AddressBook)
        (nm : pystr) (rest : list pystr) :
  AddressBook_find book nm = None ->
  h = H_change_contact \/ h = H_show_phone \/ h = H_add_birthday \/ h = H_show_birthday ->
  handler_arity h <= len (nm :: rest) ->
  run_handler today h (nm :: rest) book = (book, lit "Contact " ++ nm ++ lit " not found").
Proof.
  intros F [-> | [-> | [-> | ->]]]; cbn [run_handler handler_arity]; unfold len;
    destruct rest as [|a [|b rest]]; cbn [length]; intros L; try lia;
    unfold change_contact, show_phone, add_birthday, show_birthday, input_error,
      change_contact_func, show_phone_func, add_birthday_func, show_birthday_func;
    rewrite F; reflexivity.
Qed.

Lemma contact_not_found_witness :
  run_handler (mkdate 2024 1 1) H_change_contact
    [lit "Eve"; lit "1111111111"; lit "2222222222"] example_book
  = (example_book, lit "Contact Eve not found").
Proof.
  apply (contact_not_found (mkdate 2024 1 1) H_change_contact example_book (lit "Eve")
           [lit "1111111111"; lit "2222222222"]).
  - reflexivity.
  - left. reflexivity.
  - vm_compute. discriminate.
Defined.
